(** * Slide video renderer: text layout and timing engine

    A shallow embedding of the pure core of [src/html/video.py] and
    [src/html/video_animated.py]: timestamp parsing, the rich-text
    tokenizer, the word wrapper, the auto-fit layout loop, the duration
    deriver, the per-layer schedule of the animated composer and the
    order of the checks in [main].

    Conventions of the embedding.
    - A Python [str] is a [string]; an [ascii] is read as the code point
      of that number, so the strings covered are those over the code
      points 0..255 (Latin-1).
    - Python [int] is [Z]; indices and lengths are [nat]; [-1] returned
      by [str.find] is [None].
    - Python [float] is [Q]: products, sums and differences are taken
      exactly, [int(x)] truncates toward zero.
    - A [while] loop that the source does not bound runs on fuel;
      [OutOfFuel] stands for a loop that has not finished yet. *)

From Stdlib Require Import Bool Arith ZArith QArith Qminmax Qround List Sorted String Ascii Lia Lqa.
Import ListNotations.

Open Scope string_scope.
Open Scope list_scope.
Open Scope nat_scope.

(** ** Outcomes of a call: a value, a raised exception, or no answer yet *)

Inductive exn : Type :=
| ValueError (msg : string)
| FileNotFoundError (msg : string)
| AttributeError (msg : string).

Inductive outcome (A : Type) : Type :=
| Ret (a : A)
| Raise (e : exn)
| OutOfFuel.

Arguments Ret {A} a.
Arguments Raise {A} e.
Arguments OutOfFuel {A}.

Definition bind {A B : Type} (m : outcome A) (k : A -> outcome B) : outcome B :=
  match m with
  | Ret a => k a
  | Raise e => Raise e
  | OutOfFuel => OutOfFuel
  end.

Notation "x <- m ;; k" := (bind m (fun x => k))
  (at level 61, m at next level, right associativity).

(** [for x in xs: acc = f(acc, x)], where the body may raise. *)
Fixpoint foldM {A S : Type} (f : S -> A -> outcome S) (xs : list A) (s : S)
  : outcome S :=
  match xs with
  | [] => Ret s
  | x :: xs' => s' <- f s x ;; foldM f xs' s'
  end.

(** [[f(x) for x in xs]], where [f] may raise. *)
Fixpoint mapM {A B : Type} (f : A -> outcome B) (xs : list A) : outcome (list B) :=
  match xs with
  | [] => Ret []
  | x :: xs' => y <- f x ;; ys <- mapM f xs' ;; Ret (y :: ys)
  end.

(** ** The operations of Python's [str] that the source uses *)

Module PyStr.

Definition len (s : string) : nat := String.length s.

(** [s[n:]] *)
Fixpoint drop (n : nat) (s : string) : string :=
  match n, s with
  | 0, _ => s
  | S _, EmptyString => EmptyString
  | S n', String _ s' => drop n' s'
  end.

(** [s[i:j]] for [0 <= i], [0 <= j] *)
Definition slice (s : string) (i j : nat) : string := substring i (j - i) s.

(** [s[j]] for [0 <= j < len(s)] *)
Definition get (s : string) (j : nat) : option ascii := String.get j s.

(** [s.startswith(pat)] *)
Fixpoint is_prefix (pat s : string) : bool :=
  match pat with
  | EmptyString => true
  | String a pat' =>
      match s with
      | EmptyString => false
      | String b s' => Ascii.eqb a b && is_prefix pat' s'
      end
  end.

(** [s.startswith(pat, i)] *)
Definition startswith (s pat : string) (i : nat) : bool :=
  (i <=? len s) && is_prefix pat (drop i s).

Fixpoint find_from (pat s : string) (k : nat) : option nat :=
  if is_prefix pat s then Some k
  else match s with
       | EmptyString => None
       | String _ s' => find_from pat s' (S k)
       end.

(** [s.find(pat, start)]: the lowest index at or after [start] where
    [pat] occurs, [None] for Python's [-1]. *)
Definition find (s pat : string) (start : nat) : option nat :=
  if start <=? len s then find_from pat (drop start s) start else None.

(** [s.replace(a, b)] for one-character [a] and [b] *)
Fixpoint replace (a b : ascii) (s : string) : string :=
  match s with
  | EmptyString => EmptyString
  | String c s' => String (if Ascii.eqb c a then b else c) (replace a b s')
  end.

(** [s.split(sep)] for a one-character separator: never an empty list *)
Fixpoint split (sep : ascii) (s : string) : list string :=
  match s with
  | EmptyString => [EmptyString]
  | String c s' =>
      if Ascii.eqb c sep then EmptyString :: split sep s'
      else match split sep s' with
           | [] => [String c EmptyString]
           | w :: ws => String c w :: ws
           end
  end.

Fixpoint all_chars (p : ascii -> bool) (s : string) : bool :=
  match s with
  | EmptyString => true
  | String c s' => p c && all_chars p s'
  end.

Definition nonempty (s : string) : bool :=
  match s with EmptyString => false | String _ _ => true end.

(** Unicode decimal digits (category Nd) below 256: ['0'..'9']. *)
Definition is_decimal_char (c : ascii) : bool :=
  let n := nat_of_ascii c in (48 <=? n) && (n <=? 57).

(** Characters with Numeric_Type Digit or Decimal below 256: the
    decimal digits and the superscripts U+00B2, U+00B3, U+00B9. *)
Definition is_digit_char (c : ascii) : bool :=
  let n := nat_of_ascii c in
  is_decimal_char c || (n =? 178) || (n =? 179) || (n =? 185).

(** Characters for which [str.isspace] holds, and that [\s] matches,
    below 256. *)
Definition is_space_char (c : ascii) : bool :=
  let n := nat_of_ascii c in
  ((9 <=? n) && (n <=? 13)) || ((28 <=? n) && (n <=? 32))
  || (n =? 133) || (n =? 160).

(** [s.isdigit()] *)
Definition isdigit (s : string) : bool := nonempty s && all_chars is_digit_char s.

(** [s.isspace()] *)
Definition isspace (s : string) : bool := nonempty s && all_chars is_space_char s.

Fixpoint decimal_value (acc : Z) (s : string) : Z :=
  match s with
  | EmptyString => acc
  | String c s' => decimal_value (10 * acc + Z.of_nat (nat_of_ascii c - 48)) s'
  end.

(** The number of decimal digits that [s] begins with. *)
Fixpoint leading_decimals (s : string) : nat :=
  match s with
  | EmptyString => 0
  | String c s' => if is_decimal_char c then S (leading_decimals s') else 0
  end.

(** [sys.int_info.default_max_str_digits], the interpreter's limit on
    the digits of a string that is converted to an integer. *)
Definition int_max_str_digits : nat := 4300.

(** [int(s)] on the arguments the source passes, those with
    [s.isdigit()]: the value of a string of decimal digits;
    [ValueError] when the string begins with more decimal digits than
    the interpreter's limit allows, and [ValueError] when a character
    is a digit without being a decimal digit. *)
Definition int (s : string) : outcome Z :=
  if int_max_str_digits <? leading_decimals s
  then Raise (ValueError
                "Exceeds the limit (4300 digits) for integer string conversion")
  else if nonempty s && all_chars is_decimal_char s
       then Ret (decimal_value 0 s)
       else Raise (ValueError "invalid literal for int() with base 10").

(** [re.findall(r"\S+|\s+", s)]: the maximal blocks of whitespace and
    of non-whitespace characters, left to right. *)
Fixpoint findall_tokens (s : string) : list string :=
  match s with
  | EmptyString => []
  | String c s' =>
      match findall_tokens s' with
      | String d tok :: rest =>
          if Bool.eqb (is_space_char c) (is_space_char d)
          then String c (String d tok) :: rest
          else String c EmptyString :: String d tok :: rest
      | rest => String c EmptyString :: rest
      end
  end.

End PyStr.

(** ** Timestamp parser *)

(** [(xs + ["0", "0"])[:2]] unpacked into a pair. *)
Definition first_two (xs : list string) : string * string :=
  match firstn 2 (xs ++ ["0"; "0"]) with
  | [m; s] => (m, s)
  | _ => ("0", "0")
  end.

Definition parse_ts (ts : string) : outcome Z :=
  let ts := PyStr.replace ":" "_" ts in
  let '(m, s) := first_two (PyStr.split "_" ts) in
  mv <- (if PyStr.isdigit m then PyStr.int m else Ret 0%Z) ;;
  sv <- (if PyStr.isdigit s then PyStr.int s else Ret 0%Z) ;;
  Ret (mv * 60 + sv)%Z.

(** ** Rich-text tokenizer *)

Inductive style : Type := normal | bold | italic.

Definition run : Type := (string * style)%type.

(** The inner loop
    [while j < len(text) and not text.startswith("**", j) and text[j] != "*": j += 1].
    It advances [j] at most [len(text)] times, which is the fuel that
    [tokenize_step] gives it. *)
Fixpoint scan_normal (fuel : nat) (text : string) (j : nat) : nat :=
  match fuel with
  | 0 => j
  | S fuel' =>
      if (j <? PyStr.len text)
         && negb (PyStr.startswith text "**" j)
         && negb (match PyStr.get text j with
                  | Some c => Ascii.eqb c "*"
                  | None => false
                  end)
      then scan_normal fuel' text (S j)
      else j
  end.

(** One pass through the body of [while i < len(text)]: the new [i] and
    the new [runs]. *)
Definition tokenize_step (text : string) (i : nat) (runs : list run)
  : nat * list run :=
  match (if PyStr.startswith text "**" i then PyStr.find text "**" (i + 2) else None) with
  | Some j => (j + 2, runs ++ [(PyStr.slice text (i + 2) j, bold)])
  | None =>
      match (if PyStr.startswith text "*" i then PyStr.find text "*" (i + 1) else None) with
      | Some j => (j + 1, runs ++ [(PyStr.slice text (i + 1) j, italic)])
      | None =>
          let j := scan_normal (PyStr.len text) text i in
          (j, runs ++ [(PyStr.slice text i j, normal)])
      end
  end.

Fixpoint tokenize_loop (fuel : nat) (text : string) (i : nat) (runs : list run)
  : outcome (list run) :=
  if i <? PyStr.len text then
    match fuel with
    | 0 => OutOfFuel
    | S fuel' =>
        let '(i', runs') := tokenize_step text i runs in
        tokenize_loop fuel' text i' runs'
    end
  else Ret runs.

Definition tokenize_md (fuel : nat) (text : string) : outcome (list run) :=
  tokenize_loop fuel text 0 [].

(** ** Constants of the two scripts *)

Definition W : Z := 854.
Definition H : Z := 480.
Definition LEFT_W : Z := W / 3.
Definition RIGHT_W : Z := W - LEFT_W.
Definition PADDING : Z := 14.

Definition MAX_LINES : nat := 4.
Definition MIN_SLIDE_SEC : Q := 1.

Definition IMG_IN_DUR : Q := 70 # 100.
Definition CALLOUT_DELAY : Q := 20 # 100.
Definition CALLOUT_DUR : Q := 35 # 100.
Definition TEXT_START_DELAY : Q := 35 # 10.
Definition TEXT_STAGGER : Q := 140 # 100.
Definition TEXT_DUR : Q := 60 # 100.

(** ** Numbers *)

(** [int(q)]: truncation toward zero. *)
Definition int_of_Q (q : Q) : Z := Z.quot (Qnum q) (Zpos (Qden q)).

(** [int(n * c)] for an integer [n] and a float constant [c]. *)
Definition int_scale (n : Z) (c : Q) : Z := int_of_Q (inject_Z n * c).

(** [max(a, b)] of Python: the first argument unless the second is
    strictly greater. *)
Definition py_max (a b : Q) : Q := if Qle_bool b a then a else b.

(** [enumerate(xs)] *)
Definition enumerate {A : Type} (xs : list A) : list (nat * A) :=
  combine (seq 0 (List.length xs)) xs.

Definition is_nil {A : Type} (xs : list A) : bool :=
  match xs with [] => true | _ :: _ => false end.

(** ** Duration deriver *)

Definition durations_from_timestamps (ts : list Q) (audio_len : Q) : list Q :=
  fold_left
    (fun out '(i, t) =>
       let d := if i <? List.length ts - 1
                then (nth (i + 1) ts 0 - t)%Q
                else (audio_len - t)%Q in
       out ++ [py_max MIN_SLIDE_SEC d])
    (enumerate ts) [].

(** ** Slides, clips and events *)

(** An entry of the script as the JSON gives it; the timestamp may be
    absent. *)
Record entry : Type := {
  e_timestamp : option string;
  e_explanation : string;
  e_slide_content : string
}.

Record slide : Type := {
  index : nat;
  timestamp : Z;
  explanation : string;
  slide_content : string
}.

Inductive layer_kind : Type :=
| BaseLayer
| ImageLayer
| CalloutLayer
| TextLayer (idx : nat).

(** The timing of a layer of the composite: when it starts within the
    slide, how long it lasts, how long it fades in, and where it comes
    to rest (pixels are not modelled). *)
Record clip : Type := {
  clip_kind : layer_kind;
  clip_start : Q;
  clip_duration : Q;
  clip_fadein : Q;
  clip_rest : option (Z * Z)
}.

Record composite : Type := {
  layers : list clip;
  comp_duration : Q
}.

Inductive event : Type :=
| EvRender (slide_index : nat)
| EvWrite (clips : nat).

Definition newline : ascii := ascii_of_nat 10.

(** [slides.sort(key=lambda s: s["timestamp"])]: a stable sort, here by
    insertion, an element going before the first one whose key is not
    smaller. *)
Fixpoint insert_slide (s : slide) (l : list slide) : list slide :=
  match l with
  | [] => [s]
  | x :: l' =>
      if (timestamp s <=? timestamp x)%Z then s :: x :: l'
      else x :: insert_slide s l'
  end.

Definition sort_slides (l : list slide) : list slide :=
  fold_right insert_slide [] l.

(** ** Fonts, measurement, word wrapper and auto-fit layout *)

(** A PIL font: the file it was loaded from and its [size] attribute,
    which the built-in bitmap font of older PIL versions lacks. *)
Record font : Type := {
  font_file : option string;
  font_size : option Z
}.

Definition line : Type := list (string * style).

(** The dictionary that [layout_right_column] returns, followed by the
    locals of the loop at its exit ([expl_size], [lines_size],
    [text_h], [total_h]), which [render_slide_image] goes on using. *)
Record layout : Type := {
  f_expl : style -> font;
  f_txt : style -> font;
  lh_expl : Z;
  lh_txt : Z;
  expl_wrapped : list line;
  blocks : list (list line);
  expl_h : Z;
  start_y : Z;
  expl_size : Z;
  lines_size : Z;
  text_h : Z;
  total_h : Z
}.

Definition min_size : Z := 12.

(** [max(1, len(xs))] *)
Definition at_least_one {A : Type} (xs : list A) : Z :=
  Z.max 1 (Z.of_nat (List.length xs)).

(** [TEXT_START_DELAY + idx * TEXT_STAGGER] *)
Definition text_delay (idx : nat) : Q :=
  (TEXT_START_DELAY + inject_Z (Z.of_nat idx) * TEXT_STAGGER)%Q.

Section Layout.

(** The font files found when the module is loaded, [None] when no
    candidate path exists. *)
Variables FONT_REG FONT_BOLD FONT_ITAL : option string.

(** [ImageFont.load_default()] *)
Variable load_default : font.

(** [draw.textlength(t, font=f)]; [None] when PIL raises. *)
Variable textlength : string -> font -> option Q.

(** [mkfont(path, size)]: the font of the file at [size] when a file
    was found, the built-in font otherwise.  The font library refuses
    a size that is not positive; the scripts make their fonts at
    [int(base_size)], [int(0.9 * base_size)] and sizes of at least
    12, which are positive from a base size of 2 on. *)
Definition mkfont (path : option string) (size : Z) : font :=
  match path with
  | Some p => {| font_file := Some p; font_size := Some size |}
  | None => load_default
  end.

(** [{"normal": mkfont(FONT_REG, size), "bold": mkfont(FONT_BOLD, size),
    "italic": mkfont(FONT_ITAL, size)}] *)
Definition fontset (size : Z) : style -> font :=
  fun st =>
    match st with
    | normal => mkfont FONT_REG size
    | bold => mkfont FONT_BOLD size
    | italic => mkfont FONT_ITAL size
    end.

(** [hasattr(f, "size")] *)
Definition has_size (f : font) : bool :=
  match font_size f with Some _ => true | None => false end.

(** The nested [seg_w(t, st)] of [wrap_rich]. *)
Definition seg_w (fonts : style -> font) (t : string) (st : style) : outcome Q :=
  match textlength t (fonts st) with
  | Some w => Ret w
  | None =>
      match font_size (fonts normal) with
      | Some sz =>
          Ret (inject_Z (Z.of_nat (PyStr.len t)) * inject_Z sz * (6 # 10))%Q
      | None => Raise (AttributeError "size")
      end
  end.

(** The locals [lines], [cur], [cur_w] of [wrap_rich]. *)
Definition wrap_state : Type := (list line * line * Q)%type.

(** The body of the inner [for tok in re.findall(...)]. *)
Definition wrap_token (fonts : style -> font) (max_w : Z) (st : style)
           (s : wrap_state) (tok : string) : outcome wrap_state :=
  let '(lines, cur, cur_w) := s in
  w <- seg_w fonts tok st ;;
  if Qle_bool (cur_w + w) (inject_Z max_w) || (PyStr.isspace tok && is_nil cur)
  then Ret (lines, cur ++ [(tok, st)], (cur_w + w)%Q)
  else w' <- seg_w fonts tok st ;; Ret (lines ++ [cur], [(tok, st)], w').

(** The body of the outer [for txt, st in runs]. *)
Definition wrap_run (fonts : style -> font) (max_w : Z)
           (s : wrap_state) (r : run) : outcome wrap_state :=
  let '(txt, st) := r in
  foldM (wrap_token fonts max_w st) (PyStr.findall_tokens txt) s.

Definition wrap_rich (runs : list run) (fonts : style -> font) (max_w : Z)
  : outcome (list line) :=
  s <- foldM (wrap_run fonts max_w) runs ([], [], 0%Q) ;;
  let '(lines, cur, _) := s in
  Ret (if is_nil cur then lines else lines ++ [cur]).

(** The body of [for raw in (raw_lines or [])[:MAX_LINES]]. *)
Definition layout_block (tfuel : nat) (fonts : style -> font) (lh : Z) (iw : Z)
           (acc : list (list line) * Z) (raw : string)
  : outcome (list (list line) * Z) :=
  let '(blocks, text_h) := acc in
  runs <- tokenize_md tfuel raw ;;
  w <- wrap_rich runs fonts iw ;;
  Ret (blocks ++ [w], (text_h + lh * at_least_one w)%Z).

(** One pass through the body of [while True], up to the test: the
    fonts, line heights, wrapped texts and heights at the given sizes.
    [tfuel] is the fuel of the tokenizer's loop. *)
Definition layout_pass (tfuel : nat) (iw ih : Z) (explanation : string)
           (raw_lines : list string) (expl_size lines_size : Z)
  : outcome layout :=
  let f_expl := fontset expl_size in
  let f_txt := fontset lines_size in
  let lh_expl := if has_size (f_expl normal)
                 then int_scale expl_size (13 # 10) else 24%Z in
  let lh_txt := if has_size (f_txt normal)
                then int_scale lines_size (125 # 100) else 20%Z in
  runs <- tokenize_md tfuel explanation ;;
  expl_wrapped <- wrap_rich runs f_expl (iw - 20) ;;
  let expl_h := (lh_expl * at_least_one expl_wrapped + 16)%Z in
  acc <- foldM (layout_block tfuel f_txt lh_txt iw)
               (firstn MAX_LINES raw_lines) ([], 0%Z) ;;
  let '(blocks, text_h) := acc in
  let total_h := (expl_h + 10 + text_h)%Z in
  Ret {| f_expl := f_expl; f_txt := f_txt;
         lh_expl := lh_expl; lh_txt := lh_txt;
         expl_wrapped := expl_wrapped; blocks := blocks;
         expl_h := expl_h;
         start_y := Z.max 0 ((ih - total_h) / 2);
         expl_size := expl_size; lines_size := lines_size;
         text_h := text_h; total_h := total_h |}.

(** The test that leaves the loop. *)
Definition layout_done (ih : Z) (p : layout) : bool :=
  (total_h p <=? ih)%Z
  || ((expl_size p <=? min_size)%Z && (lines_size p <=? min_size)%Z).

(** [while True: ...] of [layout_right_column] and of
    [render_slide_image]. *)
Fixpoint layout_loop (fuel tfuel : nat) (iw ih : Z) (explanation : string)
         (raw_lines : list string) (expl_size lines_size : Z)
  : outcome layout :=
  match fuel with
  | 0 => OutOfFuel
  | S fuel' =>
      p <- layout_pass tfuel iw ih explanation raw_lines expl_size lines_size ;;
      if layout_done ih p then Ret p
      else layout_loop fuel' tfuel iw ih explanation raw_lines
             (Z.max min_size (int_scale expl_size (94 # 100)))
             (Z.max min_size (int_scale lines_size (94 # 100)))
  end.

Definition layout_right_column (fuel : nat) (iw ih : Z) (explanation : string)
           (raw_lines : list string) (base_size : Z) : outcome layout :=
  layout_loop fuel fuel iw ih explanation raw_lines
              (int_scale base_size 1) (int_scale base_size (90 # 100)).

(** The layout part of [render_slide_image]: the same loop on the
    fixed right-hand box, then the fonts, wrapped texts and heights
    computed once more at the sizes the loop ended with, and the
    vertical offset counted from the top inset. *)
Definition render_slide_image_layout (fuel : nat) (explanation : string)
           (lines_right : list string) (base_size : Z) : outcome layout :=
  let iy := PADDING in
  let iw := (RIGHT_W - 2 * PADDING)%Z in
  let ih := (H - 2 * PADDING)%Z in
  r <- layout_right_column fuel iw ih explanation lines_right base_size ;;
  p <- layout_pass fuel iw ih explanation lines_right (expl_size r) (lines_size r) ;;
  Ret {| f_expl := f_expl p; f_txt := f_txt p;
         lh_expl := lh_expl p; lh_txt := lh_txt p;
         expl_wrapped := expl_wrapped p; blocks := blocks p;
         expl_h := expl_h p;
         start_y := (iy + Z.max 0 ((ih - total_h p) / 2))%Z;
         expl_size := expl_size p; lines_size := lines_size p;
         text_h := text_h p; total_h := total_h p |}.

(** *** Animated slide composer *)

(** [os.path.isfile] of the image of the slide with this 1-based
    number. *)
Variable image_exists : nat -> bool.

(** The layers that [build_slide_clip] stacks once the right column
    is laid out: background, image when there is one, callout, then
    one layer per block of text. *)
Definition compose_layers (has_image : bool) (right : layout) (duration : Q)
  : composite :=
  let ix := (LEFT_W + PADDING)%Z in
  let iy := (0 + PADDING)%Z in
  let base := {| clip_kind := BaseLayer; clip_start := 0;
                 clip_duration := duration; clip_fadein := 0;
                 clip_rest := None |} in
  let img_layer :=
    if has_image
    then [ {| clip_kind := ImageLayer; clip_start := 0;
              clip_duration := duration; clip_fadein := IMG_IN_DUR;
              clip_rest := None |} ]
    else [] in
  let call_h := expl_h right in
  let call_y := (iy + start_y right)%Z in
  let call_clip :=
    {| clip_kind := CalloutLayer; clip_start := CALLOUT_DELAY;
       clip_duration := py_max (1 # 10) (duration - CALLOUT_DELAY);
       clip_fadein := CALLOUT_DUR;
       clip_rest := Some (ix, call_y) |} in
  let '(text_layers, _) :=
    fold_left
      (fun '(text_layers, cur_y) '(idx, block) =>
         let h := (lh_txt right * at_least_one block)%Z in
         let delay := text_delay idx in
         let dur_remain := py_max (1 # 10) (duration - delay) in
         let tb_clip :=
           {| clip_kind := TextLayer idx; clip_start := delay;
              clip_duration := dur_remain; clip_fadein := TEXT_DUR;
              clip_rest := Some (ix, cur_y) |} in
         (text_layers ++ [tb_clip], (cur_y + h)%Z))
      (enumerate (blocks right))
      ([], (call_y + call_h + 10)%Z) in
  {| layers := [base] ++ img_layer ++ [call_clip] ++ text_layers;
     comp_duration := duration |}.

Definition build_slide_clip (fuel : nat) (sl : slide) (duration : Q)
           (base_font_size : Z) : outcome composite :=
  let iw := (RIGHT_W - 2 * PADDING)%Z in
  let ih := (H - 2 * PADDING)%Z in
  right <- layout_right_column fuel iw ih (explanation sl)
             (firstn MAX_LINES (skipn 1 (PyStr.split newline (slide_content sl))))
             base_font_size ;;
  Ret (compose_layers (image_exists (index sl + 1)) right duration).

(** *** The animated script's [main]

    Its inputs are what the file system gives: the entries of the
    script ([None] when the JSON file is absent) and the length of the
    audio track ([None] when no audio file is found).  What it does to
    the outside is a list of events. *)

Definition slide_of_entry (ie : nat * entry) : outcome slide :=
  let '(i, e) := ie in
  t <- parse_ts (match e_timestamp e with Some ts => ts | None => "0_00" end) ;;
  Ret {| index := i; timestamp := t;
         explanation := e_explanation e;
         slide_content := e_slide_content e |}.

(** [[build_slide_clip(s, dur, ...) for s, dur in zip(slides, durs)]],
    each rendering recorded before it is done. *)
Fixpoint build_clips (fuel : nat) (base_font_size : Z) (sds : list (slide * Q))
         (trace : list event) (clips : list composite)
  : list event * outcome (list composite) :=
  match sds with
  | [] => (trace, Ret clips)
  | (s, dur) :: sds' =>
      let trace := trace ++ [EvRender (index s)] in
      match build_slide_clip fuel s dur base_font_size with
      | Ret c => build_clips fuel base_font_size sds' trace (clips ++ [c])
      | Raise e => (trace, Raise e)
      | OutOfFuel => (trace, OutOfFuel)
      end
  end.

Definition main (fuel : nat) (json : option (list entry)) (audio : option Q)
           (base_font_size : Z) : list event * outcome unit :=
  match json with
  | None => ([], Raise (FileNotFoundError "JSON not found"))
  | Some entries =>
      if is_nil entries then ([], Raise (ValueError "No entries in JSON."))
      else
        match audio with
        | None => ([], Raise (FileNotFoundError "No audio file found"))
        | Some alen =>
            match mapM slide_of_entry (enumerate entries) with
            | Raise e => ([], Raise e)
            | OutOfFuel => ([], OutOfFuel)
            | Ret slides =>
                let slides := sort_slides slides in
                let ts := map (fun s => inject_Z (timestamp s)) slides in
                if negb (is_nil ts) && negb (Qle_bool (nth 0 ts 0%Q) alen)
                then ([], Raise (ValueError
                        "First slide timestamp is beyond the audio duration."))
                else
                  let durs := durations_from_timestamps ts alen in
                  match build_clips fuel base_font_size (combine slides durs) [] [] with
                  | (trace, Ret clips) =>
                      (trace ++ [EvWrite (List.length clips)], Ret tt)
                  | (trace, Raise e) => (trace, Raise e)
                  | (trace, OutOfFuel) => (trace, OutOfFuel)
                  end
            end
        end
  end.

End Layout.

(** ** What the specification calls the first closing marker *)

(** [j] is the lowest index at or after [start] where [pat] occurs in [s]. *)
Definition first_at (s pat : string) (start j : nat) : Prop :=
  start <= j
  /\ PyStr.startswith s pat j = true
  /\ forall m, start <= m < j -> PyStr.startswith s pat m = false.

(** No occurrence of [pat] in [s] at or after [start]. *)
Definition absent_from (s pat : string) (start : nat) : Prop :=
  forall m, start <= m -> PyStr.startswith s pat m = false.

(** ** Easing, positions of the layers and the fitting of the image *)

Definition IMG_SLIDE_PX : Z := 12.
Definition CALLOUT_SLIDE_PX : Z := 10.
Definition TEXT_SLIDE_PX : Z := 12.

(** [min(a, b)] of Python: the first argument unless the second is
    strictly smaller. *)
Definition py_min (a b : Q) : Q := if Qle_bool a b then a else b.

(** [1 - (1 - max(0.0, min(1.0, x))) ** 3] *)
Definition ease_out_cubic (x : Q) : Q :=
  let u := (1 - py_max 0 (py_min 1 x))%Q in
  (1 - u * u * u)%Q.

(** [ease_out_cubic(t / DUR) if DUR > 0 else 1.0] *)
Definition fade_progress (dur t : Q) : Q :=
  if Qle_bool dur 0 then 1%Q else ease_out_cubic (t / dur).

(** [img_pos(t)] of [build_slide_clip], for an image pasted at
    [(paste_x, paste_y)]. *)
Definition img_pos (paste_x paste_y : Z) (t : Q) : Q * Q :=
  let p := fade_progress IMG_IN_DUR t in
  let dx := ((1 - p) * inject_Z IMG_SLIDE_PX)%Q in
  ((inject_Z paste_x - dx)%Q, inject_Z paste_y).

(** [call_pos(local_t)] of [build_slide_clip]. *)
Definition call_pos (ix call_y : Z) (local_t : Q) : Q * Q :=
  let p := fade_progress CALLOUT_DUR local_t in
  let dy := ((1 - p) * inject_Z CALLOUT_SLIDE_PX)%Q in
  (inject_Z ix, (inject_Z call_y - dy)%Q).

(** [mk_pos(by)(local_t)] of [build_slide_clip]. *)
Definition text_pos (ix base_y : Z) (local_t : Q) : Q * Q :=
  let p := fade_progress TEXT_DUR local_t in
  let dy := ((1 - p) * inject_Z TEXT_SLIDE_PX)%Q in
  (inject_Z ix, (inject_Z base_y - dy)%Q).

(** The size to which the left image of [w] by [h] pixels is scaled
    and the corner where it is pasted, as both scripts compute them
    (an image has a positive width and height). *)
Definition fit_left_image (w h : Z) : (Z * Z) * (Z * Z) :=
  let Lw := LEFT_W in
  let Lh := H in
  let r := py_min (inject_Z Lw / inject_Z w) (inject_Z Lh / inject_Z h) in
  let nw := Z.max 1 (int_of_Q (inject_Z w * r)) in
  let nh := Z.max 1 (int_of_Q (inject_Z h * r)) in
  ((nw, nh), ((0 + (Lw - nw) / 2)%Z, (0 + (Lh - nh) / 2)%Z)).

(** A coordinate that slides in: it starts [px] short of [rest], never
    moves back or past [rest], and is at [rest] from [dur] on. *)
Definition slides_in (f : Q -> Q) (rest px dur : Q) : Prop :=
  (forall t, rest - px <= f t <= rest)%Q
  /\ (forall t, t <= 0 -> f t == rest - px)%Q
  /\ (forall t, dur <= t -> f t == rest)%Q
  /\ (forall t t', t <= t' -> f t <= f t')%Q.

(** ** Drawing the text, the static slide and the static script's [main] *)

Definition color : Type := (Z * Z * Z)%type.

Definition TEXT_COLOR : color := (226, 232, 240)%Z.
Definition BULLET_COLOR : color := TEXT_COLOR.
Definition CALLOUT_BG : color := (26, 32, 44)%Z.
Definition CALLOUT_BORDER : color := (66, 153, 225)%Z.
Definition BOLD_COLOR : color := (99, 179, 237)%Z.
Definition ITALIC_COLOR : color := (250, 240, 137)%Z.

(** A call [draw.text((x, y), t, font=..., fill=...)]. *)
Record draw_call : Type := {
  dc_x : Q;
  dc_y : Z;
  dc_text : string;
  dc_style : style;
  dc_font : font;
  dc_fill : color
}.

(** A call [rectangle([x0, y0, x1, y1], fill=...)]. *)
Record rect : Type := {
  r_x0 : Z;
  r_y0 : Z;
  r_x1 : Z;
  r_y1 : Z;
  r_fill : color
}.

(** What [render_slide_image] puts on the image: the left picture
    (its size and corner) when there is one, the rectangles of the
    callout, the texts, and where the drawing of the lines ended. *)
Record frame : Type := {
  fr_image : option ((Z * Z) * (Z * Z));
  fr_rects : list rect;
  fr_calls : list draw_call;
  fr_bottom : Z;
  fr_layout : layout
}.

(** [{"normal": TEXT_COLOR, "bold": BOLD_COLOR, "italic": ITALIC_COLOR}];
    [BULLET_COLOR], used for the lines, is the same as [TEXT_COLOR]. *)
Definition text_fills (st : style) : option color :=
  match st with
  | normal => Some TEXT_COLOR
  | bold => Some BOLD_COLOR
  | italic => Some ITALIC_COLOR
  end.

Section Render.

Variables FONT_REG FONT_BOLD FONT_ITAL : option string.
Variable load_default : font.
Variable textlength : string -> font -> option Q.

(** The body of [for t, st in line] of [draw_lines]. *)
Definition draw_token (fonts : style -> font) (fills : style -> option color)
           (y : Z) (acc : list draw_call * Q) (ts : string * style)
  : outcome (list draw_call * Q) :=
  let '(calls, cx) := acc in
  let '(t, st) := ts in
  let call := {| dc_x := cx; dc_y := y; dc_text := t; dc_style := st;
                 dc_font := fonts st;
                 dc_fill := match fills st with
                            | Some c => c
                            | None => TEXT_COLOR
                            end |} in
  w <- seg_w textlength fonts t st ;;
  Ret (calls ++ [call], (cx + w)%Q).

(** The body of [for line in lines] of [draw_lines]. *)
Definition draw_line (fonts : style -> font) (fills : style -> option color)
           (x line_h : Z) (acc : list draw_call * Z) (l : line)
  : outcome (list draw_call * Z) :=
  let '(calls, y) := acc in
  r <- foldM (draw_token fonts fills y) l (calls, inject_Z x) ;;
  Ret (fst r, (y + line_h)%Z).

(** [draw_lines(draw, x, y, lines, fonts, fills, line_h)]: the calls
    made and the [y] returned. *)
Definition draw_lines (x y : Z) (lines : list line) (fonts : style -> font)
           (fills : style -> option color) (line_h : Z)
  : outcome (list draw_call * Z) :=
  foldM (draw_line fonts fills x line_h) lines ([], y).

(** [render_slide_image], for a left picture of the given size when
    the file is there and can be read. *)
Definition render_slide_image (fuel : nat) (left_img : option (Z * Z))
           (explanation : string) (lines_right : list string) (base_size : Z)
  : outcome frame :=
  let image :=
    match left_img with
    | Some (w, h) =>
        if ((0 <? w) && (0 <? h))%Z then Some (fit_left_image w h) else None
    | None => None
    end in
  let ix := (LEFT_W + PADDING)%Z in
  let iw := (RIGHT_W - 2 * PADDING)%Z in
  r <- render_slide_image_layout FONT_REG FONT_BOLD FONT_ITAL load_default
         textlength fuel explanation lines_right base_size ;;
  let call_x := ix in
  let call_y := start_y r in
  let call_w := iw in
  let call_h := (lh_expl r * at_least_one (expl_wrapped r) + 16)%Z in
  let rects :=
    [ {| r_x0 := call_x; r_y0 := call_y; r_x1 := (call_x + call_w)%Z;
         r_y1 := (call_y + call_h)%Z; r_fill := CALLOUT_BG |};
      {| r_x0 := call_x; r_y0 := call_y; r_x1 := (call_x + 4)%Z;
         r_y1 := (call_y + call_h)%Z; r_fill := CALLOUT_BORDER |} ] in
  c <- draw_lines (call_x + 10) (call_y + 8) (expl_wrapped r) (f_expl r)
         text_fills (lh_expl r) ;;
  b <- foldM (fun (acc : list draw_call * Z) (para : list line) =>
                let '(calls, cur_y) := acc in
                d <- draw_lines ix cur_y para (f_txt r) text_fills (lh_txt r) ;;
                Ret (calls ++ fst d, snd d))
             (blocks r) (fst c, (call_y + call_h + 10)%Z) ;;
  Ret {| fr_image := image; fr_rects := rects; fr_calls := fst b;
         fr_bottom := snd b; fr_layout := r |}.

(** The size of the picture of the slide with this 1-based number,
    [None] when the file is missing or cannot be read. *)
Variable image_size : nat -> option (Z * Z).

(** The loop [for s in slides] of the static [main], each frame
    recorded before it is rendered. *)
Fixpoint render_frames (fuel : nat) (base_font_size : Z) (slides : list slide)
         (trace : list event) (frames : list frame)
  : list event * outcome (list frame) :=
  match slides with
  | [] => (trace, Ret frames)
  | s :: slides' =>
      let trace := trace ++ [EvRender (index s)] in
      match render_slide_image fuel (image_size (index s + 1)) (explanation s)
              (firstn MAX_LINES (skipn 1 (PyStr.split newline (slide_content s))))
              base_font_size with
      | Ret f => render_frames fuel base_font_size slides' trace (frames ++ [f])
      | Raise e => (trace, Raise e)
      | OutOfFuel => (trace, OutOfFuel)
      end
  end.

(** [main] of [video.py] up to the list [clips]: one rendered frame
    per slide with the duration it is shown for.  Joining the clips,
    cutting the audio and writing the file are done by the video
    library and are not part of this model. *)
Definition main_static (fuel : nat) (json : option (list entry))
           (audio : option Q) (base_font_size : Z)
  : list event * outcome (list (frame * Q)) :=
  match json with
  | None => ([], Raise (FileNotFoundError "JSON not found"))
  | Some entries =>
      if is_nil entries then ([], Raise (ValueError "No entries in JSON."))
      else
        match audio with
        | None => ([], Raise (FileNotFoundError "No audio file found"))
        | Some alen =>
            match mapM slide_of_entry (enumerate entries) with
            | Raise e => ([], Raise e)
            | OutOfFuel => ([], OutOfFuel)
            | Ret slides =>
                let slides := sort_slides slides in
                let ts := map (fun s => inject_Z (timestamp s)) slides in
                let durs := durations_from_timestamps ts alen in
                match render_frames fuel base_font_size slides [] [] with
                | (trace, Ret frames) => (trace, Ret (combine frames durs))
                | (trace, Raise e) => (trace, Raise e)
                | (trace, OutOfFuel) => (trace, OutOfFuel)
                end
            end
        end
  end.

End Render.

(** ** Paths and the audio file *)

(** [s.endswith("/")] *)
Fixpoint ends_with_slash (s : string) : bool :=
  match s with
  | EmptyString => false
  | String c EmptyString => Ascii.eqb c "/"
  | String _ s' => ends_with_slash s'
  end.

(** [os.path.join(a, b)] of a POSIX system. *)
Definition path_join (a b : string) : string :=
  if PyStr.startswith b "/" 0 then b
  else if negb (PyStr.nonempty a) || ends_with_slash a then String.append a b
       else String.append a (String "/" b).

Definition AUDIO_EXTS : list string := [".mp3"; ".m4a"; ".wav"; ".mp4"].

(** The lower-case form of an ASCII letter, for the matching of
    [re.I]. *)
Definition lower_char (c : ascii) : ascii :=
  let n := nat_of_ascii c in
  if (65 <=? n) && (n <=? 90) then ascii_of_nat (n + 32) else c.

Fixpoint lower (s : string) : string :=
  match s with
  | EmptyString => EmptyString
  | String c s' => String (lower_char c) (lower s')
  end.

(** [re.match(r'^https?://', s, re.I)] finds a match. *)
Definition is_url (s : string) : bool :=
  PyStr.is_prefix "http://" (lower s) || PyStr.is_prefix "https://" (lower s).

Section Files.

(** [os.path.isfile] *)
Variable isfile : string -> bool.

(** The streamed download to a temporary file: the name of that file,
    or the exception of a failed request. *)
Variable http_fetch : string -> outcome string.

(** [for ext in exts: p = base + ext; if os.path.isfile(p): return p],
    then [return None]. *)
Fixpoint first_file (base : string) (exts : list string) : option string :=
  match exts with
  | [] => None
  | ext :: exts' =>
      let p := String.append base ext in
      if isfile p then Some p else first_file base exts'
  end.

Definition find_local_audio (root pres_id : string) : option string :=
  let base := path_join (path_join root "audio") pres_id in
  first_file base AUDIO_EXTS.

Definition download_if_url (path_or_url : string) : outcome string :=
  if is_url path_or_url then http_fetch path_or_url else Ret path_or_url.

(** The audio file of [main]:
    [download_if_url(mp3) if mp3 else find_local_audio(root, id)],
    then [FileNotFoundError] when that is empty or [None]. *)
Definition resolve_audio (mp3 : option string) (root pres_id : string)
  : outcome string :=
  audio_file <-
    (match mp3 with
     | Some m =>
         if PyStr.nonempty m
         then (f <- download_if_url m ;; Ret (Some f))
         else Ret (find_local_audio root pres_id)
     | None => Ret (find_local_audio root pres_id)
     end) ;;
  match audio_file with
  | Some f =>
      if PyStr.nonempty f then Ret f
      else Raise (FileNotFoundError "No audio file found")
  | None => Raise (FileNotFoundError "No audio file found")
  end.

End Files.

(** ** The save-JSON route of the server *)

(** What the route does to the file system: the call
    [open(path, 'w', encoding='utf-8')], which creates or empties the
    file before the data are dumped into it. *)
Inductive save_action : Type :=
| OpenForWriting (path : string).

Record response : Type := {
  status_code : Z;
  status_text : string;
  message : option string
}.

(** [save_json()] for a request whose [fileName] is a string or absent
    and whose [data] is truthy or not; [write_error] gives the text of
    the exception when the file cannot be opened or written. *)
Definition save_json (write_error : string -> option string)
           (fileName : option string) (data_truthy : bool)
  : list save_action * response :=
  let name := match fileName with Some n => n | None => EmptyString end in
  if negb (PyStr.nonempty name) || negb data_truthy
  then ([], {| status_code := 400; status_text := "error";
               message := Some "Missing fileName or data" |})
  else
    if (match PyStr.find name ".." 0 with Some _ => true | None => false end)
       || PyStr.startswith name "/" 0
    then ([], {| status_code := 500; status_text := "error";
                 message := Some "Invalid fileName" |})
    else
      let filePath := path_join (path_join "html" "json") name in
      match write_error filePath with
      | None =>
          ([OpenForWriting filePath],
           {| status_code := 200; status_text := "success"; message := None |})
      | Some msg =>
          ([OpenForWriting filePath],
           {| status_code := 500; status_text := "error";
              message := Some msg |})
      end.

(** ** What the specification says of a finished layout *)

(** The sum, over the blocks, of the line height times the number of
    wrapped lines counted as at least one. *)
Definition blocks_height (lh : Z) (bs : list (list line)) : Z :=
  fold_right (fun b acc => (lh * at_least_one b + acc)%Z) 0%Z bs.

(** The heights of a layout are those of the specification: callout,
    gap of 10, blocks. *)
Definition heights_add_up (r : layout) : Prop :=
  (expl_h r = lh_expl r * at_least_one (expl_wrapped r) + 16
   /\ text_h r = blocks_height (lh_txt r) (blocks r)
   /\ total_h r = expl_h r + 10 + text_h r)%Z.

(** The content fits the box, or both sizes are down at the minimum. *)
Definition fits_or_floor (ih : Z) (r : layout) : Prop :=
  (total_h r <= ih \/ (expl_size r <= min_size /\ lines_size r <= min_size))%Z.

(** The layout holds the text it was given: the explanation, tokenized
    and wrapped with the fonts of the layout to the width of the box
    less the callout's inner padding of 20, and one block for each line
    used, tokenized and wrapped to the width of the box. *)
Definition lays_out (textlength : string -> font -> option Q) (tfuel : nat)
           (iw : Z) (explanation : string) (raw_lines : list string)
           (r : layout) : Prop :=
  (exists runs,
      tokenize_md tfuel explanation = Ret runs
      /\ wrap_rich textlength runs (f_expl r) (iw - 20) = Ret (expl_wrapped r))
  /\ Forall2 (fun raw block =>
                exists runs,
                  tokenize_md tfuel raw = Ret runs
                  /\ wrap_rich textlength runs (f_txt r) iw = Ret block)
             (firstn MAX_LINES raw_lines) (blocks r).

(** The fonts are those of the two sizes of the layout, and the line
    heights are [int(1.3 * size)] and [int(1.25 * size)] when the
    regular font has a size, 24 and 20 when it has none (the built-in
    font). *)
Definition fonts_and_line_heights (FONT_REG FONT_BOLD FONT_ITAL : option string)
           (load_default : font) (r : layout) : Prop :=
  f_expl r = fontset FONT_REG FONT_BOLD FONT_ITAL load_default (expl_size r)
  /\ f_txt r = fontset FONT_REG FONT_BOLD FONT_ITAL load_default (lines_size r)
  /\ lh_expl r = (if has_size (f_expl r normal)
                  then int_scale (expl_size r) (13 # 10) else 24%Z)
  /\ lh_txt r = (if has_size (f_txt r normal)
                 then int_scale (lines_size r) (125 # 100) else 20%Z).

(** Each size lies between the size the loop started with,
    [int(base_size)] or [int(0.9 * base_size)], and the minimum: a
    size that starts at 12 or more is never shrunk below 12, and one
    that starts below 12 never goes above 12. *)
Definition sizes_between_start_and_floor (base_size : Z) (r : layout) : Prop :=
  (Z.min (int_scale base_size 1) min_size <= expl_size r
     <= Z.max (int_scale base_size 1) min_size
   /\ Z.min (int_scale base_size (90 # 100)) min_size <= lines_size r
      <= Z.max (int_scale base_size (90 # 100)) min_size)%Z.

(** How far the two sizes are above the minimum: no more passes than
    this, plus one, are needed. *)
Definition shrink_distance (expl_size lines_size : Z) : nat :=
  Z.to_nat (Z.max 0 (expl_size - min_size) + Z.max 0 (lines_size - min_size)).

(** A text layer starts at its staggered delay and lasts what is left
    of the slide of duration [d], a tenth of a second at least. *)
Definition text_layer_timed (d : Q) (c : clip) : Prop :=
  exists idx,
    clip_kind c = TextLayer idx
    /\ clip_start c = text_delay idx
    /\ clip_duration c = py_max (1 # 10) (d - text_delay idx).

(** ** The tokens of a run sequence, in order, each with its run's style *)

Definition tagged_tokens (runs : list run) : list (string * style) :=
  flat_map (fun r : run =>
              map (fun tok => (tok, snd r)) (PyStr.findall_tokens (fst r)))
           runs.

(** What a state of the wrapper holds: the finished lines, then the
    line being filled. *)
Definition wrap_content (s : list line * line * Q) : list (string * style) :=
  List.concat (fst (fst s)) ++ snd (fst s).

(** ** The text that a run sequence stands for *)

(** A run with its markers put back. *)
Definition render_run (r : run) : string :=
  match snd r with
  | normal => fst r
  | bold => String.append "**" (String.append (fst r) "**")
  | italic => String.append "*" (String.append (fst r) "*")
  end.

Definition detokenize (runs : list run) : string :=
  fold_right (fun r acc => String.append (render_run r) acc) EmptyString runs.

(** No ["*"] in the text. *)
Definition star_free (s : string) : bool :=
  PyStr.all_chars (fun c => negb (Ascii.eqb c "*")) s.

(** ** The length of the timeline *)

Definition Qsum (l : list Q) : Q := fold_right Qplus 0%Q l.

(** ** The measured width of a line *)

Definition line_width (wd : string -> style -> Q) (l : line) : Q :=
  fold_right (fun ts acc => (wd (fst ts) (snd ts) + acc)%Q) 0%Q l.

(** ** A layout moved down *)

(** The layout [r] with its vertical offset replaced by [y]. *)
Definition with_start_y (r : layout) (y : Z) : layout :=
  {| f_expl := f_expl r; f_txt := f_txt r;
     lh_expl := lh_expl r; lh_txt := lh_txt r;
     expl_wrapped := expl_wrapped r; blocks := blocks r;
     expl_h := expl_h r;
     start_y := y;
     expl_size := expl_size r; lines_size := lines_size r;
     text_h := text_h r; total_h := total_h r |}.

(** ** What a drawing call shows *)


(** ** Inputs used in the examples *)

(** An environment with the three DejaVu fonts found, a built-in font
    without [size], and a measurement of half the font size per
    character. *)
Definition sample_regular : option string := Some "DejaVuSans.ttf".
Definition sample_bold : option string := Some "DejaVuSans-Bold.ttf".
Definition sample_oblique : option string := Some "DejaVuSans-Oblique.ttf".
Definition sample_default : font := {| font_file := None; font_size := None |}.

Definition sample_textlength (t : string) (f : font) : option Q :=
  match font_size f with
  | Some sz => Some (inject_Z (Z.of_nat (PyStr.len t)) * inject_Z sz * (1 # 2))%Q
  | None => None
  end.

(** A measurement that does not need the size of the font: six pixels
    for each character, as for a built-in bitmap font. *)
Definition sample_fixed_textlength (t : string) (f : font) : option Q :=
  Some (inject_Z (Z.of_nat (PyStr.len t)) * 6)%Q.

Definition sample_fontset (size : Z) : style -> font :=
  fontset sample_regular sample_bold sample_oblique sample_default size.

(** Two entries, the later one first. *)
Definition sample_entries : list entry :=
  [ {| e_timestamp := Some "0_05"; e_explanation := "Hello **world**";
       e_slide_content := "Title" |};
    {| e_timestamp := Some "0_04"; e_explanation := "x";
       e_slide_content := "Title" |} ].

(** The slide of the specification's end-to-end scenario. *)
Definition sample_slide : slide :=
  {| index := 0; timestamp := 0;
     explanation := "Hello **world**";
     slide_content :=
       String.append "Title"
         (String newline
            (String.append "Line one" (String newline "Line two"))) |}.

(** U+00B2, superscript two. *)
Definition superscript_two : ascii := ascii_of_nat 178.

(** The timestamp made of a superscript two, the separator and [30]. *)
Definition ts_superscript : string := String superscript_two "_30".

(** A character on which [isdigit] and [int] agree: not a digit, or a
    decimal digit. *)
Definition plain_char (c : ascii) : bool :=
  implb (PyStr.is_digit_char c) (PyStr.is_decimal_char c).

(** * Properties *)

(** ** Outcomes *)

Lemma bind_ret_inv {A B : Type} (m : outcome A) (k : A -> outcome B) (b : B) :
  bind m k = Ret b -> exists a, m = Ret a /\ k a = Ret b.
Proof.
  destruct m as [a | e | ]; simpl; intros Hb; try discriminate.
  exists a; split; [reflexivity | exact Hb].
Qed.

(** ** Strings *)

Module PyStrFacts.
Import PyStr.

Lemma drop_empty n : drop n EmptyString = EmptyString.
Proof. destruct n; reflexivity. Qed.

Lemma drop_add a b s : drop a (drop b s) = drop (b + a) s.
Proof.
  revert s; induction b as [| b IH]; intros s; simpl.
  - reflexivity.
  - destruct s as [| c s]; [apply drop_empty | apply IH].
Qed.

Lemma len_drop n s : len (drop n s) = len s - n.
Proof.
  revert s; induction n as [| n IH]; intros [| c s]; simpl; auto.
Qed.

Lemma get_drop s j :
  get s j = match drop j s with String c _ => Some c | EmptyString => None end.
Proof.
  unfold get; revert s; induction j as [| j IH]; intros [| c s]; simpl; auto.
Qed.

Lemma find_from_unfold pat s k :
  find_from pat s k =
  if is_prefix pat s then Some k
  else match s with
       | EmptyString => None
       | String _ s' => find_from pat s' (S k)
       end.
Proof. destruct s; reflexivity. Qed.

Lemma find_from_some pat s : forall k j,
  find_from pat s k = Some j ->
  k <= j /\ is_prefix pat (drop (j - k) s) = true
  /\ forall m, m < j - k -> is_prefix pat (drop m s) = false.
Proof.
  induction s as [| c s IH]; intros k j; rewrite find_from_unfold;
    destruct (is_prefix pat _) eqn:Hp; intros Hf; try discriminate.
  - injection Hf as <-. rewrite Nat.sub_diag. repeat split; auto; lia.
  - injection Hf as <-. rewrite Nat.sub_diag. repeat split; auto; lia.
  - apply IH in Hf as (Hle & Hj & Hm).
    replace (j - k) with (S (j - S k)) by lia.
    repeat split; [lia | exact Hj |].
    intros [| m] Hlt; [exact Hp | apply Hm; lia].
Qed.

Lemma find_from_first pat : forall d s k,
  is_prefix pat (drop d s) = true ->
  (forall m, m < d -> is_prefix pat (drop m s) = false) ->
  find_from pat s k = Some (k + d).
Proof.
  induction d as [| d IH]; intros s k Hd Hm; rewrite find_from_unfold.
  - simpl in Hd. rewrite Hd. f_equal; lia.
  - assert (H0 : is_prefix pat s = false) by (apply (Hm 0); lia).
    rewrite H0. destruct s as [| c s].
    + rewrite drop_empty in Hd. congruence.
    + simpl in Hd. rewrite (IH s (S k) Hd).
      * f_equal; lia.
      * intros m Hlt. apply (Hm (S m)). lia.
Qed.

Lemma find_from_none pat s : forall k,
  find_from pat s k = None -> forall m, is_prefix pat (drop m s) = false.
Proof.
  induction s as [| c s IH]; intros k; rewrite find_from_unfold;
    destruct (is_prefix pat _) eqn:Hp; intros Hf; try discriminate.
  - intros m. rewrite drop_empty. exact Hp.
  - intros [| m]; [exact Hp | simpl; apply (IH _ Hf)].
Qed.

Lemma startswith_true s pat i :
  startswith s pat i = true <-> i <= len s /\ is_prefix pat (drop i s) = true.
Proof.
  unfold startswith. rewrite andb_true_iff, Nat.leb_le. tauto.
Qed.

(** [str.find] returns the first occurrence, and only that. *)
Lemma find_some_iff s pat start j :
  find s pat start = Some j <-> first_at s pat start j.
Proof.
  unfold find, first_at. split.
  - destruct (start <=? len s) eqn:Hs; [| discriminate].
    apply Nat.leb_le in Hs. intros Hf.
    apply find_from_some in Hf as (Hle & Hj & Hm).
    rewrite drop_add in Hj. replace (start + (j - start)) with j in Hj by lia.
    assert (Hjl : j <= len s).
    { destruct (le_gt_dec j (len s)) as [H | H]; [exact H |].
      exfalso. specialize (Hm (len s - start)).
      rewrite drop_add in Hm.
      replace (start + (len s - start)) with (len s) in Hm by lia.
      assert (Hd : drop j s = drop (len s) s).
      { assert (He : forall n t, len t <= n -> drop n t = EmptyString).
        { induction n as [| n IHn]; intros [| c t]; simpl; auto; try lia.
          intros; apply IHn; lia. }
        rewrite !He; auto; lia. }
      rewrite Hd in Hj. rewrite Hm in Hj; [discriminate | lia]. }
    repeat split; [exact Hle | apply startswith_true; auto |].
    intros m [Hm1 Hm2]. unfold startswith.
    specialize (Hm (m - start)). rewrite drop_add in Hm.
    replace (start + (m - start)) with m in Hm by lia.
    rewrite Hm; [apply andb_false_r | lia].
  - intros (Hle & Hj & Hm).
    apply startswith_true in Hj as [Hjl Hj].
    replace (start <=? len s) with true by (symmetry; apply Nat.leb_le; lia).
    replace j with (start + (j - start)) at 1 by lia.
    apply find_from_first.
    + rewrite drop_add. replace (start + (j - start)) with j by lia. exact Hj.
    + intros m Hlt. rewrite drop_add.
      specialize (Hm (start + m)). unfold startswith in Hm.
      replace (start + m <=? len s) with true in Hm
        by (symmetry; apply Nat.leb_le; lia).
      apply Hm. lia.
Qed.

Lemma find_none_iff s pat start :
  find s pat start = None <-> absent_from s pat start.
Proof.
  unfold find, absent_from, startswith. split.
  - destruct (start <=? len s) eqn:Hs.
    + intros Hf m Hm. apply find_from_none with (m := m - start) in Hf.
      rewrite drop_add in Hf. replace (start + (m - start)) with m in Hf by lia.
      rewrite Hf. apply andb_false_r.
    + apply Nat.leb_gt in Hs. intros _ m Hm.
      replace (m <=? len s) with false; [reflexivity |].
      symmetry; apply Nat.leb_gt; lia.
  - intros Hm. destruct (start <=? len s) eqn:Hs; [| reflexivity].
    destruct (find_from pat (drop start s) start) as [j |] eqn:Hf; [| reflexivity].
    exfalso.
    assert (Hfa : first_at s pat start j).
    { apply find_some_iff. unfold find. rewrite Hs. exact Hf. }
    destruct Hfa as (Hle & Hj & _).
    unfold startswith in Hj. rewrite (Hm j Hle) in Hj. discriminate.
Qed.

(** A one-star marker at [i] is the character ["*"] at [i]. *)
Lemma startswith_star s i :
  startswith s "*" i = true <-> get s i = Some "*"%char.
Proof.
  rewrite startswith_true, get_drop. split.
  - destruct (drop i s) as [| c r]; intros [_ Hp]; cbn [is_prefix] in Hp;
      [discriminate |].
    rewrite andb_true_r in Hp. apply Ascii.eqb_eq in Hp as <-. reflexivity.
  - destruct (drop i s) as [| c r] eqn:Hd; simpl; intros Hg; [discriminate |].
    injection Hg as ->. split.
    + destruct (le_gt_dec i (len s)) as [H | H]; [exact H |].
      exfalso. assert (Hl : len (drop i s) = 0) by (rewrite len_drop; lia).
      rewrite Hd in Hl. discriminate.
    + reflexivity.
Qed.

Lemma startswith_2star_star s i :
  startswith s "**" i = true -> get s i = Some "*"%char.
Proof.
  rewrite startswith_true, get_drop.
  destruct (drop i s) as [| c r]; intros [_ Hp]; cbn [is_prefix] in Hp;
    [discriminate |].
  apply andb_true_iff in Hp as [Hp _]. apply Ascii.eqb_eq in Hp as <-. reflexivity.
Qed.

Lemma get_some_lt s i c : get s i = Some c -> i < len s.
Proof.
  unfold get, len. revert i; induction s as [| d s IH]; intros [| i]; simpl;
    try discriminate; intros Hg; [lia |]. apply IH in Hg. lia.
Qed.

End PyStrFacts.

(** ** Tokenizer *)

Section TokenizerFacts.
Import PyStr PyStrFacts.

Lemma tokenize_loop_unfold fuel text i runs :
  tokenize_loop fuel text i runs =
  if i <? len text then
    match fuel with
    | 0 => OutOfFuel
    | S fuel' =>
        let '(i', runs') := tokenize_step text i runs in
        tokenize_loop fuel' text i' runs'
    end
  else Ret runs.
Proof. destruct fuel; reflexivity. Qed.

(** Where a pass of the loop goes next does not depend on the runs
    collected so far, and a pass appends exactly one run. *)
Lemma tokenize_step_shape text i runs :
  exists r, tokenize_step text i runs
            = (fst (tokenize_step text i []), runs ++ [r]).
Proof.
  unfold tokenize_step.
  destruct (if startswith text "**" i then find text "**" (i + 2) else None);
    [eexists; reflexivity |].
  destruct (if startswith text "*" i then find text "*" (i + 1) else None);
    eexists; reflexivity.
Qed.

(** More fuel does not change an answer. *)
Lemma tokenize_loop_mono text : forall fuel i runs r,
  tokenize_loop fuel text i runs = Ret r ->
  forall fuel', fuel <= fuel' -> tokenize_loop fuel' text i runs = Ret r.
Proof.
  induction fuel as [| fuel IH]; intros i runs r Hr fuel' Hle;
    rewrite tokenize_loop_unfold in Hr |- *;
    destruct (i <? len text); try discriminate; try exact Hr.
  destruct fuel' as [| fuel']; [lia |].
  destruct (tokenize_step text i runs) as [i' runs'].
  apply (IH _ _ _ Hr). lia.
Qed.

Lemma tokenize_loop_never_raises text : forall fuel i runs e,
  tokenize_loop fuel text i runs <> Raise e.
Proof.
  induction fuel as [| fuel IH]; intros i runs e;
    rewrite tokenize_loop_unfold; destruct (i <? len text); try discriminate.
  destruct (tokenize_step text i runs) as [i' runs']. apply IH.
Qed.

(** A pass that leaves [i] where it was is repeated for ever. *)
Lemma tokenize_stuck text i :
  i < len text ->
  fst (tokenize_step text i []) = i ->
  forall fuel runs, tokenize_loop fuel text i runs = OutOfFuel.
Proof.
  intros Hlt Hfix. induction fuel as [| fuel IH]; intros runs;
    rewrite tokenize_loop_unfold;
    replace (i <? len text) with true by (symmetry; apply Nat.ltb_lt; exact Hlt).
  - reflexivity.
  - destruct (tokenize_step_shape text i runs) as [r ->]. rewrite Hfix. apply IH.
Qed.

Lemma scan_normal_at_star fuel text j :
  get text j = Some "*"%char -> scan_normal fuel text j = j.
Proof.
  intros Hg. destruct fuel as [| fuel]; [reflexivity |].
  cbn [scan_normal]. rewrite Hg, Ascii.eqb_refl. cbn [negb].
  rewrite andb_false_r. reflexivity.
Qed.

(** The unterminated marker: a ["*"] with no ["*"] after it stops the
    scan for good. *)
Lemma tokenize_step_lone_star text i :
  get text i = Some "*"%char ->
  absent_from text "*" (i + 1) ->
  fst (tokenize_step text i []) = i.
Proof.
  intros Hg Habs. unfold tokenize_step.
  assert (H2 : (if startswith text "**" i then find text "**" (i + 2) else None)
               = None).
  { destruct (startswith text "**" i); [| reflexivity].
    apply find_none_iff. intros m Hm.
    destruct (startswith text "**" m) eqn:Hs; [| reflexivity].
    apply startswith_2star_star, startswith_star in Hs.
    rewrite Habs in Hs; [discriminate | lia]. }
  rewrite H2.
  assert (H1 : (if startswith text "*" i then find text "*" (i + 1) else None)
               = None).
  { destruct (startswith text "*" i); [| reflexivity].
    apply find_none_iff. exact Habs. }
  rewrite H1. cbn [fst]. apply scan_normal_at_star. exact Hg.
Qed.

Lemma tokenize_loop_lone_star text i :
  get text i = Some "*"%char ->
  absent_from text "*" (i + 1) ->
  forall fuel runs, tokenize_loop fuel text i runs = OutOfFuel.
Proof.
  intros Hg Habs. apply tokenize_stuck.
  - apply (get_some_lt _ _ _ Hg).
  - apply tokenize_step_lone_star; assumption.
Qed.

(** On ["a *b"] the scan reaches the lone ["*"] at index 2 after one
    pass and stays there. *)
Lemma tokenize_md_lone_star_text :
  forall fuel, tokenize_md fuel "a *b" = OutOfFuel.
Proof.
  intros [| fuel]; [reflexivity |].
  unfold tokenize_md. rewrite tokenize_loop_unfold.
  change (tokenize_loop fuel "a *b" 2 [("a ", normal)] = OutOfFuel).
  apply tokenize_loop_lone_star; [reflexivity |].
  intros m Hm. do 5 (destruct m as [| m]; [try lia; reflexivity |]).
  reflexivity.
Qed.

(** The inner scan stops at the first ["*"] at or after [j], or at
    the end of the text. *)
Lemma scan_normal_spec text : forall fuel j,
  j <= len text -> len text - j <= fuel ->
  let r := scan_normal fuel text j in
  j <= r <= len text
  /\ (forall m, j <= m < r -> get text m <> Some "*"%char)
  /\ (r = len text \/ get text r = Some "*"%char).
Proof.
  induction fuel as [| fuel IH]; intros j Hj Hf; cbn [scan_normal].
  - repeat split; try lia.
  - destruct (j <? len text) eqn:Hlt; cbn [andb].
    2:{ apply Nat.ltb_ge in Hlt. repeat split; try lia. }
    apply Nat.ltb_lt in Hlt.
    destruct (startswith text "**" j) eqn:H2; cbn [negb andb].
    { apply startswith_2star_star in H2. repeat split; try lia. right; exact H2. }
    destruct (get text j) as [c |] eqn:Hg.
    + destruct (Ascii.eqb c "*") eqn:Hc; cbn [negb].
      * apply Ascii.eqb_eq in Hc. subst c. repeat split; try lia. right; exact Hg.
      * destruct (IH (S j)) as (Hr & Hm & He); try lia.
        repeat split; try lia; [| exact He].
        intros m Hmr. destruct (Nat.eq_dec m j) as [-> | Hne].
        -- rewrite Hg. intros Heq. injection Heq as ->.
           rewrite Ascii.eqb_refl in Hc. discriminate.
        -- apply Hm. lia.
    + cbn [negb]. destruct (IH (S j)) as (Hr & Hm & He); try lia.
      repeat split; try lia; [| exact He].
      intros m Hmr. destruct (Nat.eq_dec m j) as [-> | Hne].
      -- rewrite Hg. discriminate.
      -- apply Hm. lia.
Qed.

(** At a character that is not ["*"] the scan advances. *)
Lemma scan_normal_advances text fuel j :
  j < len text -> get text j <> Some "*"%char -> 0 < fuel ->
  j < scan_normal fuel text j.
Proof.
  intros Hlt Hg Hf. destruct fuel as [| fuel]; [lia |]. cbn [scan_normal].
  replace (j <? len text) with true by (symmetry; apply Nat.ltb_lt; exact Hlt).
  assert (H2 : startswith text "**" j = false).
  { destruct (startswith text "**" j) eqn:H2; [| reflexivity].
    apply startswith_2star_star in H2. contradiction. }
  rewrite H2. cbn [negb andb].
  assert (Hc : (match get text j with
                | Some c => Ascii.eqb c "*" | None => false end) = false).
  { destruct (get text j) as [c |]; [| reflexivity].
    destruct (Ascii.eqb c "*") eqn:Hc; [| reflexivity].
    apply Ascii.eqb_eq in Hc. subst c. contradiction. }
  rewrite Hc. cbn [negb].
  assert (Hmono : forall f k, k <= scan_normal f text k).
  { induction f as [| f IHf]; intros k; cbn [scan_normal]; [lia |].
    destruct (_ && _); [specialize (IHf (S k)); lia | lia]. }
  specialize (Hmono fuel (S j)). lia.
Qed.

End TokenizerFacts.

Section TokenizerClaims.
Import PyStr PyStrFacts.

(** C1. The tokenizer does not answer on ["a *b"], whatever the fuel:
    after the run ["a "] the scan reaches the lone ["*"] at index 2,
    finds no closing ["*"], appends an empty normal run and stays at
    index 2.  The specification asks for the single normal run
    ["a *b"] and for a scan that does not loop for ever. *)
Theorem tokenize_md_unterminated_marker_never_returns :
  forall fuel,
    tokenize_md fuel "a *b" = OutOfFuel
    /\ tokenize_md fuel "a *b" <> Ret [("a *b", normal)].
Proof.
  intros fuel. rewrite tokenize_md_lone_star_text. split; [reflexivity | discriminate].
Qed.

(** C6. ["a **b** c"] gives the runs [("a ", normal)], [("b", bold)],
    [(" c", normal)].  In general, one pass of the scan at index [i]:
    at ["**"] closed by a first ["**"] at [j], a bold run of the text
    strictly between the markers, the scan going on after the closing
    marker; at ["*"] closed by a first ["*"] at [j] (the ["**"] case
    not applying), an italic run likewise; at any other character, a
    normal run up to the next ["*"] or the end of the text.  Markers
    inside a span are kept as they are: there is no nesting. *)
Theorem tokenize_md_spans :
  (forall fuel, 3 <= fuel ->
     tokenize_md fuel "a **b** c"
     = Ret [("a ", normal); ("b", bold); (" c", normal)])
  /\ (forall text i j runs,
        startswith text "**" i = true ->
        first_at text "**" (i + 2) j ->
        tokenize_step text i runs
        = (j + 2, runs ++ [(slice text (i + 2) j, bold)]))
  /\ (forall text i j runs,
        startswith text "*" i = true ->
        startswith text "**" i = false \/ absent_from text "**" (i + 2) ->
        first_at text "*" (i + 1) j ->
        tokenize_step text i runs
        = (j + 1, runs ++ [(slice text (i + 1) j, italic)]))
  /\ (forall text i runs,
        i < len text ->
        get text i <> Some "*"%char ->
        exists j,
          i < j <= len text
          /\ tokenize_step text i runs = (j, runs ++ [(slice text i j, normal)])
          /\ (forall m, i <= m < j -> get text m <> Some "*"%char)
          /\ (j = len text \/ get text j = Some "*"%char))
  /\ (forall fuel, 1 <= fuel ->
        tokenize_md fuel "**a *b* c**" = Ret [("a *b* c", bold)]).
Proof.
  split; [| split; [| split; [| split]]].
  - intros fuel Hf. apply (@tokenize_loop_mono _ 3); [reflexivity | exact Hf].
  - intros text i j runs Hs Hj. unfold tokenize_step.
    rewrite Hs. apply find_some_iff in Hj. rewrite Hj. reflexivity.
  - intros text i j runs Hs H2 Hj. unfold tokenize_step.
    assert (Hn : (if startswith text "**" i then find text "**" (i + 2) else None)
                 = None).
    { destruct H2 as [-> | H2]; [reflexivity |].
      apply find_none_iff in H2. rewrite H2.
      destruct (startswith text "**" i); reflexivity. }
    rewrite Hn, Hs. apply find_some_iff in Hj. rewrite Hj. reflexivity.
  - intros text i runs Hlt Hg. unfold tokenize_step.
    assert (H2 : startswith text "**" i = false).
    { destruct (startswith text "**" i) eqn:H2; [| reflexivity].
      apply startswith_2star_star in H2. contradiction. }
    assert (H1 : startswith text "*" i = false).
    { destruct (startswith text "*" i) eqn:H1; [| reflexivity].
      apply startswith_star in H1. contradiction. }
    rewrite H2, H1.
    destruct (@scan_normal_spec text (len text) i) as (Hr & Hm & He); try lia.
    exists (scan_normal (len text) text i). repeat split; try lia.
    + apply scan_normal_advances; [exact Hlt | exact Hg | lia].
    + exact Hm.
    + exact He.
  - intros fuel Hf. apply (@tokenize_loop_mono _ 1); [reflexivity | exact Hf].
Qed.

Lemma tokenize_md_spans_witness :
  tokenize_md 3 "a **b** c" = Ret [("a ", normal); ("b", bold); (" c", normal)]
  /\ tokenize_step "a **b** c" 2 [("a ", normal)]
     = (7, [("a ", normal); ("b", bold)])
  /\ tokenize_step "x *y* z" 2 [("x ", normal)]
     = (5, [("x ", normal); ("y", italic)])
  /\ (exists j, 7 < j <= 9
                /\ tokenize_step "a **b** c" 7 [] = (j, [(slice "a **b** c" 7 j, normal)]))
  /\ tokenize_md 1 "**a *b* c**" = Ret [("a *b* c", bold)].
Proof.
  destruct tokenize_md_spans as (H1 & H2 & H3 & H4 & H5).
  split; [apply (H1 3); lia |].
  split.
  { apply (H2 "a **b** c" 2 5 [("a ", normal)]); [reflexivity |].
    split; [lia | split; [reflexivity |]].
    intros m Hm. assert (Hm4 : m = 4) by lia. subst m. reflexivity. }
  split.
  { apply (H3 "x *y* z" 2 4 [("x ", normal)]); [reflexivity | left; reflexivity |].
    split; [lia | split; [reflexivity |]].
    intros m Hm. assert (Hm3 : m = 3) by lia. subst m. reflexivity. }
  split.
  { destruct (H4 "a **b** c" 7 []) as (j & Hj & Hstep & _).
    - cbn. lia.
    - cbn. discriminate.
    - exists j. split; [exact Hj | exact Hstep]. }
  apply (H5 1); lia.
Defined.

End TokenizerClaims.

(** ** Timestamp parser *)

Section ParseTsFacts.
Import PyStr.

Lemma all_chars_replace p a b s :
  p b = true -> all_chars p s = true -> all_chars p (replace a b s) = true.
Proof.
  intros Hb. induction s as [| c s IH]; cbn [all_chars replace]; [reflexivity |].
  rewrite !andb_true_iff. intros [Hc Hs]. split; [| apply IH; exact Hs].
  destruct (Ascii.eqb c a); assumption.
Qed.

Lemma all_chars_split p sep s :
  all_chars p s = true ->
  Forall (fun w => all_chars p w = true) (split sep s).
Proof.
  induction s as [| c s IH]; cbn [all_chars split].
  - intros _. constructor; [reflexivity | constructor].
  - rewrite andb_true_iff. intros [Hc Hs]. specialize (IH Hs).
    destruct (Ascii.eqb c sep).
    + constructor; [reflexivity | exact IH].
    + destruct (split sep s) as [| w ws].
      * constructor; [cbn [all_chars]; rewrite Hc; reflexivity | constructor].
      * inversion IH as [| ? ? Hw Hws]; subst.
        constructor; [cbn [all_chars]; rewrite Hc, Hw; reflexivity | exact Hws].
Qed.

Lemma first_two_forall (P : string -> Prop) xs :
  P "0" -> Forall P xs -> P (fst (first_two xs)) /\ P (snd (first_two xs)).
Proof.
  intros H0 Hxs. unfold first_two.
  destruct Hxs as [| x xs Hx Hxs]; cbn; [split; exact H0 |].
  destruct Hxs as [| y ys Hy Hys]; cbn; split; assumption.
Qed.

Lemma decimal_value_nonneg s : forall acc, (0 <= acc)%Z -> (0 <= decimal_value acc s)%Z.
Proof.
  induction s as [| c s IH]; intros acc Hacc; cbn [decimal_value]; [exact Hacc |].
  apply IH. lia.
Qed.

Lemma leading_decimals_le s : leading_decimals s <= len s.
Proof.
  unfold len. induction s as [| c s IH]; cbn [leading_decimals String.length];
    [lia |]. destruct (is_decimal_char c); lia.
Qed.

(** A string within the interpreter's limit is not refused for its
    length. *)
Lemma int_within_limit s :
  len s <= int_max_str_digits ->
  int s = if nonempty s && all_chars is_decimal_char s
          then Ret (decimal_value 0 s)
          else Raise (ValueError "invalid literal for int() with base 10").
Proof.
  intros Hl. unfold int.
  replace (int_max_str_digits <? leading_decimals s) with false; [reflexivity |].
  symmetry. apply Nat.ltb_ge. pose proof (leading_decimals_le s). lia.
Qed.

Lemma len_replace a b s : len (replace a b s) = len s.
Proof.
  unfold len. induction s as [| c s IH]; cbn [replace String.length];
    [reflexivity |]. rewrite IH. reflexivity.
Qed.

Lemma len_split sep s : Forall (fun w => len w <= len s) (split sep s).
Proof.
  unfold len. induction s as [| c s IH]; cbn [split String.length].
  - constructor; [cbn; lia | constructor].
  - destruct (Ascii.eqb c sep).
    + constructor; [cbn; lia |].
      eapply Forall_impl; [| exact IH]. cbn beta. intros w Hw. lia.
    + destruct (split sep s) as [| w ws].
      * constructor; [cbn; lia | constructor].
      * inversion IH as [| ? ? Hw Hws]; subst.
        constructor; [cbn [String.length]; lia |].
        eapply Forall_impl; [| exact Hws]. cbn beta. intros w' Hw'. lia.
Qed.

(** A component made of plain characters and within the
    interpreter's limit is read without failure: its decimal value
    when [isdigit] holds, [0] otherwise. *)
Lemma component_value m :
  all_chars plain_char m = true ->
  len m <= int_max_str_digits ->
  (if isdigit m then int m else Ret 0%Z)
  = Ret (if isdigit m then decimal_value 0 m else 0%Z).
Proof.
  intros Hp Hl. rewrite (int_within_limit m Hl). unfold isdigit.
  destruct (nonempty m); cbn [andb]; [| reflexivity].
  destruct (all_chars is_digit_char m) eqn:Hd; [| reflexivity].
  assert (Hdec : all_chars is_decimal_char m = true).
  { clear -Hp Hd. induction m as [| c m IH]; [reflexivity |].
    cbn [all_chars] in *. apply andb_true_iff in Hp as [Hc Hp].
    apply andb_true_iff in Hd as [Hdc Hd].
    unfold plain_char in Hc. rewrite Hdc in Hc. cbn [implb] in Hc.
    rewrite Hc, (IH Hp Hd). reflexivity. }
  rewrite Hdec. reflexivity.
Qed.

(** On a string whose digits are all decimal digits, and which is no
    longer than the interpreter's limit on the digits of a number,
    [parse_ts] returns [minutes * 60 + seconds], each component read
    as its decimal value when it is numeric and as [0] otherwise. *)
Lemma parse_ts_plain ts :
  all_chars plain_char ts = true ->
  len ts <= int_max_str_digits ->
  let '(m, s) := first_two (split "_" (replace ":" "_" ts)) in
  parse_ts ts
  = Ret ((if isdigit m then decimal_value 0 m else 0) * 60
         + (if isdigit s then decimal_value 0 s else 0))%Z.
Proof.
  intros Hp Hl. unfold parse_ts.
  pose proof (first_two_forall (fun w => all_chars plain_char w = true)
                (split "_" (replace ":" "_" ts)) eq_refl
                (all_chars_split plain_char "_" _
                   (all_chars_replace plain_char ":" "_" ts eq_refl Hp)))
    as [Hm Hs].
  assert (Hlen : Forall (fun w => len w <= int_max_str_digits)
                        (split "_" (replace ":" "_" ts))).
  { eapply Forall_impl; [| apply len_split]. cbn beta. intros w Hw.
    rewrite len_replace in Hw. lia. }
  pose proof (first_two_forall (fun w => len w <= int_max_str_digits)
                (split "_" (replace ":" "_" ts)) ltac:(vm_compute; lia) Hlen)
    as [Hlm Hls].
  destruct (first_two (split "_" (replace ":" "_" ts))) as [m s].
  cbn [fst snd] in Hm, Hs, Hlm, Hls.
  rewrite (component_value m Hm Hlm), (component_value s Hs Hls). reflexivity.
Qed.

Lemma parse_ts_examples :
  parse_ts "1_30" = Ret 90%Z
  /\ parse_ts "1:30" = Ret 90%Z
  /\ parse_ts "90" = Ret 5400%Z
  /\ parse_ts "_45" = Ret 45%Z
  /\ parse_ts "soon" = Ret 0%Z
  /\ parse_ts "" = Ret 0%Z.
Proof. repeat split; reflexivity. Qed.

(** C5. [parse_ts] raises on a timestamp whose minutes are the
    superscript two: [isdigit] accepts the character and [int] then
    rejects it.  The specification says that [parse_ts] never fails
    and that a component that is not a number counts as [0]. *)
Theorem parse_ts_raises_on_superscript_digit :
  isdigit (String superscript_two "") = true
  /\ parse_ts ts_superscript
     = Raise (ValueError "invalid literal for int() with base 10").
Proof. split; reflexivity. Qed.

End ParseTsFacts.

(** ** Duration deriver *)

Section DurationFacts.

(** [max(a, b)] as the source computes it is the maximum. *)
Lemma py_max_Qmax a b : py_max a b = Qmax a b.
Proof.
  unfold py_max, Qmax, GenericMinMax.gmax.
  destruct (Qle_bool b a) eqn:Hle.
  - apply Qle_bool_iff in Hle.
    destruct (Qcompare_spec a b) as [Heq | Hlt | Hgt]; try reflexivity.
    exfalso. apply (Qlt_not_le _ _ Hlt). exact Hle.
  - destruct (Qcompare_spec a b) as [Heq | Hlt | Hgt]; try reflexivity; exfalso.
    + assert (Hba : Qle_bool b a = true)
        by (apply Qle_bool_iff; rewrite Heq; apply Qle_refl).
      congruence.
    + assert (Hba : Qle_bool b a = true)
        by (apply Qle_bool_iff, Qlt_le_weak; exact Hgt).
      congruence.
Qed.

Lemma py_max_lower a b : (a <= py_max a b)%Q.
Proof.
  unfold py_max. destruct (Qle_bool b a) eqn:Hle; [apply Qle_refl |].
  apply Qlt_le_weak, Qnot_le_lt. intros Hba.
  apply Qle_bool_iff in Hba. congruence.
Qed.

Lemma py_max_pos a b : (0 < a)%Q -> (0 < py_max a b)%Q.
Proof. intros Ha. apply (Qlt_le_trans _ a); [exact Ha | apply py_max_lower]. Qed.

(** A loop that appends one element per item is a [map]. *)
Lemma fold_left_append {A B : Type} (g : list B -> A -> list B) (f : A -> B)
      (l : list A) :
  (forall out x, g out x = out ++ [f x]) ->
  forall acc, fold_left g l acc = acc ++ map f l.
Proof.
  intros Hg. induction l as [| x l IH]; intros acc; cbn [fold_left map].
  - symmetry; apply app_nil_r.
  - rewrite IH, Hg, <- app_assoc. reflexivity.
Qed.

Lemma length_enumerate {A : Type} (xs : list A) :
  List.length (enumerate xs) = List.length xs.
Proof.
  unfold enumerate. rewrite length_combine, length_seq. apply Nat.min_id.
Qed.

Lemma nth_enumerate {A : Type} (xs : list A) (i : nat) (d : A) :
  i < List.length xs -> nth i (enumerate xs) (0, d) = (i, nth i xs d).
Proof.
  intros Hi. unfold enumerate.
  rewrite combine_nth by apply length_seq.
  rewrite seq_nth by exact Hi. reflexivity.
Qed.

(** The duration of the slide at index [i], as the body of the loop
    computes it. *)
Lemma durations_from_timestamps_map ts audio_len :
  durations_from_timestamps ts audio_len
  = map (fun it : nat * Q =>
           py_max MIN_SLIDE_SEC
             (if fst it <? List.length ts - 1
              then nth (fst it + 1) ts 0 - snd it
              else audio_len - snd it)%Q)
        (enumerate ts).
Proof.
  unfold durations_from_timestamps.
  rewrite (fold_left_append _
             (fun it : nat * Q =>
                py_max MIN_SLIDE_SEC
                  (if fst it <? List.length ts - 1
                   then nth (fst it + 1) ts 0 - snd it
                   else audio_len - snd it)%Q)).
  - reflexivity.
  - intros out [i t]. reflexivity.
Qed.

Lemma durations_from_timestamps_nth ts audio_len i :
  i < List.length ts ->
  nth i (durations_from_timestamps ts audio_len) 0%Q
  = py_max MIN_SLIDE_SEC
      (if i <? List.length ts - 1
       then nth (i + 1) ts 0 - nth i ts 0
       else audio_len - nth i ts 0)%Q.
Proof.
  intros Hi. rewrite durations_from_timestamps_map.
  set (f := fun it : nat * Q => _).
  rewrite (nth_indep _ 0%Q (f (0, 0%Q)))
    by (rewrite length_map, length_enumerate; exact Hi).
  rewrite map_nth, nth_enumerate by exact Hi. reflexivity.
Qed.

(** No duration is below [MIN_SLIDE_SEC], hence none is zero or
    negative. *)
Lemma durations_from_timestamps_floor ts audio_len d :
  In d (durations_from_timestamps ts audio_len) -> (MIN_SLIDE_SEC <= d)%Q.
Proof.
  rewrite durations_from_timestamps_map. intros Hd.
  apply in_map_iff in Hd as (it & <- & _). apply py_max_lower.
Qed.

(** C3. The result has one duration per timestamp; before the last
    index it is [max(MIN_SLIDE_SEC, ts[i+1] - ts[i])], at the last
    index [max(MIN_SLIDE_SEC, audio_len - ts[last])]; no duration is
    below [MIN_SLIDE_SEC]; and the two examples of the specification
    come out as stated.  Nothing of this needs the timestamps to be
    ascending. *)
Theorem durations_from_timestamps_spec :
  forall (ts : list Q) (audio_len : Q),
    let out := durations_from_timestamps ts audio_len in
    List.length out = List.length ts
    /\ (forall i, S i < List.length ts ->
          nth i out 0%Q = Qmax MIN_SLIDE_SEC (nth (S i) ts 0 - nth i ts 0)%Q)
    /\ (forall i, S i = List.length ts ->
          nth i out 0%Q = Qmax MIN_SLIDE_SEC (audio_len - nth i ts 0)%Q)
    /\ (forall d, In d out -> (MIN_SLIDE_SEC <= d)%Q)
    /\ durations_from_timestamps [0; 5; 12]%Q 20 = [5; 7; 8]%Q
    /\ durations_from_timestamps [0; 5]%Q 4 = [5; MIN_SLIDE_SEC]%Q.
Proof.
  intros ts audio_len out. subst out.
  split; [| split; [| split; [| split; [| split]]]].
  - rewrite durations_from_timestamps_map, length_map. apply length_enumerate.
  - intros i Hi. rewrite durations_from_timestamps_nth by lia.
    replace (i <? List.length ts - 1) with true
      by (symmetry; apply Nat.ltb_lt; lia).
    rewrite Nat.add_1_r. apply py_max_Qmax.
  - intros i Hi. rewrite durations_from_timestamps_nth by lia.
    replace (i <? List.length ts - 1) with false
      by (symmetry; apply Nat.ltb_ge; lia).
    apply py_max_Qmax.
  - intros d Hd. apply (durations_from_timestamps_floor _ _ _ Hd).
  - reflexivity.
  - reflexivity.
Qed.

Lemma durations_from_timestamps_spec_witness :
  nth 1 (durations_from_timestamps [0; 5; 12]%Q 20) 0%Q
  = Qmax MIN_SLIDE_SEC (nth 2 [0; 5; 12]%Q 0 - nth 1 [0; 5; 12]%Q 0)%Q
  /\ nth 1 (durations_from_timestamps [0; 5]%Q 4) 0%Q
     = Qmax MIN_SLIDE_SEC (4 - nth 1 [0; 5]%Q 0)%Q
  /\ (MIN_SLIDE_SEC <= 8)%Q.
Proof.
  split; [| split].
  - apply (proj1 (proj2 (durations_from_timestamps_spec [0; 5; 12]%Q 20)) 1).
    cbn; lia.
  - apply (proj1 (proj2 (proj2 (durations_from_timestamps_spec [0; 5]%Q 4))) 1).
    reflexivity.
  - apply (proj1 (proj2 (proj2 (proj2
             (durations_from_timestamps_spec [0; 5; 12]%Q 20)))) 8%Q).
    cbn. right; right; left; reflexivity.
Defined.

End DurationFacts.

(** ** Word wrapper *)

Section WrapFacts.
Import PyStr.

Variable textlength : string -> font -> option Q.

Lemma findall_tokens_nil_iff s : findall_tokens s = [] <-> s = EmptyString.
Proof.
  split; [| intros ->; reflexivity].
  destruct s as [| c s]; [reflexivity |]. cbn [findall_tokens].
  destruct (findall_tokens s) as [| [| d tok] rest]; try discriminate.
  destruct (Bool.eqb _ _); discriminate.
Qed.

(** The tokens are not empty and, put end to end, give the text back. *)
Lemma findall_tokens_join s :
  fold_right String.append EmptyString (findall_tokens s) = s
  /\ Forall (fun tok => tok <> EmptyString) (findall_tokens s).
Proof.
  induction s as [| c s [IHj IHn]]; [split; [reflexivity | constructor] |].
  cbn [findall_tokens].
  destruct (findall_tokens s) as [| [| d tok] rest] eqn:Ht.
  - cbn in IHj. subst s. split; [reflexivity | repeat constructor; discriminate].
  - inversion IHn as [| ? ? Hne _]; subst. contradiction.
  - destruct (Bool.eqb _ _).
    + split.
      * cbn [fold_right String.append] in IHj |- *. rewrite IHj. reflexivity.
      * inversion IHn; subst. constructor; [discriminate | assumption].
    + split.
      * cbn [fold_right String.append] in IHj |- *. rewrite IHj. reflexivity.
      * constructor; [discriminate | exact IHn].
Qed.

Lemma wrap_content_app (lines : list line) (cur : line) (w w' : Q) x :
  wrap_content (lines ++ [cur], [x], w') = wrap_content (lines, cur, w) ++ [x].
Proof.
  unfold wrap_content; cbn [fst snd]. rewrite List.concat_app. cbn [List.concat].
  rewrite app_nil_r. reflexivity.
Qed.

(** A token goes to the end of what the wrapper holds, whether it
    fits or starts a line. *)
Lemma wrap_token_content fonts max_w st s tok s' :
  wrap_token textlength fonts max_w st s tok = Ret s' ->
  wrap_content s' = wrap_content s ++ [(tok, st)].
Proof.
  destruct s as [[lines cur] cur_w]. unfold wrap_token.
  destruct (seg_w textlength fonts tok st) as [w | e |]; cbn [bind];
    try discriminate.
  destruct (_ || _); intros Hr; injection Hr as <-.
  - unfold wrap_content; cbn [fst snd]. apply app_assoc.
  - apply wrap_content_app.
Qed.

Lemma wrap_tokens_content fonts max_w st : forall toks s s',
  foldM (wrap_token textlength fonts max_w st) toks s = Ret s' ->
  wrap_content s' = wrap_content s ++ map (fun tok => (tok, st)) toks.
Proof.
  induction toks as [| tok toks IH]; intros s s' Hr; cbn [foldM map] in *.
  - injection Hr as <-. symmetry; apply app_nil_r.
  - apply bind_ret_inv in Hr as (s1 & H1 & H2).
    rewrite (IH _ _ H2), (wrap_token_content _ _ _ _ _ _ H1), <- app_assoc.
    reflexivity.
Qed.

Lemma wrap_runs_content fonts max_w : forall runs s s',
  foldM (wrap_run textlength fonts max_w) runs s = Ret s' ->
  wrap_content s' = wrap_content s ++ tagged_tokens runs.
Proof.
  induction runs as [| [txt st] runs IH]; intros s s' Hr;
    cbn [foldM] in Hr.
  - injection Hr as <-. symmetry; apply app_nil_r.
  - apply bind_ret_inv in Hr as (s1 & H1 & H2).
    unfold wrap_run in H1. apply wrap_tokens_content in H1.
    rewrite (IH _ _ H2), H1, <- app_assoc. reflexivity.
Qed.

(** The wrapper never runs out of fuel: it has no unbounded loop. *)
Lemma seg_w_answers fonts tok st :
  seg_w textlength fonts tok st <> OutOfFuel.
Proof.
  unfold seg_w. destruct (textlength tok (fonts st)); [discriminate |].
  destruct (font_size (fonts normal)); discriminate.
Qed.

(** With a sized normal font the measurement falls back to the
    character count and cannot fail. *)
Lemma seg_w_returns fonts tok st :
  font_size (fonts normal) <> None ->
  exists w, seg_w textlength fonts tok st = Ret w.
Proof.
  intros Hs. unfold seg_w. destruct (textlength tok (fonts st)); [eauto |].
  destruct (font_size (fonts normal)); [eauto | contradiction].
Qed.

Lemma wrap_tokens_return fonts max_w st :
  font_size (fonts normal) <> None ->
  forall toks s, exists s',
    foldM (wrap_token textlength fonts max_w st) toks s = Ret s'.
Proof.
  intros Hs. induction toks as [| tok toks IH]; intros s; cbn [foldM]; [eauto |].
  destruct s as [[lines cur] cur_w]. unfold wrap_token at 1.
  destruct (seg_w_returns fonts tok st Hs) as [w ->]. cbn [bind].
  destruct (_ || _); cbn [bind]; apply IH.
Qed.

Lemma wrap_runs_return fonts max_w :
  font_size (fonts normal) <> None ->
  forall runs s, exists s',
    foldM (wrap_run textlength fonts max_w) runs s = Ret s'.
Proof.
  intros Hs. induction runs as [| [txt st] runs IH]; intros s; cbn [foldM];
    [eauto |].
  unfold wrap_run at 1.
  destruct (wrap_tokens_return fonts max_w st Hs (findall_tokens txt) s)
    as [s1 ->].
  cbn [bind]. apply IH.
Qed.

Lemma wrap_rich_returns runs fonts max_w :
  font_size (fonts normal) <> None ->
  exists lines, wrap_rich textlength runs fonts max_w = Ret lines.
Proof.
  intros Hs. unfold wrap_rich.
  destruct (wrap_runs_return fonts max_w Hs runs ([], [], 0%Q))
    as [[[lines cur] w] ->].
  cbn [bind]. eauto.
Qed.

(** C10. The lines that [wrap_rich] returns hold, end to end, the
    tokens of the runs in order, each with the style of its run:
    nothing is dropped, repeated, split or moved, whatever fits.  And
    [wrap_rich] does return when the normal font has a size, which
    every font loaded from a file has. *)
Theorem wrap_rich_preserves_tokens :
  forall (runs : list run) (fonts : style -> font) (max_w : Z),
    (forall lines,
        wrap_rich textlength runs fonts max_w = Ret lines ->
        List.concat lines = tagged_tokens runs)
    /\ (font_size (fonts normal) <> None ->
        exists lines, wrap_rich textlength runs fonts max_w = Ret lines).
Proof.
  intros runs fonts max_w. split; [| apply wrap_rich_returns].
  intros lines Hr. unfold wrap_rich in Hr.
  apply bind_ret_inv in Hr as ([[ls cur] w] & Hf & Hr).
  apply wrap_runs_content in Hf.
  unfold wrap_content in Hf; cbn [fst snd List.concat app] in Hf.
  injection Hr as <-. destruct cur as [| x cur]; cbn [is_nil].
  - rewrite app_nil_r in Hf. exact Hf.
  - rewrite List.concat_app. cbn [List.concat]. rewrite app_nil_r. exact Hf.
Qed.

(** The wrapper on runs without tokens: the loops do nothing, [cur]
    stays empty and is not appended. *)
Lemma wrap_runs_no_tokens fonts max_w : forall runs s,
  (forall r, In r runs -> fst r = EmptyString) ->
  foldM (wrap_run textlength fonts max_w) runs s = Ret s.
Proof.
  induction runs as [| [txt st] runs IH]; intros s Hn; cbn [foldM];
    [reflexivity |].
  assert (Ht : txt = EmptyString) by (apply (Hn (txt, st)); left; reflexivity).
  subst txt. cbn [wrap_run findall_tokens foldM bind].
  apply IH. intros r Hr. apply Hn. right; exact Hr.
Qed.

(** On an empty run sequence, and on runs whose texts hold no token,
    [wrap_rich] returns no line at all. *)
Lemma wrap_rich_no_tokens (runs : list run) (fonts : style -> font) (max_w : Z) :
  (forall r, In r runs -> findall_tokens (fst r) = []) ->
  wrap_rich textlength runs fonts max_w = Ret [].
Proof.
  intros Hn. unfold wrap_rich. rewrite wrap_runs_no_tokens; [reflexivity |].
  intros r Hr. apply findall_tokens_nil_iff, Hn, Hr.
Qed.

End WrapFacts.

(** C10 at a text of four tokens wrapped into two lines. *)
Lemma wrap_rich_preserves_tokens_witness :
  wrap_rich sample_textlength [("ab cd", normal)] (sample_fontset 20) 30
  = Ret [[("ab", normal); (" ", normal)]; [("cd", normal)]]
  /\ List.concat [[("ab", normal); (" ", normal)]; [("cd", normal)]]
     = tagged_tokens [("ab cd", normal)]
  /\ exists lines,
       wrap_rich sample_textlength [("ab cd", normal)] (sample_fontset 20) 30
       = Ret lines.
Proof.
  split; [reflexivity |]. split.
  - apply (proj1 (wrap_rich_preserves_tokens sample_textlength
                    [("ab cd", normal)] (sample_fontset 20) 30)).
    reflexivity.
  - apply (proj2 (wrap_rich_preserves_tokens sample_textlength
                    [("ab cd", normal)] (sample_fontset 20) 30)).
    discriminate.
Defined.

(** C7 as the specification has it fails: for the empty run sequence
    [wrap_rich] returns the empty list, not a list of at least one
    line. *)
Lemma wrap_rich_empty_returns_no_line :
  wrap_rich sample_textlength [] (sample_fontset 20) 100 = Ret []
  /\ ~ (exists (l : line) (ls : list line),
          wrap_rich sample_textlength [] (sample_fontset 20) 100 = Ret (l :: ls)).
Proof.
  split; [reflexivity |]. intros (l & ls & Hr). discriminate Hr.
Qed.

(** ** Auto-fit layout *)

Section LayoutFacts.

Variables FONT_REG FONT_BOLD FONT_ITAL : option string.
Variable load_default : font.
Variable textlength : string -> font -> option Q.

Local Abbreviation pass :=
  (layout_pass FONT_REG FONT_BOLD FONT_ITAL load_default textlength).
Local Abbreviation loop :=
  (layout_loop FONT_REG FONT_BOLD FONT_ITAL load_default textlength).
Local Abbreviation fonts_at := (fontset FONT_REG FONT_BOLD FONT_ITAL load_default).

Lemma int_scale_quot n a b : int_scale n (a # b) = (n * a ÷ Zpos b)%Z.
Proof. unfold int_scale, int_of_Q. reflexivity. Qed.

Lemma int_scale_one n : int_scale n 1 = n.
Proof. rewrite int_scale_quot, Z.mul_1_r. apply Z.quot_1_r. Qed.

(** Above the minimum, a shrunk size is strictly smaller. *)
Lemma shrink_lt n : (min_size < n -> int_scale n (94 # 100) < n)%Z.
Proof.
  unfold min_size. intros Hn. rewrite int_scale_quot.
  apply Z.quot_lt_upper_bound; lia.
Qed.

(** At or below the minimum, a shrunk size is not above it. *)
Lemma shrink_le n : (n <= min_size -> int_scale n (94 # 100) <= min_size)%Z.
Proof.
  unfold min_size. intros Hn. rewrite int_scale_quot.
  apply Z.quot_le_upper_bound; lia.
Qed.

Lemma shrink_distance_decreases es ls :
  (min_size < es \/ min_size < ls)%Z ->
  shrink_distance (Z.max min_size (int_scale es (94 # 100)))
                  (Z.max min_size (int_scale ls (94 # 100)))
  < shrink_distance es ls.
Proof.
  intros Hgt. unfold shrink_distance.
  assert (He : (min_size < es -> int_scale es (94 # 100) < es)%Z)
    by apply shrink_lt.
  assert (He' : (es <= min_size -> int_scale es (94 # 100) <= min_size)%Z)
    by apply shrink_le.
  assert (Hl : (min_size < ls -> int_scale ls (94 # 100) < ls)%Z)
    by apply shrink_lt.
  assert (Hl' : (ls <= min_size -> int_scale ls (94 # 100) <= min_size)%Z)
    by apply shrink_le.
  unfold min_size in *. lia.
Qed.

Lemma blocks_height_app lh bs w :
  blocks_height lh (bs ++ [w])
  = (blocks_height lh bs + lh * at_least_one w)%Z.
Proof.
  induction bs as [| b bs IH]; cbn [blocks_height app fold_right].
  - lia.
  - fold (blocks_height lh (bs ++ [w])). fold (blocks_height lh bs).
    rewrite IH. lia.
Qed.

(** The loop over the lines keeps [text_h] equal to the height of the
    blocks collected. *)
Lemma layout_blocks_height tfuel fonts lh iw : forall raws bs h bs' h',
  foldM (layout_block textlength tfuel fonts lh iw) raws (bs, h) = Ret (bs', h') ->
  h = blocks_height lh bs ->
  h' = blocks_height lh bs'.
Proof.
  induction raws as [| raw raws IH]; intros bs h bs' h' Hr Hh; cbn [foldM] in Hr.
  - injection Hr as <- <-. exact Hh.
  - apply bind_ret_inv in Hr as ([bs1 h1] & H1 & H2).
    apply (IH _ _ _ _ H2).
    unfold layout_block in H1.
    apply bind_ret_inv in H1 as (runs & _ & H1).
    apply bind_ret_inv in H1 as (w & _ & H1).
    injection H1 as <- <-. rewrite blocks_height_app, Hh. reflexivity.
Qed.

Lemma layout_blocks_length tfuel fonts lh iw : forall raws bs h bs' h',
  foldM (layout_block textlength tfuel fonts lh iw) raws (bs, h) = Ret (bs', h') ->
  List.length bs' = List.length bs + List.length raws.
Proof.
  induction raws as [| raw raws IH]; intros bs h bs' h' Hr; cbn [foldM] in Hr.
  - injection Hr as <- <-. cbn. lia.
  - apply bind_ret_inv in Hr as ([bs1 h1] & H1 & H2).
    apply IH in H2. unfold layout_block in H1.
    apply bind_ret_inv in H1 as (runs & _ & H1).
    apply bind_ret_inv in H1 as (w & _ & H1).
    injection H1 as <- <-. rewrite H2, length_app. cbn. lia.
Qed.

(** What a pass returns: the sizes it was given, the line heights
    derived from them, and heights that add up. *)
Lemma layout_pass_result tfuel iw ih explanation raw_lines es ls p :
  pass tfuel iw ih explanation raw_lines es ls = Ret p ->
  expl_size p = es /\ lines_size p = ls
  /\ lh_expl p = (if has_size (fonts_at es normal)
                  then int_scale es (13 # 10) else 24%Z)
  /\ lh_txt p = (if has_size (fonts_at ls normal)
                 then int_scale ls (125 # 100) else 20%Z)
  /\ start_y p = Z.max 0 ((ih - total_h p) / 2)
  /\ heights_add_up p.
Proof.
  unfold layout_pass. intros Hr.
  apply bind_ret_inv in Hr as (runs & _ & Hr).
  apply bind_ret_inv in Hr as (ew & _ & Hr).
  apply bind_ret_inv in Hr as ([bs h] & Hb & Hr).
  injection Hr as <-. cbn.
  repeat split; try reflexivity.
  apply (layout_blocks_height _ _ _ _ _ _ _ _ _ Hb). reflexivity.
Qed.

(** One block per line used, at most [MAX_LINES]. *)
Lemma layout_pass_blocks tfuel iw ih explanation raw_lines es ls p :
  pass tfuel iw ih explanation raw_lines es ls = Ret p ->
  List.length (blocks p) = List.length (firstn MAX_LINES raw_lines).
Proof.
  unfold layout_pass. intros Hr.
  apply bind_ret_inv in Hr as (runs & _ & Hr).
  apply bind_ret_inv in Hr as (ew & _ & Hr).
  apply bind_ret_inv in Hr as ([bs h] & Hb & Hr).
  injection Hr as <-. cbn [blocks].
  apply layout_blocks_length in Hb. exact Hb.
Qed.

(** The loop returns what its last pass computed, and only when the
    test that leaves it holds. *)
Lemma layout_loop_exit tfuel iw ih explanation raw_lines : forall fuel es ls r,
  loop fuel tfuel iw ih explanation raw_lines es ls = Ret r ->
  layout_done ih r = true
  /\ exists es' ls', pass tfuel iw ih explanation raw_lines es' ls' = Ret r.
Proof.
  induction fuel as [| fuel IH]; intros es ls r Hr; [discriminate |].
  cbn [layout_loop] in Hr.
  apply bind_ret_inv in Hr as (p & Hp & Hr).
  destruct (layout_done ih p) eqn:Hd.
  - injection Hr as <-. split; [exact Hd | exists es, ls; exact Hp].
  - apply (IH _ _ _ Hr).
Qed.

Lemma layout_done_fits_or_floor ih r :
  layout_done ih r = true <-> fits_or_floor ih r.
Proof.
  unfold layout_done, fits_or_floor.
  rewrite orb_true_iff, andb_true_iff, !Z.leb_le. tauto.
Qed.

Lemma layout_right_column_blocks fuel iw ih explanation raw_lines base_size r :
  layout_right_column FONT_REG FONT_BOLD FONT_ITAL load_default textlength
    fuel iw ih explanation raw_lines base_size = Ret r ->
  List.length (blocks r) <= MAX_LINES.
Proof.
  intros Hr. unfold layout_right_column in Hr.
  apply layout_loop_exit in Hr as (_ & es' & ls' & Hp).
  apply layout_pass_blocks in Hp. rewrite Hp. apply firstn_le_length.
Qed.

Lemma shrink_le_max n : (int_scale n (94 # 100) <= Z.max n min_size)%Z.
Proof.
  destruct (Z_lt_le_dec min_size n) as [Hgt | Hle].
  - pose proof (shrink_lt n Hgt). lia.
  - pose proof (shrink_le n Hle). lia.
Qed.

Lemma shrink_mono a b :
  (a <= b -> int_scale a (94 # 100) <= int_scale b (94 # 100))%Z.
Proof.
  intros Hab. rewrite !int_scale_quot. apply Z.quot_le_mono; lia.
Qed.

(** The sizes the loop ends with lie between the sizes it starts
    with and the minimum, and keep their order. *)
Lemma layout_loop_sizes tfuel iw ih explanation raw_lines : forall fuel es ls r,
  loop fuel tfuel iw ih explanation raw_lines es ls = Ret r ->
  (Z.min es min_size <= expl_size r <= Z.max es min_size
   /\ Z.min ls min_size <= lines_size r <= Z.max ls min_size
   /\ (ls <= es -> lines_size r <= expl_size r))%Z.
Proof.
  induction fuel as [| fuel IH]; intros es ls r Hr; [discriminate |].
  cbn [layout_loop] in Hr. apply bind_ret_inv in Hr as (p & Hp & Hr).
  destruct (layout_done ih p).
  - injection Hr as <-.
    apply layout_pass_result in Hp as (He & Hl & _). rewrite He, Hl. lia.
  - apply IH in Hr as (He & Hl & Hord).
    pose proof (shrink_le_max es). pose proof (shrink_le_max ls).
    pose proof (shrink_mono ls es).
    unfold min_size in *. repeat split; lia.
Qed.

(** The blocks that the loop over the lines collects are the lines,
    each tokenized and wrapped. *)
Lemma layout_blocks_text tfuel fonts lh iw : forall raws bs h bs' h',
  foldM (layout_block textlength tfuel fonts lh iw) raws (bs, h) = Ret (bs', h') ->
  exists new,
    bs' = bs ++ new
    /\ Forall2 (fun raw block =>
                  exists runs,
                    tokenize_md tfuel raw = Ret runs
                    /\ wrap_rich textlength runs fonts iw = Ret block)
               raws new.
Proof.
  induction raws as [| raw raws IH]; intros bs h bs' h' Hr; cbn [foldM] in Hr.
  - injection Hr as <- _. exists []. rewrite app_nil_r. split; constructor.
  - apply bind_ret_inv in Hr as ([bs1 h1] & H1 & H2).
    unfold layout_block in H1.
    apply bind_ret_inv in H1 as (runs & Hruns & H1).
    apply bind_ret_inv in H1 as (w & Hw & H1). injection H1 as <- <-.
    apply IH in H2 as (new & -> & Hnew).
    exists (w :: new). rewrite <- app_assoc. split; [reflexivity |].
    constructor; [exists runs; split; assumption | exact Hnew].
Qed.

(** A pass lays out the text it is given, with the fonts of the
    sizes it is given. *)
Lemma layout_pass_text tfuel iw ih explanation raw_lines es ls p :
  pass tfuel iw ih explanation raw_lines es ls = Ret p ->
  lays_out textlength tfuel iw explanation raw_lines p
  /\ fonts_and_line_heights FONT_REG FONT_BOLD FONT_ITAL load_default p.
Proof.
  unfold layout_pass. intros Hr.
  apply bind_ret_inv in Hr as (runs & Hruns & Hr).
  apply bind_ret_inv in Hr as (ew & Hew & Hr).
  apply bind_ret_inv in Hr as ([bs h] & Hb & Hr).
  injection Hr as <-.
  apply layout_blocks_text in Hb as (new & -> & Hnew).
  unfold lays_out, fonts_and_line_heights. cbn.
  split; [split; [exists runs; split; assumption | exact Hnew] |].
  repeat split; reflexivity.
Qed.

(** What holds of the layout that the loop returns. *)
Lemma layout_loop_result fuel tfuel iw ih explanation raw_lines es ls r :
  loop fuel tfuel iw ih explanation raw_lines es ls = Ret r ->
  lays_out textlength tfuel iw explanation raw_lines r
  /\ fonts_and_line_heights FONT_REG FONT_BOLD FONT_ITAL load_default r
  /\ heights_add_up r
  /\ fits_or_floor ih r.
Proof.
  intros Hr. apply layout_loop_exit in Hr as (Hd & es' & ls' & Hp).
  pose proof (layout_pass_text _ _ _ _ _ _ _ _ Hp) as (Ht & Hf).
  apply layout_pass_result in Hp as (_ & _ & _ & _ & _ & Hh).
  split; [exact Ht |]. split; [exact Hf |]. split; [exact Hh |].
  apply layout_done_fits_or_floor; exact Hd.
Qed.

(** C4, as the code has it.  When the loop of [layout_right_column]
    is left, and when that of [render_slide_image] is, the layout
    holds the explanation and the lines used, tokenized and wrapped
    with the fonts of its two sizes; the line heights are
    [int(1.3 * size)] and [int(1.25 * size)] where the regular font
    has a size, 24 and 20 where it has none; the heights are callout
    + 10 + blocks; and the total is within the box or both sizes are
    at most the minimum, 12.  Each size lies between the size it
    started with and 12, so that sizes which started at 12 or more
    are then exactly 12, while sizes which started below 12 need not
    have reached it. *)
Theorem layout_exit_invariant :
  (forall fuel iw ih explanation raw_lines base_size r,
      layout_right_column FONT_REG FONT_BOLD FONT_ITAL load_default textlength
        fuel iw ih explanation raw_lines base_size = Ret r ->
      lays_out textlength fuel iw explanation raw_lines r
      /\ fonts_and_line_heights FONT_REG FONT_BOLD FONT_ITAL load_default r
      /\ heights_add_up r
      /\ fits_or_floor ih r
      /\ sizes_between_start_and_floor base_size r
      /\ ((min_size <= int_scale base_size (90 # 100))%Z ->
          (total_h r <= ih)%Z
          \/ (expl_size r = min_size /\ lines_size r = min_size)))
  /\ (forall fuel explanation lines_right base_size r,
        render_slide_image_layout FONT_REG FONT_BOLD FONT_ITAL load_default
          textlength fuel explanation lines_right base_size = Ret r ->
        lays_out textlength fuel (RIGHT_W - 2 * PADDING) explanation lines_right r
        /\ fonts_and_line_heights FONT_REG FONT_BOLD FONT_ITAL load_default r
        /\ heights_add_up r
        /\ fits_or_floor (H - 2 * PADDING) r
        /\ sizes_between_start_and_floor base_size r
        /\ ((min_size <= int_scale base_size (90 # 100))%Z ->
            (total_h r <= H - 2 * PADDING)%Z
            \/ (expl_size r = min_size /\ lines_size r = min_size))).
Proof.
  assert (Hcol : forall fuel iw ih explanation raw_lines base_size r,
      layout_right_column FONT_REG FONT_BOLD FONT_ITAL load_default textlength
        fuel iw ih explanation raw_lines base_size = Ret r ->
      lays_out textlength fuel iw explanation raw_lines r
      /\ fonts_and_line_heights FONT_REG FONT_BOLD FONT_ITAL load_default r
      /\ heights_add_up r
      /\ fits_or_floor ih r
      /\ sizes_between_start_and_floor base_size r
      /\ ((min_size <= int_scale base_size (90 # 100))%Z ->
          (total_h r <= ih)%Z
          \/ (expl_size r = min_size /\ lines_size r = min_size))).
  { intros fuel iw ih explanation raw_lines base_size r Hr.
    unfold layout_right_column in Hr.
    pose proof (layout_loop_result _ _ _ _ _ _ _ _ _ Hr) as (Ht & Hf & Hh & Hfit).
    pose proof (layout_loop_sizes _ _ _ _ _ _ _ _ _ Hr) as (He & Hl & _).
    assert (Hs : sizes_between_start_and_floor base_size r)
      by (split; assumption).
    repeat (split; [assumption |]).
    intros Hbase.
    assert (Hbase' : (min_size <= int_scale base_size 1)%Z).
    { rewrite int_scale_one. rewrite int_scale_quot in Hbase.
      unfold min_size in *.
      destruct (Z_lt_le_dec base_size 12) as [Hlt | Hge]; [| exact Hge].
      assert (base_size * 90 ÷ 100 <= 11)%Z
        by (apply Z.quot_le_upper_bound; lia).
      lia. }
    destruct Hfit as [Hfit | [Hfe Hfl]]; [left; exact Hfit | right].
    unfold min_size in *. lia. }
  split; [exact Hcol |].
  intros fuel explanation lines_right base_size r Hr.
  unfold render_slide_image_layout in Hr.
  apply bind_ret_inv in Hr as (r0 & Hr0 & Hr).
  apply bind_ret_inv in Hr as (p & Hp & Hr).
  pose proof (Hcol _ _ _ _ _ _ _ Hr0) as (Ht & Hf & Hh & Hfit & Hs & Hmin).
  unfold layout_right_column in Hr0.
  apply layout_loop_exit in Hr0 as (_ & es' & ls' & Hp0).
  pose proof (layout_pass_result _ _ _ _ _ _ _ _ Hp0) as (He & Hl & _).
  rewrite He, Hl, Hp0 in Hp. injection Hp as <-.
  injection Hr as <-.
  unfold lays_out, fonts_and_line_heights, heights_add_up, fits_or_floor,
    sizes_between_start_and_floor in *.
  cbn [f_expl f_txt lh_expl lh_txt expl_wrapped blocks expl_h start_y
       expl_size lines_size text_h total_h].
  repeat (split; [assumption |]). exact Hmin.
Qed.

(** *** Termination of the loop *)

Lemma layout_blocks_return tfuel fonts lh iw :
  font_size (fonts normal) <> None ->
  forall raws,
    Forall (fun raw => exists runs, tokenize_md tfuel raw = Ret runs) raws ->
    forall acc, exists acc',
      foldM (layout_block textlength tfuel fonts lh iw) raws acc = Ret acc'.
Proof.
  intros Hs. induction raws as [| raw raws IH]; intros Hf acc; cbn [foldM];
    [eauto |].
  inversion Hf as [| ? ? [runs Hruns] Hf']; subst.
  destruct acc as [bs h]. unfold layout_block at 1. rewrite Hruns. cbn [bind].
  destruct (wrap_rich_returns textlength runs fonts iw Hs) as [w ->].
  cbn [bind]. apply (IH Hf').
Qed.

(** A pass returns as soon as the tokenizer does on the explanation
    and on each line used, the fonts being loaded from files. *)
Lemma layout_pass_returns tfuel iw ih explanation raw_lines es ls :
  FONT_REG <> None ->
  (exists runs, tokenize_md tfuel explanation = Ret runs) ->
  Forall (fun raw => exists runs, tokenize_md tfuel raw = Ret runs)
         (firstn MAX_LINES raw_lines) ->
  exists p, pass tfuel iw ih explanation raw_lines es ls = Ret p.
Proof.
  intros Hreg [runs Hruns] Hraws. unfold layout_pass.
  assert (Hs : forall sz, font_size (fonts_at sz normal) <> None).
  { intros sz. unfold fontset, mkfont.
    destruct FONT_REG; [discriminate | contradiction]. }
  rewrite Hruns. cbn [bind].
  destruct (wrap_rich_returns textlength runs (fonts_at es) (iw - 20) (Hs es))
    as [ew Hew].
  rewrite Hew. cbn [bind].
  destruct (layout_blocks_return tfuel (fonts_at ls)
              (if has_size (fonts_at ls normal)
               then int_scale ls (125 # 100) else 20%Z)
              iw (Hs ls) _ Hraws ([], 0%Z)) as [[bs h] Hb].
  rewrite Hb. cbn [bind]. eauto.
Qed.

(** A pass that fits, or is made at the floor, is the last one, and
    leaves the sizes as they were. *)
Lemma layout_loop_stops fuel tfuel iw ih explanation raw_lines es ls p :
  pass tfuel iw ih explanation raw_lines es ls = Ret p ->
  (total_h p <= ih \/ (es <= min_size /\ ls <= min_size))%Z ->
  loop (S fuel) tfuel iw ih explanation raw_lines es ls = Ret p
  /\ expl_size p = es /\ lines_size p = ls.
Proof.
  intros Hp Hstop.
  pose proof (layout_pass_result _ _ _ _ _ _ _ _ Hp) as (He & Hl & _).
  split; [| split; assumption].
  cbn [layout_loop]. rewrite Hp. cbn [bind].
  replace (layout_done ih p) with true; [reflexivity |].
  symmetry. apply layout_done_fits_or_floor. unfold fits_or_floor.
  rewrite He, Hl. exact Hstop.
Qed.

(** The loop returns within [shrink_distance + 1] passes. *)
Lemma layout_loop_returns tfuel iw ih explanation raw_lines :
  FONT_REG <> None ->
  (exists runs, tokenize_md tfuel explanation = Ret runs) ->
  Forall (fun raw => exists runs, tokenize_md tfuel raw = Ret runs)
         (firstn MAX_LINES raw_lines) ->
  forall fuel es ls,
    shrink_distance es ls < fuel ->
    exists r, loop fuel tfuel iw ih explanation raw_lines es ls = Ret r.
Proof.
  intros Hreg He Hraws.
  induction fuel as [| fuel IH]; intros es ls Hd; [lia |].
  destruct (layout_pass_returns tfuel iw ih explanation raw_lines es ls
              Hreg He Hraws) as [p Hp].
  pose proof (layout_pass_result _ _ _ _ _ _ _ _ Hp) as (Hes & Hls & _).
  cbn [layout_loop]. rewrite Hp. cbn [bind].
  destruct (layout_done ih p) eqn:Hdone; [eauto |].
  apply IH.
  assert (Hgt : (min_size < es \/ min_size < ls)%Z).
  { unfold layout_done in Hdone. rewrite Hes, Hls in Hdone.
    apply orb_false_iff in Hdone as [_ Hdone].
    apply andb_false_iff in Hdone as [Hdone | Hdone];
      apply Z.leb_gt in Hdone; [left | right]; exact Hdone. }
  pose proof (shrink_distance_decreases es ls Hgt). lia.
Qed.

(** Where the tokenizer returns, so does [layout_right_column], with
    a number of passes bounded by the distance of the initial sizes
    from the minimum. *)
Lemma layout_right_column_returns n0 iw ih explanation raw_lines base_size :
  FONT_REG <> None ->
  (exists runs, tokenize_md n0 explanation = Ret runs) ->
  Forall (fun raw => exists runs, tokenize_md n0 raw = Ret runs)
         (firstn MAX_LINES raw_lines) ->
  forall fuel,
    n0 <= fuel ->
    shrink_distance (int_scale base_size 1) (int_scale base_size (90 # 100)) < fuel ->
    exists r,
      layout_right_column FONT_REG FONT_BOLD FONT_ITAL load_default textlength
        fuel iw ih explanation raw_lines base_size = Ret r.
Proof.
  intros Hreg [runs He] Hraws fuel Hn Hd. unfold layout_right_column.
  apply layout_loop_returns; try assumption.
  - exists runs. apply (tokenize_loop_mono _ _ _ _ _ He _ Hn).
  - revert Hraws. apply Forall_impl. intros raw [rs Hrs].
    exists rs. apply (tokenize_loop_mono _ _ _ _ _ Hrs _ Hn).
Qed.

(** C2. On the explanation ["a *b"] neither layout loop is ever
    left, whatever the lines, the box, the base size and the fuel:
    the first pass calls the tokenizer, which does not return on this
    text.  The specification asks for a loop that ends on every
    explanation. *)
Theorem layout_never_returns_on_unterminated_marker :
  forall fuel iw ih raw_lines base_size,
    layout_right_column FONT_REG FONT_BOLD FONT_ITAL load_default textlength
      fuel iw ih "a *b" raw_lines base_size = OutOfFuel
    /\ render_slide_image_layout FONT_REG FONT_BOLD FONT_ITAL load_default
         textlength fuel "a *b" raw_lines base_size = OutOfFuel.
Proof.
  assert (Hloop : forall fuel iw ih raw_lines base_size,
             layout_right_column FONT_REG FONT_BOLD FONT_ITAL load_default
               textlength fuel iw ih "a *b" raw_lines base_size = OutOfFuel).
  { intros fuel iw ih raw_lines base_size. unfold layout_right_column.
    destruct fuel as [| fuel]; [reflexivity |].
    cbn [layout_loop]. unfold layout_pass.
    rewrite tokenize_md_lone_star_text. reflexivity. }
  intros fuel iw ih raw_lines base_size. split; [apply Hloop |].
  unfold render_slide_image_layout. rewrite Hloop. reflexivity.
Qed.

Lemma blocks_height_empty lh : forall bs : list (list line),
  Forall (fun block => block = []) bs ->
  blocks_height lh bs = (lh * 1 * Z.of_nat (List.length bs))%Z.
Proof.
  induction bs as [| b bs IH]; intros Hbs; cbn [blocks_height fold_right List.length].
  - lia.
  - inversion Hbs as [| ? ? Hb Hbs']; subst. fold (blocks_height lh bs).
    rewrite (IH Hbs'). unfold at_least_one. cbn [List.length]. lia.
Qed.

(** C7, as the code has it.  On an empty run sequence, and on runs
    whose texts hold no token, [wrap_rich] returns no line at all.
    The pass of the layout loop, which calls it in both scripts,
    counts [max(1, len(lines))] lines: an explanation without tokens
    gets a callout with no wrapped line that is one line high,
    [lh_expl + 16], and lines without tokens get empty blocks that
    are one line high each. *)
Theorem wrap_rich_empty_input :
  forall runs : list run,
    (forall r, In r runs -> PyStr.findall_tokens (fst r) = []) ->
    (forall fonts max_w, wrap_rich textlength runs fonts max_w = Ret [])
    /\ (forall tfuel iw ih explanation raw_lines es ls p,
          tokenize_md tfuel explanation = Ret runs ->
          layout_pass FONT_REG FONT_BOLD FONT_ITAL load_default textlength
            tfuel iw ih explanation raw_lines es ls = Ret p ->
          expl_wrapped p = [] /\ expl_h p = (lh_expl p * 1 + 16)%Z)
    /\ (forall tfuel iw ih explanation raw_lines es ls p,
          Forall (fun raw =>
                    exists rs,
                      tokenize_md tfuel raw = Ret rs
                      /\ forall r, In r rs -> PyStr.findall_tokens (fst r) = [])
                 (firstn MAX_LINES raw_lines) ->
          layout_pass FONT_REG FONT_BOLD FONT_ITAL load_default textlength
            tfuel iw ih explanation raw_lines es ls = Ret p ->
          Forall (fun block => block = []) (blocks p)
          /\ text_h p
             = (lh_txt p * 1
                * Z.of_nat (List.length (firstn MAX_LINES raw_lines)))%Z).
Proof.
  intros runs Hn.
  assert (Hw : forall fonts max_w, wrap_rich textlength runs fonts max_w = Ret [])
    by (intros fonts max_w; apply wrap_rich_no_tokens, Hn).
  split; [exact Hw |]. split.
  - intros tfuel iw ih explanation raw_lines es ls p Htok Hp.
    pose proof (layout_pass_text _ _ _ _ _ _ _ _ Hp) as [[(rs & Hrs & Hwr) _] _].
    apply layout_pass_result in Hp as (_ & _ & _ & _ & _ & (Heh & _)).
    rewrite Htok in Hrs. injection Hrs as <-. rewrite Hw in Hwr.
    injection Hwr as Hwr. rewrite Heh, <- Hwr. split; reflexivity.
  - intros tfuel iw ih explanation raw_lines es ls p Htoks Hp.
    pose proof (layout_pass_text _ _ _ _ _ _ _ _ Hp) as [[_ Hbs] _].
    pose proof (layout_pass_blocks _ _ _ _ _ _ _ _ Hp) as Hlen.
    apply layout_pass_result in Hp as (_ & _ & _ & _ & _ & (_ & Hth & _)).
    assert (Hall : Forall (fun block => block = []) (blocks p)).
    { revert Htoks Hbs. generalize (firstn MAX_LINES raw_lines) (blocks p).
      intros raws bs Htoks Hbs.
      induction Hbs as [| raw block raws bs (rs & Hrs & Hwr) _ IH];
        [constructor |].
      inversion Htoks as [| ? ? (rs' & Hraw & Hnone) Htoks']; subst.
      constructor; [| exact (IH Htoks')].
      rewrite Hraw in Hrs. injection Hrs as <-.
      rewrite (wrap_rich_no_tokens textlength rs' (f_txt p) iw Hnone) in Hwr.
      injection Hwr as Hwr. symmetry; exact Hwr. }
    split; [exact Hall |].
    rewrite Hth, (blocks_height_empty _ _ Hall), Hlen. reflexivity.
Qed.

End LayoutFacts.

(** The invariant as the specification words it fails twice over.
    With the base size 10 the loop of [layout_right_column] is left at
    once in a box of 100 by 60: the total of 74 does not fit, and the
    sizes are 10 and 9, not the minimum of 12.  With the built-in font
    the line heights are 24 and 20: at the base size 40 the total of
    50 fits a box 60 high, where line heights of 1.3 and 1.25 times
    the sizes give 78, with the sizes at 40 and 36. *)
Lemma layout_exit_not_at_minimum :
  (exists r,
      layout_right_column sample_regular sample_bold sample_oblique sample_default
        sample_textlength 5 100 60 "Hello **world** and more words here"
        ["Line one"; "Line two"] 10 = Ret r
      /\ expl_size r = 10%Z /\ lines_size r = 9%Z /\ total_h r = 74%Z
      /\ ~ ((total_h r <= 60)%Z \/ (expl_size r = 12%Z /\ lines_size r = 12%Z)))
  /\ (exists r,
        layout_right_column None None None sample_default sample_fixed_textlength
          5 100 60 "Hello" [] 40 = Ret r
        /\ lh_expl r = 24%Z /\ lh_txt r = 20%Z /\ total_h r = 50%Z
        /\ ~ ((int_scale (expl_size r) (13 # 10) * at_least_one (expl_wrapped r) + 16
                + 10 + blocks_height (int_scale (lines_size r) (125 # 100)) (blocks r)
                <= 60)%Z
              \/ (expl_size r = 12%Z /\ lines_size r = 12%Z))).
Proof.
  split.
  - eexists. split; [vm_compute; reflexivity |].
    split; [reflexivity |]. split; [reflexivity |]. split; [reflexivity |].
    vm_compute. intros [Hfit | [He _]];
      [apply Hfit; reflexivity | discriminate He].
  - eexists. split; [vm_compute; reflexivity |].
    split; [reflexivity |]. split; [reflexivity |]. split; [reflexivity |].
    vm_compute. intros [Hfit | [He _]];
      [apply Hfit; reflexivity | discriminate He].
Qed.

(** C4 at a box of 100 by 60 that the text does not fit even at size
    12, and at the fixed box of [render_slide_image] that it fits at
    once. *)
Lemma layout_exit_invariant_witness :
  (exists r,
      layout_right_column sample_regular sample_bold sample_oblique sample_default
        sample_textlength 20 100 60 "Hello **world** and more words here"
        ["Line one"; "Line two"] 20 = Ret r
      /\ fits_or_floor 60 r /\ heights_add_up r
      /\ ((total_h r <= 60)%Z \/ (expl_size r = 12%Z /\ lines_size r = 12%Z)))
  /\ (exists r,
        render_slide_image_layout sample_regular sample_bold sample_oblique
          sample_default sample_textlength 20 "Hello **world**"
          ["Line one"; "Line two"] 20 = Ret r
        /\ fits_or_floor (H - 2 * PADDING) r /\ heights_add_up r).
Proof.
  split.
  - destruct (layout_right_column sample_regular sample_bold sample_oblique
                sample_default sample_textlength 20 100 60
                "Hello **world** and more words here"
                ["Line one"; "Line two"] 20) as [r | e |] eqn:Hr;
      [| vm_compute in Hr; discriminate Hr ..].
    exists r. split; [reflexivity |].
    destruct (proj1 (layout_exit_invariant sample_regular sample_bold
                       sample_oblique sample_default sample_textlength)
                _ _ _ _ _ _ _ Hr) as (_ & _ & Hh & Hf & _ & Hmin).
    split; [exact Hf |]. split; [exact Hh |].
    apply Hmin. vm_compute. discriminate.
  - destruct (render_slide_image_layout sample_regular sample_bold sample_oblique
                sample_default sample_textlength 20 "Hello **world**"
                ["Line one"; "Line two"] 20) as [r | e |] eqn:Hr;
      [| vm_compute in Hr; discriminate Hr ..].
    exists r. split; [reflexivity |].
    destruct (proj2 (layout_exit_invariant sample_regular sample_bold
                       sample_oblique sample_default sample_textlength)
                _ _ _ _ _ Hr) as (_ & _ & Hh & Hf & _).
    split; [exact Hf | exact Hh].
Defined.

(** The loop at work where the tokenizer returns: the text of the
    specification's scenario fits at once and keeps the sizes 20 and
    18; in a box of 100 by 60 the sizes go down to 12 and the overflow
    is accepted. *)
Lemma layout_right_column_examples :
  (exists r,
      layout_right_column sample_regular sample_bold sample_oblique sample_default
        sample_textlength 2 542 452 "Hello **world**" ["Line one"; "Line two"] 20
      = Ret r
      /\ expl_size r = 20%Z /\ lines_size r = 18%Z /\ total_h r = 96%Z)
  /\ (exists r,
        layout_right_column sample_regular sample_bold sample_oblique
          sample_default sample_textlength 7 100 60
          "Hello **world** and more words here" ["Line one"; "Line two"] 20
        = Ret r
        /\ expl_size r = 12%Z /\ lines_size r = 12%Z /\ total_h r = 101%Z).
Proof.
  split; eexists; (split; [vm_compute; reflexivity | repeat split]).
Qed.

(** C7 at an explanation made of an empty bold run, a line made of
    one and an empty line. *)
Lemma wrap_rich_empty_input_witness :
  wrap_rich sample_textlength [("", bold)] (sample_fontset 20) 100 = Ret []
  /\ exists p,
       layout_pass sample_regular sample_bold sample_oblique sample_default
         sample_textlength 2 542 452 "****" ["****"; ""] 20 18 = Ret p
       /\ expl_wrapped p = [] /\ expl_h p = (lh_expl p * 1 + 16)%Z
       /\ blocks p = [[]; []] /\ text_h p = (lh_txt p * 1 * Z.of_nat 2)%Z.
Proof.
  destruct (wrap_rich_empty_input sample_regular sample_bold sample_oblique
              sample_default sample_textlength [("", bold)]) as (Hw & He & Hl).
  - intros r [<- | []]. reflexivity.
  - split; [apply Hw |].
    destruct (layout_pass sample_regular sample_bold sample_oblique sample_default
                sample_textlength 2 542 452 "****" ["****"; ""] 20 18)
      as [p | e |] eqn:Hp; [| vm_compute in Hp; discriminate Hp ..].
    exists p. split; [reflexivity |].
    destruct (He 2 542%Z 452%Z "****" ["****"; ""] 20%Z 18%Z p eq_refl Hp)
      as [Hew Heh].
    destruct (Hl 2 542%Z 452%Z "****" ["****"; ""] 20%Z 18%Z p) as [_ Hth].
    + constructor; [| constructor; [| constructor]].
      * exists [("", bold)]. split; [reflexivity |].
        intros r [<- | []]. reflexivity.
      * exists []. split; [reflexivity |]. intros r [].
    + exact Hp.
    + split; [exact Hew |]. split; [exact Heh |]. split; [| exact Hth].
      vm_compute in Hp. injection Hp as <-. reflexivity.
Defined.

(** ** Animated slide composer *)

Section ComposerFacts.

Lemma text_layers_fold (lh : Z) (ix : Z) (d : Q) :
  forall (ibs : list (nat * list line)) tl0 y0 tl y,
    fold_left
      (fun '(text_layers, cur_y) '(idx, block) =>
         let h := (lh * at_least_one block)%Z in
         let delay := text_delay idx in
         let dur_remain := py_max (1 # 10) (d - delay) in
         let tb_clip :=
           {| clip_kind := TextLayer idx; clip_start := delay;
              clip_duration := dur_remain; clip_fadein := TEXT_DUR;
              clip_rest := Some (ix, cur_y) |} in
         (text_layers ++ [tb_clip], (cur_y + h)%Z))
      ibs (tl0, y0) = (tl, y) ->
    map clip_kind tl = map clip_kind tl0 ++ map (fun ib => TextLayer (fst ib)) ibs
    /\ (Forall (text_layer_timed d) tl0 -> Forall (text_layer_timed d) tl).
Proof.
  induction ibs as [| [idx block] ibs IH]; intros tl0 y0 tl y Hf;
    cbn [fold_left] in Hf.
  - injection Hf as <- <-. cbn [map]. rewrite app_nil_r. split; auto.
  - apply IH in Hf as [Hk Ht]. split.
    + rewrite Hk, map_app, <- app_assoc. reflexivity.
    + intros H0. apply Ht. apply Forall_app. split; [exact H0 |].
      constructor; [| constructor]. exists idx. repeat split.
Qed.

Lemma map_fst_enumerate {A : Type} (xs : list A) :
  map fst (enumerate xs) = seq 0 (List.length xs).
Proof.
  unfold enumerate. generalize 0.
  induction xs as [| x xs IH]; intros n; cbn; [reflexivity |].
  rewrite IH. reflexivity.
Qed.

(** The layers of a slide, in order, and the timing of the delayed
    ones. *)
Lemma compose_layers_spec has_image right d :
  exists base img callout texts,
    layers (compose_layers has_image right d)
    = [base] ++ img ++ [callout] ++ texts
    /\ clip_kind base = BaseLayer /\ clip_duration base = d
    /\ img = (if has_image
              then [ {| clip_kind := ImageLayer; clip_start := 0;
                        clip_duration := d; clip_fadein := IMG_IN_DUR;
                        clip_rest := None |} ]
              else [])
    /\ clip_kind callout = CalloutLayer
    /\ clip_start callout = CALLOUT_DELAY
    /\ clip_duration callout = py_max (1 # 10) (d - CALLOUT_DELAY)
    /\ map clip_kind texts = map TextLayer (seq 0 (List.length (blocks right)))
    /\ Forall (text_layer_timed d) texts.
Proof.
  unfold compose_layers.
  match goal with
  | |- context [fold_left ?f ?l ?a] => destruct (fold_left f l a) as [tl y] eqn:Hf
  end.
  apply text_layers_fold in Hf as [Hk Ht].
  do 4 eexists. split; [cbn [layers]; reflexivity |].
  repeat split; try reflexivity.
  - rewrite Hk. cbn [map app]. rewrite <- map_fst_enumerate, map_map. reflexivity.
  - apply Ht. constructor.
Qed.

Variables FONT_REG FONT_BOLD FONT_ITAL : option string.
Variable load_default : font.
Variable textlength : string -> font -> option Q.
Variable image_exists : nat -> bool.

(** C8. In the composite that [build_slide_clip] returns for a slide
    of duration [d]: the layers are the background, the image when
    there is one, the callout and one text layer per block, at most
    [MAX_LINES]; the callout lasts [max(0.1, d - CALLOUT_DELAY)] and
    the text layer [i] lasts
    [max(0.1, d - (TEXT_START_DELAY + i * TEXT_STAGGER))], both more
    than zero whatever [d] is, also when the delay is [d] or more;
    and for [d] a duration that the deriver gives, every layer of the
    composite, background and image included, lasts more than
    zero. *)
Theorem animated_layer_durations :
  forall fuel sl (d : Q) base_font_size c,
    build_slide_clip FONT_REG FONT_BOLD FONT_ITAL load_default textlength
      image_exists fuel sl d base_font_size = Ret c ->
    (exists n,
        n <= MAX_LINES
        /\ map clip_kind (layers c)
           = [BaseLayer]
               ++ (if image_exists (index sl + 1) then [ImageLayer] else [])
               ++ [CalloutLayer] ++ map TextLayer (seq 0 n))
    /\ (forall l, In l (layers c) -> clip_kind l = CalloutLayer ->
          clip_start l = CALLOUT_DELAY
          /\ clip_duration l = Qmax (1 # 10) (d - CALLOUT_DELAY)
          /\ (0 < clip_duration l)%Q)
    /\ (forall l i, In l (layers c) -> clip_kind l = TextLayer i ->
          clip_start l = (TEXT_START_DELAY + inject_Z (Z.of_nat i) * TEXT_STAGGER)%Q
          /\ clip_duration l
             = Qmax (1 # 10)
                 (d - (TEXT_START_DELAY + inject_Z (Z.of_nat i) * TEXT_STAGGER))
          /\ (0 < clip_duration l)%Q)
    /\ (forall ts audio_len,
          In d (durations_from_timestamps ts audio_len) ->
          forall l, In l (layers c) -> (0 < clip_duration l)%Q).
Proof.
  intros fuel sl d base_font_size c Hc. unfold build_slide_clip in Hc.
  apply bind_ret_inv in Hc as (right & Hright & Hc). injection Hc as <-.
  apply layout_right_column_blocks in Hright.
  destruct (compose_layers_spec (image_exists (index sl + 1)) right d)
    as (base & img & callout & texts & -> & Hbk & Hbd & Himg & Hck & Hcs & Hcd
        & Htk & Htt).
  assert (Htenth : (0 < 1 # 10)%Q) by reflexivity.
  assert (Himgk : forall l, In l img -> clip_kind l = ImageLayer /\ clip_duration l = d).
  { intros l Hl. rewrite Himg in Hl.
    destruct (image_exists (index sl + 1)); [| contradiction].
    destruct Hl as [<- | []]. split; reflexivity. }
  assert (Htexts : forall l, In l texts ->
             exists idx, clip_kind l = TextLayer idx
                         /\ clip_start l = text_delay idx
                         /\ clip_duration l = py_max (1 # 10) (d - text_delay idx)).
  { intros l Hl. rewrite Forall_forall in Htt. apply (Htt l Hl). }
  split; [| split; [| split]].
  - exists (List.length (blocks right)). split; [exact Hright |].
    rewrite !map_app. cbn [map]. rewrite Hbk, Hck, Htk. do 2 f_equal.
    rewrite Himg. destruct (image_exists (index sl + 1)); reflexivity.
  - intros l Hl Hk.
    apply in_app_iff in Hl as [[<- | []] | Hl]; [congruence |].
    apply in_app_iff in Hl as [Hl | Hl];
      [apply Himgk in Hl as [Hl _]; congruence |].
    apply in_app_iff in Hl as [[<- | []] | Hl].
    + rewrite Hcs, Hcd, <- py_max_Qmax.
      repeat split. apply py_max_pos, Htenth.
    + apply Htexts in Hl as (idx & Hl & _). congruence.
  - intros l i Hl Hk.
    apply in_app_iff in Hl as [[<- | []] | Hl]; [congruence |].
    apply in_app_iff in Hl as [Hl | Hl];
      [apply Himgk in Hl as [Hl _]; congruence |].
    apply in_app_iff in Hl as [[<- | []] | Hl]; [congruence |].
    apply Htexts in Hl as (idx & Hl & Hs & Hd).
    assert (idx = i) by congruence. subst idx.
    rewrite Hs, Hd, <- py_max_Qmax.
    repeat split. apply py_max_pos, Htenth.
  - intros ts audio_len Hd l Hl.
    assert (Hpos : (0 < d)%Q).
    { apply (Qlt_le_trans _ MIN_SLIDE_SEC); [reflexivity |].
      apply (durations_from_timestamps_floor _ _ _ Hd). }
    apply in_app_iff in Hl as [[<- | []] | Hl]; [rewrite Hbd; exact Hpos |].
    apply in_app_iff in Hl as [Hl | Hl];
      [apply Himgk in Hl as [_ ->]; exact Hpos |].
    apply in_app_iff in Hl as [[<- | []] | Hl].
    + rewrite Hcd. apply py_max_pos, Htenth.
    + apply Htexts in Hl as (idx & _ & _ & ->). apply py_max_pos, Htenth.
Qed.

End ComposerFacts.

(** C8 at the slide of the specification's scenario, three seconds
    long: its two text layers would start after the slide has ended and
    last a tenth of a second. *)
Lemma animated_layer_durations_witness :
  exists c,
    build_slide_clip sample_regular sample_bold sample_oblique sample_default
      sample_textlength (fun _ => true) 5 sample_slide 3 20 = Ret c
    /\ map clip_duration (layers c) = [3; 3; 280 # 100; 1 # 10; 1 # 10]%Q
    /\ (forall l, In l (layers c) -> clip_kind l = TextLayer 1 ->
          clip_duration l = Qmax (1 # 10) (3 - (TEXT_START_DELAY + 1 * TEXT_STAGGER))
          /\ (0 < clip_duration l)%Q)
    /\ (forall l, In l (layers c) -> (0 < clip_duration l)%Q).
Proof.
  destruct (build_slide_clip sample_regular sample_bold sample_oblique
              sample_default sample_textlength (fun _ => true) 5 sample_slide 3 20)
    as [c | e |] eqn:Hc; [| vm_compute in Hc; discriminate Hc ..].
  exists c. split; [reflexivity |].
  destruct (animated_layer_durations sample_regular sample_bold sample_oblique
              sample_default sample_textlength (fun _ => true) 5 sample_slide 3 20
              c Hc) as (_ & _ & Htext & Hall).
  split; [| split].
  - vm_compute in Hc. injection Hc as <-. reflexivity.
  - intros l Hl Hk. destruct (Htext l 1 Hl Hk) as (_ & Hd & Hp).
    split; [exact Hd | exact Hp].
  - apply (Hall [0]%Q 3%Q). left; reflexivity.
Defined.

(** ** The animated script's [main] *)

Section MainFacts.

Lemma insert_slide_in s l x : In x (insert_slide s l) <-> x = s \/ In x l.
Proof.
  induction l as [| y l IH]; cbn [insert_slide In].
  - intuition.
  - destruct (timestamp s <=? timestamp y)%Z; cbn [In]; [intuition |].
    rewrite IH. intuition.
Qed.

(** Sorting keeps the slides: none is lost, none is added. *)
Lemma sort_slides_in l x : In x (sort_slides l) <-> In x l.
Proof.
  induction l as [| y l IH]; cbn [sort_slides fold_right In]; [tauto |].
  fold (sort_slides l). rewrite insert_slide_in, IH. intuition.
Qed.

Lemma insert_slide_sorted s l :
  StronglySorted (fun a b => (timestamp a <= timestamp b)%Z) l ->
  StronglySorted (fun a b => (timestamp a <= timestamp b)%Z) (insert_slide s l).
Proof.
  induction 1 as [| y l Hl IH Hy]; cbn [insert_slide].
  - repeat constructor.
  - destruct (timestamp s <=? timestamp y)%Z eqn:Hle.
    + apply Z.leb_le in Hle. constructor; [constructor; assumption |].
      constructor; [exact Hle |].
      rewrite Forall_forall in Hy |- *. intros z Hz. specialize (Hy z Hz). lia.
    + apply Z.leb_gt in Hle. constructor; [exact IH |].
      rewrite Forall_forall in Hy |- *. intros z Hz.
      apply insert_slide_in in Hz as [-> | Hz]; [lia | apply (Hy z Hz)].
Qed.

(** After sorting the timestamps ascend, so that the first one is the
    smallest. *)
Lemma sort_slides_sorted l :
  StronglySorted (fun a b => (timestamp a <= timestamp b)%Z) (sort_slides l).
Proof.
  induction l as [| y l IH]; cbn [sort_slides fold_right]; [constructor |].
  apply insert_slide_sorted, IH.
Qed.

Variables FONT_REG FONT_BOLD FONT_ITAL : option string.
Variable load_default : font.
Variable textlength : string -> font -> option Q.
Variable image_exists : nat -> bool.

(** C9. When the timestamps of the entries are all read and the
    smallest of them is beyond the length of the audio track, [main]
    raises [ValueError] and nothing has been rendered or written:
    the list of events is empty, whatever the fuel. *)
Theorem first_timestamp_beyond_audio_aborts :
  forall fuel (entries : list entry) (audio_len : Q) base_font_size
         (slides : list slide) (t0 : Z),
    entries <> [] ->
    mapM slide_of_entry (enumerate entries) = Ret slides ->
    In t0 (map timestamp slides) ->
    (forall t, In t (map timestamp slides) -> (t0 <= t)%Z) ->
    (audio_len < inject_Z t0)%Q ->
    main FONT_REG FONT_BOLD FONT_ITAL load_default textlength image_exists
      fuel (Some entries) (Some audio_len) base_font_size
    = ([], Raise (ValueError
                    "First slide timestamp is beyond the audio duration.")).
Proof.
  intros fuel entries audio_len base_font_size slides t0 Hne Hparse Hin Hmin Hlt.
  unfold main. destruct entries as [| e entries]; [contradiction |].
  cbn [is_nil]. rewrite Hparse.
  destruct (sort_slides slides) as [| h rest] eqn:Hsort.
  - exfalso. apply in_map_iff in Hin as (s & _ & Hs).
    apply sort_slides_in in Hs. rewrite Hsort in Hs. contradiction.
  - cbn [map is_nil negb nth andb].
    assert (Hh : (t0 <= timestamp h)%Z).
    { apply Hmin, in_map, sort_slides_in. rewrite Hsort. left; reflexivity. }
    destruct (Qle_bool (inject_Z (timestamp h)) audio_len) eqn:Hle;
      [| reflexivity].
    exfalso. apply Qle_bool_iff in Hle.
    apply (Qlt_irrefl audio_len).
    apply (Qlt_le_trans _ (inject_Z t0)); [exact Hlt |].
    apply (Qle_trans _ (inject_Z (timestamp h))); [| exact Hle].
    rewrite <- Zle_Qle. exact Hh.
Qed.

End MainFacts.

(** C9 at two entries at 0:05 and 0:04 and three seconds of audio. *)
Lemma first_timestamp_beyond_audio_aborts_witness :
  main sample_regular sample_bold sample_oblique sample_default
    sample_textlength (fun _ => true) 5 (Some sample_entries) (Some 3%Q) 20
  = ([], Raise (ValueError "First slide timestamp is beyond the audio duration.")).
Proof.
  apply (first_timestamp_beyond_audio_aborts sample_regular sample_bold
           sample_oblique sample_default sample_textlength (fun _ => true)
           5 sample_entries 3%Q 20
           [ {| index := 0; timestamp := 5; explanation := "Hello **world**";
                slide_content := "Title" |};
             {| index := 1; timestamp := 4; explanation := "x";
                slide_content := "Title" |} ]
           4%Z).
  - discriminate.
  - reflexivity.
  - cbn. right; left; reflexivity.
  - intros t [<- | [<- | []]]; cbn; lia.
  - reflexivity.
Defined.

(** With enough audio the same entries are rendered in the order of
    their timestamps and the video is written. *)
Lemma main_renders_in_timestamp_order :
  main sample_regular sample_bold sample_oblique sample_default
    sample_textlength (fun _ => true) 5 (Some sample_entries) (Some 30%Q) 20
  = ([EvRender 1; EvRender 0; EvWrite 2], Ret tt).
Proof. vm_compute. reflexivity. Qed.

(** * Further properties of the code *)

(** ** Slices of a string *)

Module PyStrSlices.
Import PyStr PyStrFacts.

Lemma append_nil_r s : String.append s EmptyString = s.
Proof. induction s as [| c s IH]; cbn; [reflexivity | rewrite IH; reflexivity]. Qed.

Lemma append_assoc s t u :
  String.append (String.append s t) u = String.append s (String.append t u).
Proof. induction s as [| c s IH]; cbn; [reflexivity | rewrite IH; reflexivity]. Qed.

Lemma drop_beyond n s : len s <= n -> drop n s = EmptyString.
Proof.
  unfold len. revert s; induction n as [| n IH]; intros [| c s] Hl; cbn in *;
    auto; try lia.
  apply IH. lia.
Qed.

Lemma take_drop n s : String.append (substring 0 n s) (drop n s) = s.
Proof.
  revert s; induction n as [| n IH]; intros [| c s]; cbn; auto.
  rewrite IH. reflexivity.
Qed.

Lemma substring_drop i m s : substring i m s = substring 0 m (drop i s).
Proof.
  revert s; induction i as [| i IH]; intros [| c s]; cbn; auto.
  destruct m; reflexivity.
Qed.

(** [s[i:] == s[i:j] + s[j:]] for [i <= j]. *)
Lemma slice_drop s i j :
  i <= j -> String.append (slice s i j) (drop j s) = drop i s.
Proof.
  intros Hij. unfold slice. rewrite substring_drop.
  replace (drop j s) with (drop (j - i) (drop i s))
    by (rewrite drop_add; f_equal; lia).
  apply take_drop.
Qed.

Lemma is_prefix_split pat : forall s,
  is_prefix pat s = true -> s = String.append pat (drop (len pat) s).
Proof.
  induction pat as [| a pat IH]; intros s Hp; [reflexivity |].
  destruct s as [| b s]; cbn [is_prefix] in Hp; [discriminate |].
  apply andb_true_iff in Hp as [Hab Hp]. apply Ascii.eqb_eq in Hab. subst b.
  cbn. f_equal. apply IH, Hp.
Qed.

Lemma is_prefix_len pat : forall s, is_prefix pat s = true -> len pat <= len s.
Proof.
  unfold len. induction pat as [| a pat IH]; intros s Hp; cbn; [lia |].
  destruct s as [| b s]; cbn [is_prefix] in Hp; [discriminate |].
  apply andb_true_iff in Hp as [_ Hp]. apply IH in Hp. cbn. lia.
Qed.

(** [s[i:] == pat + s[i+len(pat):]] where [s.startswith(pat, i)]. *)
Lemma startswith_split s pat i :
  startswith s pat i = true ->
  drop i s = String.append pat (drop (i + len pat) s).
Proof.
  intros Hs. apply startswith_true in Hs as [_ Hp].
  rewrite <- drop_add. apply is_prefix_split, Hp.
Qed.

Lemma star_free_get s : star_free s = true -> forall m, get s m <> Some "*"%char.
Proof.
  unfold star_free, get. induction s as [| c s IH]; intros Hs m;
    [destruct m; discriminate |].
  cbn [all_chars] in Hs. apply andb_true_iff in Hs as [Hc Hs].
  destruct m as [| m]; cbn.
  - intros Heq. injection Heq as ->. discriminate.
  - apply IH, Hs.
Qed.

End PyStrSlices.

(** ** Tokenizer: what it keeps, and when it ends *)

Section TokenizerExtras.
Import PyStr PyStrFacts PyStrSlices.

Lemma detokenize_app runs r :
  detokenize (runs ++ [r]) = String.append (detokenize runs) (render_run r).
Proof.
  induction runs as [| x runs IH]; cbn [detokenize app fold_right].
  - apply append_nil_r.
  - fold (detokenize (runs ++ [r])). fold (detokenize runs).
    rewrite IH, append_assoc. reflexivity.
Qed.

Lemma scan_normal_ge text : forall fuel j, j <= scan_normal fuel text j.
Proof.
  induction fuel as [| fuel IH]; intros j; cbn [scan_normal]; [lia |].
  destruct (_ && _); [specialize (IH (S j)); lia | lia].
Qed.

(** A pass of the scan does not move back, stays within the text, and
    what it appends is the text it has passed over, markers
    included. *)
Lemma tokenize_step_keeps text i runs i' runs' :
  i < len text ->
  tokenize_step text i runs = (i', runs') ->
  i <= i' <= len text
  /\ String.append (detokenize runs') (drop i' text)
     = String.append (detokenize runs) (drop i text).
Proof.
  intros Hlt. unfold tokenize_step.
  destruct (startswith text "**" i) eqn:H2.
  - destruct (find text "**" (i + 2)) as [j |] eqn:Hf.
    + intros Hs. injection Hs as <- <-.
      apply find_some_iff in Hf as (Hij & Hj & _).
      pose proof (proj1 (startswith_true _ _ _) Hj) as [Hjl Hjp].
      assert (Hj2 : j + 2 <= len text).
      { apply is_prefix_len in Hjp. rewrite len_drop in Hjp.
        cbn [len String.length] in Hjp. unfold len in *. lia. }
      split; [lia |].
      rewrite detokenize_app, append_assoc. f_equal.
      unfold render_run; cbn [fst snd].
      rewrite (startswith_split _ _ _ H2).
      cbn [len String.length].
      rewrite <- (slice_drop text (i + 2) j Hij), (startswith_split _ _ _ Hj).
      cbn [len String.length]. rewrite !append_assoc. reflexivity.
    + (* no closing "**": the one-star case *)
      pose proof (startswith_2star_star _ _ H2) as Hstar.
      apply startswith_star in Hstar. rewrite Hstar.
      destruct (find text "*" (i + 1)) as [j |] eqn:Hf1.
      * intros Hs. injection Hs as <- <-.
        apply find_some_iff in Hf1 as (Hij & Hj & _).
        pose proof (proj1 (startswith_star _ _) Hj) as Hg.
        apply get_some_lt in Hg. split; [lia |].
        rewrite detokenize_app, append_assoc. f_equal.
        unfold render_run; cbn [fst snd].
        rewrite (startswith_split _ _ _ Hstar).
        cbn [len String.length].
        rewrite <- (slice_drop text (i + 1) j Hij), (startswith_split _ _ _ Hj).
        cbn [len String.length]. rewrite !append_assoc. reflexivity.
      * intros Hs. injection Hs as <- <-.
        pose proof (scan_normal_ge text (len text) i) as Hge.
        destruct (scan_normal_spec text (len text) i) as (Hr & _ & _); try lia.
        split; [lia |].
        rewrite detokenize_app, append_assoc. f_equal.
        unfold render_run; cbn [fst snd]. apply slice_drop. lia.
  - destruct (startswith text "*" i) eqn:H1.
    + destruct (find text "*" (i + 1)) as [j |] eqn:Hf1.
      * intros Hs. injection Hs as <- <-.
        apply find_some_iff in Hf1 as (Hij & Hj & _).
        pose proof (proj1 (startswith_star _ _) Hj) as Hg.
        apply get_some_lt in Hg. split; [lia |].
        rewrite detokenize_app, append_assoc. f_equal.
        unfold render_run; cbn [fst snd].
        rewrite (startswith_split _ _ _ H1).
        cbn [len String.length].
        rewrite <- (slice_drop text (i + 1) j Hij), (startswith_split _ _ _ Hj).
        cbn [len String.length]. rewrite !append_assoc. reflexivity.
      * intros Hs. injection Hs as <- <-.
        destruct (scan_normal_spec text (len text) i) as (Hr & _ & _); try lia.
        split; [lia |].
        rewrite detokenize_app, append_assoc. f_equal.
        unfold render_run; cbn [fst snd]. apply slice_drop. lia.
    + intros Hs. injection Hs as <- <-.
      destruct (scan_normal_spec text (len text) i) as (Hr & _ & _); try lia.
      split; [lia |].
      rewrite detokenize_app, append_assoc. f_equal.
      unfold render_run; cbn [fst snd]. apply slice_drop. lia.
Qed.

Lemma tokenize_loop_keeps text : forall fuel i runs r,
  tokenize_loop fuel text i runs = Ret r ->
  detokenize r = String.append (detokenize runs) (drop i text).
Proof.
  induction fuel as [| fuel IH]; intros i runs r Hr;
    rewrite tokenize_loop_unfold in Hr;
    destruct (i <? len text) eqn:Hlt; try discriminate.
  - apply Nat.ltb_ge in Hlt. injection Hr as <-.
    rewrite drop_beyond by exact Hlt. symmetry; apply append_nil_r.
  - apply Nat.ltb_lt in Hlt.
    destruct (tokenize_step text i runs) as [i' runs'] eqn:Hs.
    apply (tokenize_step_keeps _ _ _ _ _ Hlt) in Hs as [_ Hk].
    rewrite <- Hk. apply IH, Hr.
  - apply Nat.ltb_ge in Hlt. injection Hr as <-.
    rewrite drop_beyond by exact Hlt. symmetry; apply append_nil_r.
Qed.

(** X1. Whenever the tokenizer returns, its runs give the text back
    once the markers of the bold and italic runs are written around
    them again: no character of the text is lost or invented. *)
Theorem tokenize_md_lossless :
  forall fuel text runs,
    tokenize_md fuel text = Ret runs -> detokenize runs = text.
Proof.
  intros fuel text runs Hr. unfold tokenize_md in Hr.
  apply tokenize_loop_keeps in Hr. exact Hr.
Qed.

Lemma tokenize_md_lossless_witness :
  detokenize [("x", italic); (" y ", normal); ("z", bold); ("w", normal)]
  = "*x* y **z**w".
Proof.
  apply (tokenize_md_lossless 4 "*x* y **z**w"). reflexivity.
Defined.

Lemma tokenize_loop_settles text : forall n i runs,
  len text <= i + n ->
  (exists r, tokenize_loop n text i runs = Ret r)
  \/ (forall fuel, tokenize_loop fuel text i runs = OutOfFuel).
Proof.
  induction n as [| n IH]; intros i runs Hn;
    rewrite tokenize_loop_unfold; destruct (i <? len text) eqn:Hlt;
    try (left; eexists; reflexivity).
  - apply Nat.ltb_lt in Hlt. lia.
  - apply Nat.ltb_lt in Hlt.
    destruct (tokenize_step text i runs) as [i' runs'] eqn:Hs.
    pose proof (tokenize_step_keeps _ _ _ _ _ Hlt Hs) as [[Hge _] _].
    destruct (Nat.eq_dec i' i) as [-> | Hne].
    + right. intros fuel. apply tokenize_stuck; [exact Hlt |].
      destruct (tokenize_step_shape text i runs) as [x Hx].
      rewrite Hs in Hx. injection Hx as Hi _. symmetry; exact Hi.
    + destruct (IH i' runs') as [Hret | Hnever]; [lia | left; exact Hret |].
      right. intros fuel. rewrite tokenize_loop_unfold.
      replace (i <? len text) with true by (symmetry; apply Nat.ltb_lt; exact Hlt).
      destruct fuel as [| fuel]; [reflexivity |]. rewrite Hs. apply Hnever.
Qed.

(** X2. The tokenizer has finished after [len(text)] passes, or it
    never finishes: each pass that is not repeated for ever moves at
    least one character on. *)
Theorem tokenize_md_settles :
  forall text,
    (exists runs, tokenize_md (len text) text = Ret runs)
    \/ (forall fuel, tokenize_md fuel text = OutOfFuel).
Proof.
  intros text. unfold tokenize_md. apply tokenize_loop_settles. lia.
Qed.

(** X3. A text without ["*"] comes back whole as one normal run, and
    the empty text as no run at all. *)
Theorem tokenize_md_star_free :
  forall fuel text,
    star_free text = true ->
    1 <= fuel ->
    tokenize_md fuel text
    = Ret (match text with
           | EmptyString => []
           | String _ _ => [(text, normal)]
           end).
Proof.
  intros fuel text Hsf Hfuel. destruct text as [| c s]; [destruct fuel; reflexivity |].
  set (text := String c s) in *.
  apply (tokenize_loop_mono text 1); [| exact Hfuel].
  rewrite tokenize_loop_unfold. cbn [len String.length Nat.ltb Nat.leb text].
  fold text.
  pose proof (star_free_get text Hsf) as Hns.
  assert (H2 : startswith text "**" 0 = false).
  { destruct (startswith text "**" 0) eqn:H2; [| reflexivity].
    apply startswith_2star_star in H2. elim (Hns 0 H2). }
  assert (H1 : startswith text "*" 0 = false).
  { destruct (startswith text "*" 0) eqn:H1; [| reflexivity].
    apply startswith_star in H1. elim (Hns 0 H1). }
  unfold tokenize_step. rewrite H2, H1.
  destruct (scan_normal_spec text (len text) 0) as (Hr & _ & [He | He]);
    try lia; [| elim (Hns _ He)].
  rewrite He. cbn [app].
  assert (Hsl : slice text 0 (len text) = text).
  { pose proof (slice_drop text 0 (len text) (Nat.le_0_l _)) as Hsd.
    rewrite drop_beyond, append_nil_r in Hsd by lia. exact Hsd. }
  rewrite Hsl. rewrite tokenize_loop_unfold.
  rewrite Nat.ltb_irrefl. reflexivity.
Qed.

Lemma tokenize_md_star_free_witness :
  tokenize_md 1 "Line one" = Ret [("Line one", normal)].
Proof.
  apply (tokenize_md_star_free 1 "Line one"); [reflexivity | lia].
Defined.

End TokenizerExtras.

(** ** Timestamp parser: what it returns *)

Section ParseTsExtras.
Import PyStr PyStrSlices.

(** X4. A timestamp that [parse_ts] reads is never negative. *)
Theorem parse_ts_nonnegative :
  forall ts n, parse_ts ts = Ret n -> (0 <= n)%Z.
Proof.
  intros ts n. unfold parse_ts.
  destruct (first_two (split "_" (replace ":" "_" ts))) as [m s].
  assert (Hc : forall w v,
             (if isdigit w then int w else Ret 0%Z) = Ret v -> (0 <= v)%Z).
  { intros w v. destruct (isdigit w); [| intros Hv; injection Hv as <-; lia].
    unfold int. destruct (_ <? _); [discriminate |].
    destruct (_ && _); [| discriminate].
    intros Hv; injection Hv as <-. apply decimal_value_nonneg. lia. }
  intros Hr. apply bind_ret_inv in Hr as (mv & Hm & Hr).
  apply bind_ret_inv in Hr as (sv & Hs & Hr). injection Hr as <-.
  apply Hc in Hm. apply Hc in Hs. lia.
Qed.

Lemma parse_ts_nonnegative_witness : (0 <= 90)%Z.
Proof. apply (parse_ts_nonnegative "1_30"). reflexivity. Defined.

Lemma replace_append a b s t :
  replace a b (String.append s t) = String.append (replace a b s) (replace a b t).
Proof. induction s as [| c s IH]; cbn; [reflexivity | rewrite IH; reflexivity]. Qed.

Lemma replace_decimal s :
  all_chars is_decimal_char s = true -> replace ":" "_" s = s.
Proof.
  induction s as [| c s IH]; cbn [all_chars replace]; [reflexivity |].
  intros Hs. apply andb_true_iff in Hs as [Hc Hs]. rewrite (IH Hs).
  destruct (Ascii.eqb c ":") eqn:Heq; [| reflexivity].
  apply Ascii.eqb_eq in Heq. subst c. discriminate.
Qed.

Lemma split_decimal s :
  all_chars is_decimal_char s = true -> split "_" s = [s].
Proof.
  induction s as [| c s IH]; cbn [all_chars split]; [reflexivity |].
  intros Hs. apply andb_true_iff in Hs as [Hc Hs]. rewrite (IH Hs).
  destruct (Ascii.eqb c "_") eqn:Heq; [| reflexivity].
  apply Ascii.eqb_eq in Heq. subst c. discriminate.
Qed.

Lemma split_decimal_sep s rest :
  all_chars is_decimal_char s = true ->
  split "_" (String.append s (String "_" rest)) = s :: split "_" rest.
Proof.
  induction s as [| c s IH]; cbn [all_chars split String.append]; [reflexivity |].
  intros Hs. apply andb_true_iff in Hs as [Hc Hs]. rewrite (IH Hs).
  destruct (Ascii.eqb c "_") eqn:Heq; [| reflexivity].
  apply Ascii.eqb_eq in Heq. subst c. discriminate.
Qed.

Lemma split_nonempty sep s : split sep s <> [].
Proof.
  destruct s as [| c s]; cbn [split]; [discriminate |].
  destruct (Ascii.eqb c sep); [discriminate |].
  destruct (split sep s); discriminate.
Qed.

Lemma decimal_is_digit s :
  all_chars is_decimal_char s = true -> all_chars is_digit_char s = true.
Proof.
  induction s as [| c s IH]; cbn [all_chars]; [reflexivity |].
  intros Hs. apply andb_true_iff in Hs as [Hc Hs].
  rewrite (IH Hs). unfold is_digit_char. rewrite Hc. reflexivity.
Qed.

Lemma component_decimal w :
  all_chars is_decimal_char w = true ->
  len w <= int_max_str_digits ->
  (if isdigit w then int w else Ret 0%Z) = Ret (decimal_value 0 w).
Proof.
  intros Hw Hl. rewrite (int_within_limit w Hl). unfold isdigit.
  rewrite Hw, (decimal_is_digit w Hw).
  destruct w; reflexivity.
Qed.

(** X5. Minutes and seconds written in decimal digits, each no
    longer than the 4300 digits that the interpreter converts, and
    separated by [":"] or ["_"] are read as [minutes * 60 + seconds];
    an empty component counts as 0, and whatever follows a second
    separator is ignored. *)
Theorem parse_ts_minutes_seconds :
  forall (m s tail : string) (sep : ascii),
    sep = ":"%char \/ sep = "_"%char ->
    all_chars is_decimal_char m = true ->
    all_chars is_decimal_char s = true ->
    len m <= 4300 ->
    len s <= 4300 ->
    tail = EmptyString
    \/ (exists sep' rest,
           (sep' = ":"%char \/ sep' = "_"%char) /\ tail = String sep' rest) ->
    parse_ts (String.append m (String sep (String.append s tail)))
    = Ret (decimal_value 0 m * 60 + decimal_value 0 s)%Z.
Proof.
  intros m s tail sep Hsep Hm Hs Hlm Hls Htail.
  change 4300 with int_max_str_digits in Hlm, Hls.
  unfold parse_ts.
  rewrite replace_append. cbn [replace].
  replace (if Ascii.eqb sep ":" then "_"%char else sep) with "_"%char
    by (destruct Hsep as [-> | ->]; reflexivity).
  rewrite replace_append, (replace_decimal m Hm), (replace_decimal s Hs).
  rewrite (split_decimal_sep m _ Hm).
  assert (Hsplit : exists more,
             split "_" (String.append s (replace ":" "_" tail)) = s :: more).
  { destruct Htail as [-> | (sep' & rest & Hsep' & ->)].
    - exists []. cbn [replace]. rewrite append_nil_r. apply split_decimal, Hs.
    - cbn [replace].
      replace (if Ascii.eqb sep' ":" then "_"%char else sep') with "_"%char
        by (destruct Hsep' as [-> | ->]; reflexivity).
      eexists. apply split_decimal_sep, Hs. }
  destruct Hsplit as [more ->].
  unfold first_two. cbn [app firstn].
  rewrite (component_decimal m Hm Hlm), (component_decimal s Hs Hls).
  reflexivity.
Qed.

Lemma parse_ts_minutes_seconds_witness :
  parse_ts "12:05_99" = Ret 725%Z.
Proof.
  apply (parse_ts_minutes_seconds "12" "05" "_99" ":").
  - left; reflexivity.
  - reflexivity.
  - reflexivity.
  - vm_compute; lia.
  - vm_compute; lia.
  - right. exists "_"%char, "99". split; [right; reflexivity | reflexivity].
Defined.

End ParseTsExtras.

(** ** Duration deriver: the length of the timeline *)

Section DurationExtras.

Lemma py_max_upper a b : (b <= py_max a b)%Q.
Proof.
  unfold py_max. destruct (Qle_bool b a) eqn:Hle; [| apply Qle_refl].
  apply Qle_bool_iff, Hle.
Qed.

Lemma py_max_unclamped a b : (a <= b)%Q -> (py_max a b == b)%Q.
Proof.
  intros Hab. unfold py_max. destruct (Qle_bool b a) eqn:Hle; [| reflexivity].
  apply Qle_bool_iff in Hle. apply Qle_antisym; assumption.
Qed.

(** The deriver, one slide at a time. *)
Lemma durations_from_timestamps_cons t t' rest audio_len :
  durations_from_timestamps (t :: t' :: rest) audio_len
  = py_max MIN_SLIDE_SEC (t' - t)
      :: durations_from_timestamps (t' :: rest) audio_len.
Proof.
  apply (nth_ext _ _ 0%Q 0%Q).
  - cbn [List.length].
    rewrite !durations_from_timestamps_map, !length_map, !length_enumerate.
    reflexivity.
  - intros i Hi.
    rewrite durations_from_timestamps_map, length_map, length_enumerate in Hi.
    rewrite durations_from_timestamps_nth by exact Hi.
    destruct i as [| i].
    + reflexivity.
    + cbn [nth]. cbn [List.length] in Hi.
      rewrite durations_from_timestamps_nth by (cbn [List.length]; lia).
      cbn [List.length]. rewrite !Nat.sub_succ, !Nat.sub_0_r.
      replace (S i <? S (List.length rest)) with (i <? List.length rest)
        by reflexivity.
      rewrite !Nat.add_1_r. reflexivity.
Qed.

Lemma durations_from_timestamps_one t audio_len :
  durations_from_timestamps [t] audio_len = [py_max MIN_SLIDE_SEC (audio_len - t)].
Proof. reflexivity. Qed.

Lemma durations_sum_lower audio_len : forall rest t,
  (audio_len - t <= Qsum (durations_from_timestamps (t :: rest) audio_len))%Q.
Proof.
  induction rest as [| t' rest IH]; intros t.
  - rewrite durations_from_timestamps_one. cbn [Qsum fold_right].
    pose proof (py_max_upper MIN_SLIDE_SEC (audio_len - t)). lra.
  - rewrite durations_from_timestamps_cons. cbn [Qsum fold_right].
    fold (Qsum (durations_from_timestamps (t' :: rest) audio_len)).
    pose proof (py_max_upper MIN_SLIDE_SEC (t' - t)).
    specialize (IH t'). lra.
Qed.

Lemma durations_sum_exact audio_len : forall rest t,
  (forall d, In d (durations_from_timestamps (t :: rest) audio_len) ->
             (MIN_SLIDE_SEC < d)%Q) ->
  (Qsum (durations_from_timestamps (t :: rest) audio_len) == audio_len - t)%Q.
Proof.
  assert (Hun : forall x, (MIN_SLIDE_SEC < py_max MIN_SLIDE_SEC x)%Q ->
                          (py_max MIN_SLIDE_SEC x == x)%Q).
  { intros x Hx. unfold py_max in *.
    destruct (Qle_bool x MIN_SLIDE_SEC); [| reflexivity].
    exfalso. apply (Qlt_irrefl _ Hx). }
  induction rest as [| t' rest IH]; intros t Hd.
  - rewrite durations_from_timestamps_one in *. cbn [Qsum fold_right].
    rewrite Hun; [lra | apply Hd; left; reflexivity].
  - rewrite durations_from_timestamps_cons in *. cbn [Qsum fold_right].
    fold (Qsum (durations_from_timestamps (t' :: rest) audio_len)).
    rewrite Hun by (apply Hd; left; reflexivity).
    rewrite IH by (intros d Hin; apply Hd; right; exact Hin). lra.
Qed.

(** X6. The slides together last at least from the first timestamp to
    the end of the audio track: flooring a duration makes the
    timeline longer, never shorter.  When no duration is floored (all
    are above [MIN_SLIDE_SEC]) the slides last exactly that long. *)
Theorem durations_cover_the_audio :
  forall (t0 : Q) (rest : list Q) (audio_len : Q),
    (audio_len - t0 <= Qsum (durations_from_timestamps (t0 :: rest) audio_len))%Q
    /\ ((forall d, In d (durations_from_timestamps (t0 :: rest) audio_len) ->
                   (MIN_SLIDE_SEC < d)%Q) ->
        (Qsum (durations_from_timestamps (t0 :: rest) audio_len)
         == audio_len - t0)%Q).
Proof.
  intros t0 rest audio_len. split.
  - apply durations_sum_lower.
  - apply durations_sum_exact.
Qed.

Lemma durations_cover_the_audio_witness :
  (20 - 0 <= Qsum (durations_from_timestamps [0; 5; 12]%Q 20))%Q
  /\ (Qsum (durations_from_timestamps [0; 5; 12]%Q 20) == 20 - 0)%Q
  /\ (4 - 0 <= Qsum (durations_from_timestamps [0; 5]%Q 4))%Q.
Proof.
  split; [| split].
  - apply (proj1 (durations_cover_the_audio 0 [5; 12]%Q 20)).
  - apply (proj2 (durations_cover_the_audio 0 [5; 12]%Q 20)).
    intros d [<- | [<- | [<- | []]]]; reflexivity.
  - apply (proj1 (durations_cover_the_audio 0 [5]%Q 4)).
Defined.

End DurationExtras.

(** ** Word wrapper: the shape of the lines *)

Section WrapExtras.
Import PyStr.

Variable textlength : string -> font -> option Q.
Variable fonts : style -> font.
Variable max_w : Z.

(** The body of the two nested loops, on a token with its style. *)
Local Abbreviation wrap_pair :=
  (fun (s : wrap_state) (p : string * style) =>
     wrap_token textlength fonts max_w (snd p) s (fst p)).

Lemma bind_ext {A B : Type} (m : outcome A) (k k' : A -> outcome B) :
  (forall a, k a = k' a) -> bind m k = bind m k'.
Proof. intros Hk. destruct m; cbn; auto. Qed.

Lemma foldM_app {A S : Type} (f : S -> A -> outcome S) : forall xs ys s,
  foldM f (xs ++ ys) s = bind (foldM f xs s) (foldM f ys).
Proof.
  induction xs as [| x xs IH]; intros ys s; cbn [foldM app bind]; [reflexivity |].
  destruct (f s x) as [s1 | e |]; cbn [bind]; [apply IH | reflexivity ..].
Qed.

Lemma wrap_tokens_flat st : forall toks s,
  foldM (wrap_token textlength fonts max_w st) toks s
  = foldM wrap_pair (map (fun tok => (tok, st)) toks) s.
Proof.
  induction toks as [| tok toks IH]; intros s; cbn [foldM map]; [reflexivity |].
  cbn [fst snd]. apply bind_ext. exact IH.
Qed.

(** The two nested loops are one loop over the tokens of the runs. *)
Lemma wrap_runs_flat : forall runs s,
  foldM (wrap_run textlength fonts max_w) runs s
  = foldM wrap_pair (tagged_tokens runs) s.
Proof.
  induction runs as [| [txt st] runs IH]; intros s; [reflexivity |].
  cbn [foldM tagged_tokens flat_map fst snd].
  fold (tagged_tokens runs). rewrite foldM_app.
  unfold wrap_run at 1. rewrite wrap_tokens_flat.
  apply bind_ext. exact IH.
Qed.

Lemma foldM_invariant {A S : Type} (f : S -> A -> outcome S) (P : S -> Prop) :
  (forall s x s', P s -> f s x = Ret s' -> P s') ->
  forall xs s s', P s -> foldM f xs s = Ret s' -> P s'.
Proof.
  intros Hstep. induction xs as [| x xs IH]; intros s s' Hs Hr; cbn [foldM] in Hr.
  - injection Hr as <-. exact Hs.
  - apply bind_ret_inv in Hr as (s1 & H1 & H2).
    apply (IH s1 s' (Hstep _ _ _ Hs H1) H2).
Qed.

(** X7. Of the lines that [wrap_rich] returns only the first can be
    empty, and only when other lines follow it: a line is closed
    empty only at the very start, when the first token is too wide
    and is not whitespace. *)
Theorem wrap_rich_empty_line_only_first :
  forall (runs : list run) (l0 : line) (rest : list line),
    wrap_rich textlength runs fonts max_w = Ret (l0 :: rest) ->
    Forall (fun l => l <> []) rest /\ (rest = [] -> l0 <> []).
Proof.
  intros runs l0 rest Hr. unfold wrap_rich in Hr.
  apply bind_ret_inv in Hr as ([[lines cur] w] & Hf & Hr).
  rewrite wrap_runs_flat in Hf.
  assert (Hinv : (lines <> [] -> cur <> [])
                 /\ Forall (fun l : line => l <> []) (tl lines)).
  { apply (foldM_invariant wrap_pair
             (fun s : wrap_state =>
                (fst (fst s) <> [] -> snd (fst s) <> [])
                /\ Forall (fun l : line => l <> []) (tl (fst (fst s))))
             ) with (xs := tagged_tokens runs) (s := ([], [], 0%Q))
                    (s' := (lines, cur, w)); [| split; [intros H; elim H; reflexivity | constructor] | exact Hf].
    clear. intros [[lines cur] w] [tok st] s' [Hc Hl]. cbn [fst snd] in *.
    unfold wrap_token.
    destruct (seg_w textlength fonts tok st) as [wt | e |]; cbn [bind];
      try discriminate.
    destruct (_ || _); intros Hs; injection Hs as <-; cbn [fst snd].
    - split; [intros _; destruct cur; discriminate | exact Hl].
    - split; [intros _; discriminate |].
      destruct lines as [| l lines]; cbn [app tl]; [constructor |].
      cbn [tl] in Hl. apply Forall_app. split; [exact Hl |].
      constructor; [apply Hc; discriminate | constructor]. }
  destruct Hinv as [Hc Hl].
  destruct cur as [| x cur]; cbn [is_nil] in Hr; injection Hr as Hr.
  - subst lines. exfalso. apply Hc; [discriminate | reflexivity].
  - destruct lines as [| l lines]; cbn [app] in Hr.
    + injection Hr as <- <-. split; [constructor | intros _; discriminate].
    + injection Hr as <- <-. cbn [tl] in Hl. split.
      * apply Forall_app. split; [exact Hl |].
        constructor; [discriminate | constructor].
      * intros Hnil. destruct lines; discriminate.
Qed.

Lemma line_width_app wd (l : line) x :
  (line_width wd (l ++ [x]) == line_width wd l + wd (fst x) (snd x))%Q.
Proof.
  induction l as [| y l IH]; cbn [line_width app fold_right].
  - lra.
  - fold (line_width wd (l ++ [x])). fold (line_width wd l). rewrite IH. lra.
Qed.

(** Every measurement succeeds and gives the width [wd]. *)
Variable wd : string -> style -> Q.
Hypothesis seg_w_wd : forall tok st, seg_w textlength fonts tok st = Ret (wd tok st).

Lemma wrap_pair_measured lines cur cur_w tok st :
  wrap_pair (lines, cur, cur_w) (tok, st)
  = Ret (if Qle_bool (cur_w + wd tok st) (inject_Z max_w)
            || (isspace tok && is_nil cur)
         then (lines, cur ++ [(tok, st)], (cur_w + wd tok st)%Q)
         else (lines ++ [cur], [(tok, st)], wd tok st)).
Proof.
  cbn [fst snd]. unfold wrap_token. rewrite seg_w_wd. cbn [bind].
  destruct (_ || _); reflexivity.
Qed.

(** X8. A line of two or more tokens fits the width: in what
    [wrap_rich] returns only a line of a single token can be wider
    than [max_w]. *)
Theorem wrap_rich_lines_fit :
  forall (runs : list run) (lines : list line),
    wrap_rich textlength runs fonts max_w = Ret lines ->
    forall l, In l lines -> 2 <= List.length l ->
              (line_width wd l <= inject_Z max_w)%Q.
Proof.
  intros runs lines Hr. unfold wrap_rich in Hr.
  apply bind_ret_inv in Hr as ([[ls cur] w] & Hf & Hr).
  rewrite wrap_runs_flat in Hf.
  set (fits := fun l : line =>
                 2 <= List.length l -> (line_width wd l <= inject_Z max_w)%Q).
  assert (Hinv : (w == line_width wd cur)%Q
                 /\ (2 <= List.length cur -> (w <= inject_Z max_w)%Q)
                 /\ Forall fits ls).
  { apply (foldM_invariant wrap_pair
             (fun s : wrap_state =>
                (snd s == line_width wd (snd (fst s)))%Q
                /\ (2 <= List.length (snd (fst s)) -> (snd s <= inject_Z max_w)%Q)
                /\ Forall fits (fst (fst s))))
      with (xs := tagged_tokens runs) (s := ([], [], 0%Q)) (s' := (ls, cur, w));
      [| cbn [fst snd List.length line_width fold_right];
         split; [reflexivity | split; [intros H2; lia | constructor]]
       | exact Hf].
    intros [[ls0 cur0] w0] [tok st] s' (Hw & Hc & Hl). cbn [fst snd] in Hw, Hc, Hl.
    rewrite wrap_pair_measured.
    destruct (Qle_bool (w0 + wd tok st) (inject_Z max_w)) eqn:Hle; cbn [orb].
    - intros Hs; injection Hs as <-. cbn [fst snd]. repeat split.
      + rewrite line_width_app. cbn [fst snd]. rewrite Hw. reflexivity.
      + intros _. apply Qle_bool_iff, Hle.
      + exact Hl.
    - destruct (isspace tok && is_nil cur0) eqn:Hsp.
      + intros Hs; injection Hs as <-. cbn [fst snd].
        apply andb_true_iff in Hsp as [_ Hnil].
        destruct cur0; [| discriminate]. repeat split.
        * cbn [app line_width fold_right fst snd].
          cbn [line_width fold_right] in Hw. rewrite Hw. lra.
        * cbn [app List.length]. lia.
        * exact Hl.
      + intros Hs; injection Hs as <-. cbn [fst snd]. repeat split.
        * cbn [line_width fold_right fst snd]. lra.
        * cbn [List.length]. lia.
        * apply Forall_app. split; [exact Hl |].
          constructor; [| constructor]. intros H2. rewrite <- Hw. apply Hc, H2. }
  destruct Hinv as (Hw & Hc & Hl).
  injection Hr as <-. intros l Hin.
  assert (Hall : Forall fits (ls ++ [cur])).
  { apply Forall_app. split; [exact Hl |].
    constructor; [| constructor]. intros H2. rewrite <- Hw. apply Hc, H2. }
  destruct (is_nil cur).
  - rewrite Forall_forall in Hl. apply (Hl l Hin).
  - rewrite Forall_forall in Hall. apply (Hall l Hin).
Qed.

Lemma line_width_nonneg (l : line) :
  (forall p, In p l -> (0 <= wd (fst p) (snd p))%Q) -> (0 <= line_width wd l)%Q.
Proof.
  induction l as [| x l IH]; intros Hp; cbn [line_width fold_right]; [lra |].
  fold (line_width wd l).
  pose proof (Hp x (or_introl eq_refl)).
  assert (0 <= line_width wd l)%Q by (apply IH; intros p Hin; apply Hp; right; exact Hin).
  lra.
Qed.

Lemma wrap_pairs_one_line : forall (rest cur : line) (cur_w : Q),
  (cur_w == line_width wd cur)%Q ->
  (forall p, In p rest -> (0 <= wd (fst p) (snd p))%Q) ->
  (line_width wd cur + line_width wd rest <= inject_Z max_w)%Q ->
  exists w', foldM wrap_pair rest ([], cur, cur_w) = Ret ([], cur ++ rest, w')
             /\ (w' == line_width wd (cur ++ rest))%Q.
Proof.
  induction rest as [| [tok st] rest IH]; intros cur cur_w Hw Hpos Hfit.
  - exists cur_w. cbn [foldM]. rewrite app_nil_r. split; [reflexivity | exact Hw].
  - cbn [foldM]. rewrite wrap_pair_measured.
    cbn [line_width fold_right fst snd] in Hfit.
    fold (line_width wd rest) in Hfit.
    assert (Hrest : (0 <= line_width wd rest)%Q).
    { apply line_width_nonneg. intros p Hin. apply Hpos. right; exact Hin. }
    replace (Qle_bool (cur_w + wd tok st) (inject_Z max_w)) with true.
    2:{ symmetry. apply Qle_bool_iff. rewrite Hw. lra. }
    cbn [orb bind].
    destruct (IH (cur ++ [(tok, st)]) (cur_w + wd tok st)%Q) as (w' & Hf & Hw').
    + rewrite line_width_app. cbn [fst snd]. rewrite Hw. reflexivity.
    + intros p Hin. apply Hpos. right; exact Hin.
    + rewrite line_width_app. cbn [fst snd]. lra.
    + exists w'. rewrite <- app_assoc in Hf, Hw'. cbn [app] in Hf, Hw'.
      split; [exact Hf | exact Hw'].
Qed.

(** X9. Text that fits is not broken: when no token has a negative
    width and the widths of all tokens together are within [max_w],
    [wrap_rich] returns one line that holds every token in order (and
    no line when there is no token). *)
Theorem wrap_rich_single_line :
  forall (runs : list run),
    (forall p, In p (tagged_tokens runs) -> (0 <= wd (fst p) (snd p))%Q) ->
    (line_width wd (tagged_tokens runs) <= inject_Z max_w)%Q ->
    wrap_rich textlength runs fonts max_w
    = Ret (match tagged_tokens runs with
           | [] => []
           | _ :: _ => [tagged_tokens runs]
           end).
Proof.
  intros runs Hpos Hfit. unfold wrap_rich. rewrite wrap_runs_flat.
  destruct (wrap_pairs_one_line (tagged_tokens runs) [] 0%Q) as (w' & Hf & _).
  - cbn. lra.
  - exact Hpos.
  - cbn [line_width fold_right]. lra.
  - match goal with
    | |- bind ?m _ = _ =>
        assert (Hm : m = Ret ([], [] ++ tagged_tokens runs, w')) by exact Hf;
        rewrite Hm
    end.
    cbn [bind app]. destruct (tagged_tokens runs); reflexivity.
Qed.

End WrapExtras.

Lemma wrap_rich_empty_line_only_first_witness :
  Forall (fun l : line => l <> []) [[("abc", normal)]].
Proof.
  apply (proj1 (wrap_rich_empty_line_only_first sample_textlength
                  (sample_fontset 20) 10 [("abc", normal)] []
                  [[("abc", normal)]] eq_refl)).
Defined.

Lemma wrap_rich_lines_fit_witness :
  (line_width (fun t _ => inject_Z (Z.of_nat (PyStr.len t)) * 20 * (1 # 2))
     [("ab", normal); (" ", normal)] <= 30)%Q.
Proof.
  apply (wrap_rich_lines_fit sample_textlength (sample_fontset 20) 30
           (fun t _ => inject_Z (Z.of_nat (PyStr.len t)) * 20 * (1 # 2))%Q
           (fun tok st => match st with normal | bold | italic => eq_refl end)
           [("ab cd", normal)]
           [[("ab", normal); (" ", normal)]; [("cd", normal)]]
           eq_refl).
  - left; reflexivity.
  - cbn; lia.
Defined.

Lemma wrap_rich_single_line_witness :
  wrap_rich sample_textlength [("Hello ", normal); ("world", bold)]
    (sample_fontset 20) 542
  = Ret [[("Hello", normal); (" ", normal); ("world", bold)]].
Proof.
  apply (wrap_rich_single_line sample_textlength (sample_fontset 20) 542
           (fun t _ => inject_Z (Z.of_nat (PyStr.len t)) * 20 * (1 # 2))%Q
           (fun tok st => match st with normal | bold | italic => eq_refl end)
           [("Hello ", normal); ("world", bold)]).
  - intros p [<- | [<- | [<- | []]]]; cbn; discriminate.
  - cbn. discriminate.
Defined.

(** ** Auto-fit layout: termination, sizes, centring *)

Section LayoutExtras.

Variables FONT_REG FONT_BOLD FONT_ITAL : option string.
Variable load_default : font.
Variable textlength : string -> font -> option Q.

Local Abbreviation pass :=
  (layout_pass FONT_REG FONT_BOLD FONT_ITAL load_default textlength).
Local Abbreviation loop :=
  (layout_loop FONT_REG FONT_BOLD FONT_ITAL load_default textlength).
Local Abbreviation column :=
  (layout_right_column FONT_REG FONT_BOLD FONT_ITAL load_default textlength).

Lemma tokenize_md_more_fuel n0 fuel text runs :
  tokenize_md n0 text = Ret runs -> n0 <= fuel ->
  tokenize_md fuel text = Ret runs.
Proof. intros Hr Hn. apply (tokenize_loop_mono _ _ _ _ _ Hr _ Hn). Qed.

Lemma layout_blocks_more_fuel n0 fuel fonts lh iw :
  n0 <= fuel ->
  forall raws acc acc',
    foldM (layout_block textlength n0 fonts lh iw) raws acc = Ret acc' ->
    foldM (layout_block textlength fuel fonts lh iw) raws acc = Ret acc'.
Proof.
  intros Hn. induction raws as [| raw raws IH]; intros acc acc' Hr;
    cbn [foldM] in *; [exact Hr |].
  apply bind_ret_inv in Hr as (acc1 & H1 & H2).
  assert (H1' : layout_block textlength fuel fonts lh iw acc raw = Ret acc1).
  { destruct acc as [bs h]. unfold layout_block in *.
    apply bind_ret_inv in H1 as (runs & Hruns & H1).
    rewrite (tokenize_md_more_fuel _ _ _ _ Hruns Hn). exact H1. }
  rewrite H1'. cbn [bind]. apply (IH _ _ H2).
Qed.

(** More fuel for the tokenizer does not change what a pass
    returns. *)
Lemma layout_pass_more_fuel n0 fuel iw ih explanation raw_lines es ls p :
  n0 <= fuel ->
  pass n0 iw ih explanation raw_lines es ls = Ret p ->
  pass fuel iw ih explanation raw_lines es ls = Ret p.
Proof.
  intros Hn Hp. unfold layout_pass in *.
  apply bind_ret_inv in Hp as (runs & Hruns & Hp).
  rewrite (tokenize_md_more_fuel _ _ _ _ Hruns Hn). cbn [bind].
  apply bind_ret_inv in Hp as (ew & Hew & Hp). rewrite Hew. cbn [bind].
  apply bind_ret_inv in Hp as (acc & Hb & Hp).
  rewrite (layout_blocks_more_fuel _ _ _ _ _ Hn _ _ _ Hb). exact Hp.
Qed.

(** More passes, and more fuel for the tokenizer, do not change what
    the loop returns. *)
Lemma layout_loop_more_fuel n0 tfuel iw ih explanation raw_lines :
  n0 <= tfuel ->
  forall k es ls r,
    loop k n0 iw ih explanation raw_lines es ls = Ret r ->
    forall fuel, k <= fuel ->
      loop fuel tfuel iw ih explanation raw_lines es ls = Ret r.
Proof.
  intros Hn. induction k as [| k IH]; intros es ls r Hr fuel Hk;
    [discriminate |].
  destruct fuel as [| fuel]; [lia |].
  cbn [layout_loop] in *. apply bind_ret_inv in Hr as (p & Hp & Hr).
  rewrite (layout_pass_more_fuel _ _ _ _ _ _ _ _ _ Hn Hp). cbn [bind].
  destruct (layout_done ih p); [exact Hr |].
  apply (IH _ _ _ Hr). lia.
Qed.

(** X10. Where the tokenizer returns within [n0] passes on the
    explanation and on each line used, the regular font is loaded
    from a file and the base size is at least 2, so that every font
    is made at a positive size, the loop of [layout_right_column]
    returns within as many passes as the two initial sizes are above
    the minimum, plus one; [layout_right_column] returns that layout
    with any fuel that covers these passes and those of the
    tokenizer, and the sizes it returns are positive. *)
Theorem layout_right_column_terminates :
  forall n0 iw ih explanation raw_lines base_size,
    FONT_REG <> None ->
    (2 <= base_size)%Z ->
    (exists runs, tokenize_md n0 explanation = Ret runs) ->
    Forall (fun raw => exists runs, tokenize_md n0 raw = Ret runs)
           (firstn MAX_LINES raw_lines) ->
    exists r,
      layout_loop FONT_REG FONT_BOLD FONT_ITAL load_default textlength
        (S (shrink_distance (int_scale base_size 1)
                            (int_scale base_size (90 # 100))))
        n0 iw ih explanation raw_lines
        (int_scale base_size 1) (int_scale base_size (90 # 100)) = Ret r
      /\ (forall fuel,
            n0 <= fuel ->
            shrink_distance (int_scale base_size 1)
                            (int_scale base_size (90 # 100)) < fuel ->
            layout_right_column
              FONT_REG FONT_BOLD FONT_ITAL load_default textlength
              fuel iw ih explanation raw_lines base_size = Ret r)
      /\ (0 < expl_size r /\ 0 < lines_size r)%Z.
Proof.
  intros n0 iw ih explanation raw_lines base_size Hreg Hbase He Hraws.
  destruct (layout_loop_returns FONT_REG FONT_BOLD FONT_ITAL load_default
              textlength n0 iw ih explanation raw_lines Hreg He Hraws
              (S (shrink_distance (int_scale base_size 1)
                                  (int_scale base_size (90 # 100))))
              (int_scale base_size 1) (int_scale base_size (90 # 100))
              (Nat.lt_succ_diag_r _)) as [r Hr].
  exists r. split; [exact Hr |]. split.
  - intros fuel Hn Hd. unfold layout_right_column.
    apply (layout_loop_more_fuel n0 fuel iw ih explanation raw_lines Hn
             _ _ _ _ Hr fuel). lia.
  - apply layout_loop_sizes in Hr as (Hes & Hls & _).
    rewrite int_scale_one in Hes. rewrite int_scale_quot in Hls.
    assert (1 <= base_size * 90 ÷ 100)%Z
      by (apply Z.quot_le_lower_bound; lia).
    unfold min_size in *. lia.
Qed.

(** X11. The first pass is the last one when its content fits the
    box, and also when the base size is at most the minimum: the
    layout returned is that of the first pass, with the sizes
    [base_size] and [int(0.9 * base_size)], which are not raised to
    the minimum. *)
Theorem layout_right_column_first_pass :
  forall fuel iw ih explanation raw_lines base_size p,
    layout_pass FONT_REG FONT_BOLD FONT_ITAL load_default textlength
        (S fuel) iw ih explanation raw_lines
      (int_scale base_size 1) (int_scale base_size (90 # 100)) = Ret p ->
    (total_h p <= ih \/ base_size <= min_size)%Z ->
    layout_right_column FONT_REG FONT_BOLD FONT_ITAL load_default textlength
        (S fuel) iw ih explanation raw_lines base_size = Ret p
    /\ expl_size p = base_size
    /\ lines_size p = (base_size * 90 ÷ 100)%Z.
Proof.
  intros fuel iw ih explanation raw_lines base_size p Hp Hstop.
  destruct (layout_loop_stops FONT_REG FONT_BOLD FONT_ITAL load_default
              textlength fuel (S fuel) iw ih explanation raw_lines _ _ p Hp)
    as (Hr & He & Hl).
  - destruct Hstop as [Hfit | Hbase]; [left; exact Hfit | right].
    rewrite int_scale_one, int_scale_quot. split; [exact Hbase |].
    unfold min_size in *. apply Z.quot_le_upper_bound; lia.
  - split; [exact Hr |]. rewrite He, Hl, int_scale_one, int_scale_quot.
    split; reflexivity.
Qed.

(** X12. The sizes returned are never above the initial ones, unless
    those were below the minimum, and never below the minimum of 12
    when the initial ones were not; with a base size that is not
    negative the lines are never set larger than the explanation. *)
Theorem layout_right_column_sizes :
  forall fuel iw ih explanation raw_lines base_size r,
    layout_right_column FONT_REG FONT_BOLD FONT_ITAL load_default textlength
        fuel iw ih explanation raw_lines base_size = Ret r ->
    (Z.min base_size 12 <= expl_size r <= Z.max base_size 12
     /\ Z.min (base_size * 90 ÷ 100) 12 <= lines_size r
        <= Z.max (base_size * 90 ÷ 100) 12
     /\ (0 <= base_size -> lines_size r <= expl_size r))%Z.
Proof.
  intros fuel iw ih explanation raw_lines base_size r Hr.
  unfold layout_right_column in Hr. apply layout_loop_sizes in Hr.
  rewrite int_scale_one, int_scale_quot in Hr. unfold min_size in Hr.
  destruct Hr as (He & Hl & Hord). repeat split; try lia.
  intros Hb. apply Hord.
  apply Z.quot_le_upper_bound; lia.
Qed.

(** X13. The block is centred in the box when it fits and starts at
    the top of the box when it does not: the offset is never
    negative, the block then ends within the box, and the space
    above it is the space below it, or one pixel less. *)
Theorem layout_right_column_centred :
  forall fuel iw ih explanation raw_lines base_size r,
    layout_right_column FONT_REG FONT_BOLD FONT_ITAL load_default textlength
        fuel iw ih explanation raw_lines base_size = Ret r ->
    (0 <= start_y r
     /\ (total_h r <= ih ->
         start_y r + total_h r <= ih
         /\ start_y r <= ih - (start_y r + total_h r) <= start_y r + 1)
     /\ (ih < total_h r -> start_y r = 0))%Z.
Proof.
  intros fuel iw ih explanation raw_lines base_size r Hr.
  unfold layout_right_column in Hr.
  apply layout_loop_exit in Hr as (_ & es & ls & Hp).
  apply layout_pass_result in Hp as (_ & _ & _ & _ & Hy & _).
  pose proof (Z.div_mod (ih - total_h r) 2 ltac:(lia)) as Hdm.
  pose proof (Z.mod_pos_bound (ih - total_h r) 2 ltac:(lia)) as Hmod.
  rewrite Hy. repeat split; intros; lia.
Qed.

(** X14. [render_slide_image] lays the right column out as
    [layout_right_column] does on the box of 542 by 452 pixels, the
    vertical offset being counted from the top of the image instead
    of the top of the box: computing the layout a second time at the
    final sizes changes nothing. *)
Theorem render_slide_image_layout_is_layout_right_column :
  forall fuel explanation lines_right base_size,
    (RIGHT_W - 2 * PADDING = 542 /\ H - 2 * PADDING = 452)%Z
    /\ render_slide_image_layout FONT_REG FONT_BOLD FONT_ITAL load_default
         textlength fuel explanation lines_right base_size
       = (r <- layout_right_column
           FONT_REG FONT_BOLD FONT_ITAL load_default textlength
           fuel 542 452 explanation lines_right base_size ;;
          Ret (with_start_y r (PADDING + start_y r))).
Proof.
  intros fuel explanation lines_right base_size. split; [split; reflexivity |].
  unfold render_slide_image_layout.
  change (RIGHT_W - 2 * PADDING)%Z with 542%Z.
  change (H - 2 * PADDING)%Z with 452%Z.
  destruct (column fuel 542 452 explanation lines_right base_size)
    as [r | e |] eqn:Hr; cbn [bind]; try reflexivity.
  unfold layout_right_column in Hr.
  apply layout_loop_exit in Hr as (_ & es & ls & Hp).
  pose proof Hp as Hq.
  apply layout_pass_result in Hq as (He & Hl & _ & _ & Hy & _).
  rewrite He, Hl, Hp. cbn [bind]. unfold with_start_y. rewrite Hy. reflexivity.
Qed.

End LayoutExtras.

Lemma layout_right_column_terminates_witness :
  exists r,
    layout_right_column sample_regular sample_bold sample_oblique sample_default
      sample_textlength 15 100 60 "Hello **world** and more words here"
      ["Line one"; "Line two"] 20 = Ret r
    /\ (0 < expl_size r /\ 0 < lines_size r)%Z.
Proof.
  destruct (layout_right_column_terminates sample_regular sample_bold
              sample_oblique sample_default sample_textlength 3 100 60
              "Hello **world** and more words here" ["Line one"; "Line two"] 20)
    as (r & _ & Hcol & Hpos).
  - discriminate.
  - lia.
  - eexists; reflexivity.
  - repeat constructor; eexists; reflexivity.
  - exists r. split; [| exact Hpos]. apply Hcol; [lia | vm_compute; lia].
Defined.

Lemma layout_right_column_first_pass_witness :
  exists p,
    layout_right_column sample_regular sample_bold sample_oblique sample_default
      sample_textlength 2 542 452 "Hello **world**" ["Line one"; "Line two"] 20
    = Ret p
    /\ expl_size p = 20%Z /\ lines_size p = (20 * 90 ÷ 100)%Z.
Proof.
  destruct (layout_pass sample_regular sample_bold sample_oblique sample_default
              sample_textlength 2 542 452 "Hello **world**"
              ["Line one"; "Line two"] (int_scale 20 1) (int_scale 20 (90 # 100)))
    as [p | e |] eqn:Hp; [| vm_compute in Hp; discriminate Hp ..].
  exists p.
  apply (layout_right_column_first_pass sample_regular sample_bold sample_oblique
           sample_default sample_textlength 1 542 452 "Hello **world**"
           ["Line one"; "Line two"] 20 p Hp).
  left. vm_compute in Hp. injection Hp as <-. vm_compute. discriminate.
Defined.

Lemma layout_right_column_sizes_witness :
  exists r,
    layout_right_column sample_regular sample_bold sample_oblique sample_default
      sample_textlength 7 100 60 "Hello **world** and more words here"
      ["Line one"; "Line two"] 20 = Ret r
    /\ (12 <= expl_size r <= 20 /\ 12 <= lines_size r <= 18)%Z.
Proof.
  destruct (layout_right_column sample_regular sample_bold sample_oblique
              sample_default sample_textlength 7 100 60
              "Hello **world** and more words here"
              ["Line one"; "Line two"] 20) as [r | e |] eqn:Hr;
    [| vm_compute in Hr; discriminate Hr ..].
  exists r. split; [reflexivity |].
  destruct (layout_right_column_sizes sample_regular sample_bold sample_oblique
              sample_default sample_textlength _ _ _ _ _ _ r Hr)
    as (He & Hl & _).
  change (20 * 90 ÷ 100)%Z with 18%Z in Hl.
  repeat split; lia.
Defined.

Lemma layout_right_column_centred_witness :
  exists r,
    layout_right_column sample_regular sample_bold sample_oblique sample_default
      sample_textlength 2 542 452 "Hello **world**" ["Line one"; "Line two"] 20
    = Ret r
    /\ (0 <= start_y r)%Z.
Proof.
  destruct (layout_right_column sample_regular sample_bold sample_oblique
              sample_default sample_textlength 2 542 452 "Hello **world**"
              ["Line one"; "Line two"] 20) as [r | e |] eqn:Hr;
    [| vm_compute in Hr; discriminate Hr ..].
  exists r. split; [reflexivity |].
  apply (layout_right_column_centred sample_regular sample_bold sample_oblique
           sample_default sample_textlength _ _ _ _ _ _ r Hr).
Defined.

(** ** Easing and the positions of the layers *)

Section EasingFacts.

Lemma cube_le a b : (0 <= b <= a -> b * b * b <= a * a * a)%Q.
Proof.
  intros Hab.
  assert (H1 : (b * b <= a * a)%Q) by nra.
  assert (H2 : (0 <= b * b)%Q) by nra.
  assert (H3 : (b * b * b <= a * a * b)%Q) by nra.
  assert (H4 : (a * a * b <= a * a * a)%Q) by nra.
  lra.
Qed.

(** [max(0.0, min(1.0, x))] is [x] brought into the interval from 0
    to 1. *)
Lemma clamp_cases x :
  let c := py_max 0 (py_min 1 x) in
  ((x <= 0 /\ c == 0) \/ (0 <= x <= 1 /\ c == x) \/ (1 <= x /\ c == 1))%Q.
Proof.
  unfold py_max, py_min.
  destruct (Qle_bool 1 x) eqn:H1.
  - apply Qle_bool_iff in H1. right; right. split; [exact H1 |].
    destruct (Qle_bool 1 0) eqn:H0; [discriminate | reflexivity].
  - assert (Hx1 : (x < 1)%Q).
    { apply Qnot_le_lt. intros Hle. apply Qle_bool_iff in Hle. congruence. }
    destruct (Qle_bool x 0) eqn:H0.
    + apply Qle_bool_iff in H0. left. split; [exact H0 | reflexivity].
    + assert (Hx0 : (0 < x)%Q).
      { apply Qnot_le_lt. intros Hle. apply Qle_bool_iff in Hle. congruence. }
      right; left. split; [lra | reflexivity].
Qed.

Lemma ease_out_cubic_value x c :
  (c == py_max 0 (py_min 1 x))%Q ->
  (ease_out_cubic x == 1 - (1 - c) * (1 - c) * (1 - c))%Q.
Proof.
  intros Hc. unfold ease_out_cubic. cbv zeta. rewrite <- Hc. reflexivity.
Qed.

Lemma ease_out_cubic_range x : (0 <= ease_out_cubic x <= 1)%Q.
Proof.
  rewrite (ease_out_cubic_value x _ (Qeq_refl _)).
  set (c := py_max 0 (py_min 1 x)).
  assert (Hc : (0 <= c <= 1)%Q).
  { subst c. destruct (clamp_cases x) as [[_ Hc] | [[Hx Hc] | [_ Hc]]];
      cbv zeta in Hc; lra. }
  pose proof (cube_le 1 (1 - c) ltac:(lra)).
  pose proof (cube_le (1 - c) 0 ltac:(lra)). lra.
Qed.

Lemma ease_out_cubic_start x : (x <= 0 -> ease_out_cubic x == 0)%Q.
Proof.
  intros Hx. rewrite (ease_out_cubic_value x 0%Q); [lra |].
  destruct (clamp_cases x) as [[_ Hc] | [[Hx' Hc] | [Hx' Hc]]];
    cbv zeta in Hc; lra.
Qed.

Lemma ease_out_cubic_end x : (1 <= x -> ease_out_cubic x == 1)%Q.
Proof.
  intros Hx. rewrite (ease_out_cubic_value x 1%Q); [lra |].
  destruct (clamp_cases x) as [[Hx' Hc] | [[Hx' Hc] | [_ Hc]]];
    cbv zeta in Hc; lra.
Qed.

Lemma ease_out_cubic_mono x y :
  (x <= y -> ease_out_cubic x <= ease_out_cubic y)%Q.
Proof.
  intros Hxy.
  rewrite (ease_out_cubic_value x _ (Qeq_refl _)),
          (ease_out_cubic_value y _ (Qeq_refl _)).
  set (cx := py_max 0 (py_min 1 x)). set (cy := py_max 0 (py_min 1 y)).
  assert (Hc : (0 <= cx <= cy /\ cy <= 1)%Q).
  { subst cx cy.
    destruct (clamp_cases x) as [[Hx Hcx] | [[Hx Hcx] | [Hx Hcx]]];
      destruct (clamp_cases y) as [[Hy Hcy] | [[Hy Hcy] | [Hy Hcy]]];
      cbv zeta in Hcx, Hcy; lra. }
  pose proof (cube_le (1 - cx) (1 - cy) ltac:(lra)). lra.
Qed.

(** X15. The easing curve goes from 0 to 1 and never back: it stays
    between 0 and 1, is 0 up to [x = 0], 1 from [x = 1] on and
    [1 - (1 - x)^3] between, and it never decreases. *)
Theorem ease_out_cubic_curve :
  (forall x, 0 <= ease_out_cubic x <= 1)%Q
  /\ (forall x, x <= 0 -> ease_out_cubic x == 0)%Q
  /\ (forall x, 1 <= x -> ease_out_cubic x == 1)%Q
  /\ (forall x, 0 <= x <= 1 ->
                ease_out_cubic x == 1 - (1 - x) * (1 - x) * (1 - x))%Q
  /\ (forall x y, x <= y -> ease_out_cubic x <= ease_out_cubic y)%Q.
Proof.
  split; [exact ease_out_cubic_range |].
  split; [exact ease_out_cubic_start |].
  split; [exact ease_out_cubic_end |].
  split; [| exact ease_out_cubic_mono].
  intros x Hx. apply ease_out_cubic_value.
  destruct (clamp_cases x) as [[Hx' Hc] | [[Hx' Hc] | [Hx' Hc]]];
    cbv zeta in Hc; lra.
Qed.

Lemma fade_progress_spec dur :
  (0 < dur)%Q ->
  (forall t, 0 <= fade_progress dur t <= 1)%Q
  /\ (forall t, t <= 0 -> fade_progress dur t == 0)%Q
  /\ (forall t, dur <= t -> fade_progress dur t == 1)%Q
  /\ (forall t t', t <= t' -> fade_progress dur t <= fade_progress dur t')%Q.
Proof.
  intros Hd.
  pose proof ease_out_cubic_range as Hr. pose proof ease_out_cubic_start as H0.
  pose proof ease_out_cubic_end as H1. pose proof ease_out_cubic_mono as Hm.
  assert (Hb : Qle_bool dur 0 = false).
  { destruct (Qle_bool dur 0) eqn:Hb; [| reflexivity].
    apply Qle_bool_iff in Hb. lra. }
  unfold fade_progress. rewrite Hb.
  assert (Hdiv : forall t t', (t <= t' -> t / dur <= t' / dur)%Q).
  { intros t t' Htt. apply Qle_shift_div_l; [exact Hd |].
    unfold Qdiv. rewrite <- Qmult_assoc, (Qmult_comm (/ dur)), Qmult_inv_r; lra. }
  assert (Hz : (0 / dur == 0)%Q) by (unfold Qdiv; lra).
  assert (Ho : (dur / dur == 1)%Q) by (unfold Qdiv; apply Qmult_inv_r; lra).
  repeat split.
  - apply Hr.
  - apply Hr.
  - intros t Ht. apply H0. rewrite <- Hz. apply Hdiv, Ht.
  - intros t Ht. apply H1. rewrite <- Ho. apply Hdiv, Ht.
  - intros t t' Htt. apply Hm, Hdiv, Htt.
Qed.

Lemma slides_in_offset dur (px rest : Z) :
  (0 < dur)%Q -> (0 <= px)%Z ->
  slides_in (fun t => inject_Z rest - (1 - fade_progress dur t) * inject_Z px)%Q
            (inject_Z rest) (inject_Z px) dur.
Proof.
  intros Hd Hpx. destruct (fade_progress_spec dur Hd) as (Hr & H0 & H1 & Hm).
  assert (Hp : (0 <= inject_Z px)%Q) by (rewrite Zle_Qle in Hpx; exact Hpx).
  unfold slides_in. repeat split.
  - specialize (Hr t). nra.
  - specialize (Hr t). nra.
  - intros t Ht. rewrite (H0 t Ht). lra.
  - intros t Ht. rewrite (H1 t Ht). lra.
  - intros t t' Htt. specialize (Hm t t' Htt).
    pose proof (Hr t). pose proof (Hr t'). nra.
Qed.

(** X16. Each animated layer slides into place: the image comes in
    from 12 pixels to the left, the callout and the text blocks from
    10 and 12 pixels above; a layer never moves back or past its
    place and is at rest from the end of its fade (0.70, 0.35 and
    0.60 seconds) on; its other coordinate does not move. *)
Theorem layers_slide_in :
  forall (x y : Z),
    slides_in (fun t => fst (img_pos x y t))
              (inject_Z x) (inject_Z IMG_SLIDE_PX) IMG_IN_DUR
    /\ (forall t, snd (img_pos x y t) = inject_Z y)
    /\ slides_in (fun t => snd (call_pos x y t))
                 (inject_Z y) (inject_Z CALLOUT_SLIDE_PX) CALLOUT_DUR
    /\ (forall t, fst (call_pos x y t) = inject_Z x)
    /\ slides_in (fun t => snd (text_pos x y t))
                 (inject_Z y) (inject_Z TEXT_SLIDE_PX) TEXT_DUR
    /\ (forall t, fst (text_pos x y t) = inject_Z x).
Proof.
  intros x y. repeat split; try reflexivity;
    try (apply (slides_in_offset _ _ _); [reflexivity | discriminate]).
Qed.

End EasingFacts.

Lemma ease_out_cubic_curve_witness :
  (ease_out_cubic (1 # 2) == 7 # 8)%Q /\ (ease_out_cubic 3 == 1)%Q.
Proof.
  destruct ease_out_cubic_curve as (_ & _ & H1 & Hmid & _). split.
  - rewrite (Hmid (1 # 2)); [reflexivity | split; discriminate].
  - apply (H1 3%Q). discriminate.
Defined.

Lemma layers_slide_in_witness :
  (snd (call_pos 298 192 (35 # 100)) == 192)%Q
  /\ (snd (call_pos 298 192 0) == 192 - 10)%Q.
Proof.
  destruct (layers_slide_in 298 192) as (_ & _ & (_ & H0 & H1 & _) & _). split.
  - apply (H1 (35 # 100)). apply Qle_refl.
  - apply (H0 0%Q). apply Qle_refl.
Defined.

(** ** The image of the left panel *)

Section ImageFit.

Lemma int_of_Q_upper q n : (q <= inject_Z n)%Q -> (int_of_Q q <= n)%Z.
Proof.
  unfold int_of_Q, Qle. cbn [Qnum Qden inject_Z]. intros Hq.
  apply Z.quot_le_upper_bound; lia.
Qed.

Lemma scaled_within (w L : Z) (r : Q) :
  (0 < w)%Z -> (r <= inject_Z L / inject_Z w)%Q ->
  (Z.max 1 (int_of_Q (inject_Z w * r)) <= Z.max 1 L)%Z.
Proof.
  intros Hw Hr.
  assert (Hwq : (0 < inject_Z w)%Q)
    by (change (inject_Z 0 < inject_Z w)%Q; rewrite <- Zlt_Qlt; exact Hw).
  assert (Hle : (inject_Z w * r <= inject_Z L)%Q).
  { rewrite <- (Qmult_div_r (inject_Z L) (inject_Z w)) by lra.
    apply Qmult_le_l; [exact Hwq | exact Hr]. }
  apply int_of_Q_upper in Hle. lia.
Qed.

Lemma py_min_le a b : (py_min a b <= a /\ py_min a b <= b)%Q.
Proof.
  unfold py_min. destruct (Qle_bool a b) eqn:Hab.
  - apply Qle_bool_iff in Hab. split; [apply Qle_refl | exact Hab].
  - split; [| apply Qle_refl].
    apply Qlt_le_weak, Qnot_le_lt. intros Hle.
    apply Qle_bool_iff in Hle. congruence.
Qed.

(** X17. The left image, whatever its size, is scaled to at least one
    pixel each way and to no more than the left panel of 284 by 480
    pixels, and is pasted so that it lies within that panel. *)
Theorem fit_left_image_within_panel :
  forall w h nw nh px py,
    (0 < w)%Z -> (0 < h)%Z ->
    fit_left_image w h = ((nw, nh), (px, py)) ->
    (1 <= nw <= LEFT_W /\ 1 <= nh <= H
     /\ 0 <= px /\ px + nw <= LEFT_W
     /\ 0 <= py /\ py + nh <= H)%Z.
Proof.
  intros w h nw nh px py Hw Hh Hfit. unfold fit_left_image in Hfit.
  cbv zeta in Hfit.
  destruct (py_min_le (inject_Z LEFT_W / inject_Z w) (inject_Z H / inject_Z h))
    as [Hrw Hrh].
  pose proof (scaled_within w LEFT_W _ Hw Hrw) as Hnw.
  pose proof (scaled_within h H _ Hh Hrh) as Hnh.
  apply pair_equal_spec in Hfit as [Hsize Hpos].
  apply pair_equal_spec in Hsize as [Enw Enh].
  apply pair_equal_spec in Hpos as [Epx Epy].
  rewrite Enw in Epx, Hnw. rewrite Enh in Epy, Hnh.
  assert (Hnw1 : (1 <= nw)%Z) by (rewrite <- Enw; apply Z.le_max_l).
  assert (Hnh1 : (1 <= nh)%Z) by (rewrite <- Enh; apply Z.le_max_l).
  clear Enw Enh Hrw Hrh.
  assert (HL : LEFT_W = 284%Z) by reflexivity.
  assert (HH : H = 480%Z) by reflexivity.
  rewrite HL in *. rewrite HH in *.
  pose proof (Z.div_mod (284 - nw) 2 ltac:(lia)) as Hdx.
  pose proof (Z.mod_pos_bound (284 - nw) 2 ltac:(lia)) as Hmx.
  pose proof (Z.div_mod (480 - nh) 2 ltac:(lia)) as Hdy.
  pose proof (Z.mod_pos_bound (480 - nh) 2 ltac:(lia)) as Hmy.
  repeat split; lia.
Qed.

Lemma fit_left_image_within_panel_witness :
  fit_left_image 1920 1080 = ((284, 159), (0, 160))%Z
  /\ (0 + 284 <= LEFT_W /\ 160 + 159 <= H)%Z.
Proof.
  split; [reflexivity |].
  destruct (fit_left_image_within_panel 1920 1080 284 159 0 160)
    as (_ & _ & _ & Hx & _ & Hy); [lia | lia | reflexivity |].
  split; [exact Hx | exact Hy].
Defined.

End ImageFit.

(** ** Animated slide composer: the end and the place of a layer *)

Section ComposerExtras.

Lemma py_max_clamped a b : (b <= a)%Q -> py_max a b = a.
Proof.
  intros Hba. unfold py_max.
  replace (Qle_bool b a) with true; [reflexivity |].
  symmetry. apply Qle_bool_iff, Hba.
Qed.

Lemma text_layers_rest (lh ix : Z) (d : Q) (y0 : Z) (BS : list (list line)) :
  forall (rest done : list (list line)) tl0 tl y,
    BS = done ++ rest ->
    fold_left
      (fun '(text_layers, cur_y) '(idx, block) =>
         let h := (lh * at_least_one block)%Z in
         let delay := text_delay idx in
         let dur_remain := py_max (1 # 10) (d - delay) in
         let tb_clip :=
           {| clip_kind := TextLayer idx; clip_start := delay;
              clip_duration := dur_remain; clip_fadein := TEXT_DUR;
              clip_rest := Some (ix, cur_y) |} in
         (text_layers ++ [tb_clip], (cur_y + h)%Z))
      (combine (seq (List.length done) (List.length rest)) rest)
      (tl0, (y0 + blocks_height lh done)%Z) = (tl, y) ->
    Forall (fun l => forall i, clip_kind l = TextLayer i ->
              clip_rest l = Some (ix, (y0 + blocks_height lh (firstn i BS))%Z)) tl0 ->
    Forall (fun l => forall i, clip_kind l = TextLayer i ->
              clip_rest l = Some (ix, (y0 + blocks_height lh (firstn i BS))%Z)) tl.
Proof.
  induction rest as [| b rest IH]; intros done tl0 tl y HBS Hf H0.
  - cbn in Hf. injection Hf as <- _. exact H0.
  - cbn [List.length seq combine fold_left] in Hf.
    replace (S (List.length done)) with (List.length (done ++ [b])) in Hf
      by (rewrite length_app, Nat.add_1_r; reflexivity).
    replace (y0 + blocks_height lh done + lh * at_least_one b)%Z
      with (y0 + blocks_height lh (done ++ [b]))%Z in Hf
      by (rewrite blocks_height_app; lia).
    apply (IH (done ++ [b]) _ tl y) in Hf.
    + exact Hf.
    + rewrite HBS, <- app_assoc. reflexivity.
    + apply Forall_app. split; [exact H0 |].
      constructor; [| constructor]. cbn [clip_kind clip_rest].
      intros i Hi. injection Hi as <-.
      rewrite HBS, firstn_app, Nat.sub_diag, firstn_all. cbn [firstn].
      rewrite app_nil_r. reflexivity.
Qed.

(** The layers of [compose_layers], the text layers being what the
    loop over the blocks has collected. *)
Lemma compose_layers_layers has_image right d :
  exists tl y,
    fold_left
      (fun '(text_layers, cur_y) '(idx, block) =>
         let h := (lh_txt right * at_least_one block)%Z in
         let delay := text_delay idx in
         let dur_remain := py_max (1 # 10) (d - delay) in
         let tb_clip :=
           {| clip_kind := TextLayer idx; clip_start := delay;
              clip_duration := dur_remain; clip_fadein := TEXT_DUR;
              clip_rest := Some ((LEFT_W + PADDING)%Z, cur_y) |} in
         (text_layers ++ [tb_clip], (cur_y + h)%Z))
      (enumerate (blocks right))
      ([], (0 + PADDING + start_y right + expl_h right + 10)%Z) = (tl, y)
    /\ layers (compose_layers has_image right d)
       = [ {| clip_kind := BaseLayer; clip_start := 0;
              clip_duration := d; clip_fadein := 0; clip_rest := None |} ]
           ++ (if has_image
               then [ {| clip_kind := ImageLayer; clip_start := 0;
                         clip_duration := d; clip_fadein := IMG_IN_DUR;
                         clip_rest := None |} ]
               else [])
           ++ [ {| clip_kind := CalloutLayer; clip_start := CALLOUT_DELAY;
                   clip_duration := py_max (1 # 10) (d - CALLOUT_DELAY);
                   clip_fadein := CALLOUT_DUR;
                   clip_rest := Some ((LEFT_W + PADDING)%Z,
                                      (0 + PADDING + start_y right)%Z) |} ]
           ++ tl.
Proof.
  unfold compose_layers.
  match goal with
  | |- context [fold_left ?f ?l ?a] => destruct (fold_left f l a) as [tl y] eqn:Hf
  end.
  exists tl, y. split; reflexivity.
Qed.

Lemma compose_layers_duration has_image right d :
  comp_duration (compose_layers has_image right d) = d.
Proof.
  unfold compose_layers.
  match goal with
  | |- context [fold_left ?f ?l ?a] => destruct (fold_left f l a) as [tl y]
  end.
  reflexivity.
Qed.

(** A layer that starts at [delay] and lasts
    [max(0.1, d - delay)], against [d - delay], the time that is left
    of the slide when the layer starts. *)
Lemma delayed_layer_lasts (d delay : Q) :
  (d - delay <= py_max (1 # 10) (d - delay))%Q
  /\ ((1 # 10) <= d - delay -> py_max (1 # 10) (d - delay) == d - delay)%Q
  /\ (d - delay < 1 # 10 -> py_max (1 # 10) (d - delay) = 1 # 10)%Q.
Proof.
  unfold py_max. destruct (Qle_bool (d - delay) (1 # 10)) eqn:Hb.
  - apply Qle_bool_iff in Hb. split; [exact Hb |].
    split; [intros Hle; lra | reflexivity].
  - assert (Hlt : (1 # 10 < d - delay)%Q).
    { apply Qnot_le_lt. intros Hle. apply Qle_bool_iff in Hle. congruence. }
    split; [apply Qle_refl |]. split; [reflexivity | intros Hc; lra].
Qed.

Variables FONT_REG FONT_BOLD FONT_ITAL : option string.
Variable load_default : font.
Variable textlength : string -> font -> option Q.
Variable image_exists : nat -> bool.

(** X18. The composite lasts as long as the slide.  No layer lasts
    less than the time that is left of the slide when the layer
    starts, [d - start] as the code computes it: a layer lasts
    exactly that time when at least a tenth of a second is left, and
    a callout or text layer that starts with less than that left
    lasts a tenth of a second. *)
Theorem animated_layers_last_to_the_end :
  forall fuel sl (d : Q) base_font_size c,
    build_slide_clip FONT_REG FONT_BOLD FONT_ITAL load_default textlength
      image_exists fuel sl d base_font_size = Ret c ->
    comp_duration c = d
    /\ (forall l, In l (layers c) ->
          (d - clip_start l <= clip_duration l)%Q
          /\ ((1 # 10) <= d - clip_start l ->
              clip_duration l == d - clip_start l)%Q
          /\ ((d - clip_start l < 1 # 10)%Q ->
              clip_kind l <> BaseLayer -> clip_kind l <> ImageLayer ->
              clip_duration l = 1 # 10)).
Proof.
  intros fuel sl d base_font_size c Hc. unfold build_slide_clip in Hc.
  apply bind_ret_inv in Hc as (right & _ & Hc). injection Hc as <-.
  split; [apply compose_layers_duration |].
  destruct (compose_layers_layers (image_exists (index sl + 1)) right d)
    as (tl & y & Hf & ->).
  apply text_layers_fold in Hf as [_ Ht].
  specialize (Ht (Forall_nil _)). rewrite Forall_forall in Ht.
  intros l Hl.
  apply in_app_iff in Hl as [[<- | []] | Hl].
  { cbn [clip_start clip_duration clip_kind].
    split; [lra |]. split; [intros _; lra | intros _ Hk; contradiction]. }
  apply in_app_iff in Hl as [Hl | Hl].
  { destruct (image_exists (index sl + 1)); [| contradiction].
    destruct Hl as [<- | []]. cbn [clip_start clip_duration clip_kind].
    split; [lra |]. split; [intros _; lra | intros _ _ Hk; contradiction]. }
  apply in_app_iff in Hl as [[<- | []] | Hl].
  { cbn [clip_start clip_duration clip_kind].
    destruct (delayed_layer_lasts d CALLOUT_DELAY) as (H1 & H2 & H3).
    split; [exact H1 |]. split; [exact H2 | intros Hlt _ _; apply H3, Hlt]. }
  destruct (Ht l Hl) as (idx & _ & Hs & Hd). rewrite Hs, Hd.
  destruct (delayed_layer_lasts d (text_delay idx)) as (H1 & H2 & H3).
  split; [exact H1 |]. split; [exact H2 | intros Hlt _ _; apply H3, Hlt].
Qed.

(** X19. The callout rests at the left inset of the right panel, at
    the layout's vertical offset below the top inset; the text layer
    [i] rests at the same abscissa, below the callout, the gap of 10
    pixels and the blocks before it, each as high as the layout
    counted it: the layers are stacked without overlap in the order
    of the lines. *)
Theorem animated_layers_stacked :
  forall fuel sl (d : Q) base_font_size c,
    build_slide_clip FONT_REG FONT_BOLD FONT_ITAL load_default textlength
      image_exists fuel sl d base_font_size = Ret c ->
    exists right,
      layout_right_column FONT_REG FONT_BOLD FONT_ITAL load_default textlength
        fuel (RIGHT_W - 2 * PADDING) (H - 2 * PADDING) (explanation sl)
        (firstn MAX_LINES (skipn 1 (PyStr.split newline (slide_content sl))))
        base_font_size = Ret right
      /\ (forall l, In l (layers c) -> clip_kind l = CalloutLayer ->
            clip_rest l = Some ((LEFT_W + PADDING)%Z, (PADDING + start_y right)%Z))
      /\ (forall l i, In l (layers c) -> clip_kind l = TextLayer i ->
            clip_rest l
            = Some ((LEFT_W + PADDING)%Z,
                    (PADDING + start_y right + expl_h right + 10
                     + blocks_height (lh_txt right) (firstn i (blocks right)))%Z)).
Proof.
  intros fuel sl d base_font_size c Hc. unfold build_slide_clip in Hc.
  apply bind_ret_inv in Hc as (right & Hright & Hc). injection Hc as <-.
  exists right. split; [exact Hright |].
  destruct (compose_layers_layers (image_exists (index sl + 1)) right d)
    as (tl & y & Hf & ->).
  pose proof Hf as Hk. apply text_layers_fold in Hk as [Hk Ht].
  specialize (Ht (Forall_nil _)). rewrite Forall_forall in Ht.
  assert (Hrest : Forall (fun l => forall i, clip_kind l = TextLayer i ->
             clip_rest l
             = Some ((LEFT_W + PADDING)%Z,
                     ((0 + PADDING + start_y right + expl_h right + 10)
                      + blocks_height (lh_txt right) (firstn i (blocks right)))%Z))
            tl).
  { apply (text_layers_rest (lh_txt right) (LEFT_W + PADDING) d
             (0 + PADDING + start_y right + expl_h right + 10) (blocks right)
             (blocks right) [] [] tl y eq_refl); [| constructor].
    cbn [List.length blocks_height fold_right]. rewrite Z.add_0_r. exact Hf. }
  rewrite Forall_forall in Hrest.
  split.
  - intros l Hl Hkind.
    apply in_app_iff in Hl as [[<- | []] | Hl]; [discriminate Hkind |].
    apply in_app_iff in Hl as [Hl | Hl].
    { destruct (image_exists (index sl + 1)); [| contradiction].
      destruct Hl as [<- | []]. discriminate Hkind. }
    apply in_app_iff in Hl as [[<- | []] | Hl]; [reflexivity |].
    destruct (Ht l Hl) as (idx & Hi & _). congruence.
  - intros l i Hl Hkind.
    apply in_app_iff in Hl as [[<- | []] | Hl]; [discriminate Hkind |].
    apply in_app_iff in Hl as [Hl | Hl].
    { destruct (image_exists (index sl + 1)); [| contradiction].
      destruct Hl as [<- | []]. discriminate Hkind. }
    apply in_app_iff in Hl as [[<- | []] | Hl]; [discriminate Hkind |].
    rewrite (Hrest l Hl i Hkind). reflexivity.
Qed.

End ComposerExtras.

Lemma animated_layers_last_to_the_end_witness :
  exists c,
    build_slide_clip sample_regular sample_bold sample_oblique sample_default
      sample_textlength (fun _ => true) 5 sample_slide 6 20 = Ret c
    /\ comp_duration c = 6%Q
    /\ Forall (fun l => 6 - clip_start l <= clip_duration l)%Q (layers c)
    /\ map clip_duration (layers c)
       = [6; 6; 6 - CALLOUT_DELAY; 6 - text_delay 0; 6 - text_delay 1]%Q.
Proof.
  destruct (build_slide_clip sample_regular sample_bold sample_oblique
              sample_default sample_textlength (fun _ => true) 5 sample_slide 6 20)
    as [c | e |] eqn:Hc; [| vm_compute in Hc; discriminate Hc ..].
  exists c. split; [reflexivity |].
  destruct (animated_layers_last_to_the_end sample_regular sample_bold
              sample_oblique sample_default sample_textlength (fun _ => true)
              5 sample_slide 6 20 c Hc) as [Hd Hl].
  split; [exact Hd |].
  split; [apply Forall_forall; intros l Hin; apply (Hl l Hin) |].
  vm_compute in Hc. injection Hc as <-. reflexivity.
Defined.

Lemma animated_layers_stacked_witness :
  exists c,
    build_slide_clip sample_regular sample_bold sample_oblique sample_default
      sample_textlength (fun _ => true) 5 sample_slide 6 20 = Ret c
    /\ map clip_rest (layers c)
       = [None; None; Some (298, 192); Some (298, 244); Some (298, 266)]%Z.
Proof.
  destruct (build_slide_clip sample_regular sample_bold sample_oblique
              sample_default sample_textlength (fun _ => true) 5 sample_slide 6 20)
    as [c | e |] eqn:Hc; [| vm_compute in Hc; discriminate Hc ..].
  exists c. split; [reflexivity |].
  destruct (animated_layers_stacked sample_regular sample_bold
              sample_oblique sample_default sample_textlength (fun _ => true)
              5 sample_slide 6 20 c Hc) as (right & _ & _ & _).
  vm_compute in Hc. injection Hc as <-. reflexivity.
Defined.

(** ** The audio file *)

Section AudioFacts.
Import PyStr PyStrFacts PyStrSlices.

Variable isfile : string -> bool.
Variable http_fetch : string -> outcome string.

Lemma first_file_some base : forall exts p,
  first_file isfile base exts = Some p ->
  exists before ext after,
    exts = before ++ ext :: after
    /\ p = String.append base ext
    /\ isfile p = true
    /\ Forall (fun e => isfile (String.append base e) = false) before.
Proof.
  induction exts as [| e exts IH]; intros p Hf; cbn [first_file] in Hf;
    [discriminate |].
  destruct (isfile (String.append base e)) eqn:He.
  - injection Hf as <-. exists [], e, exts. repeat split; [exact He | constructor].
  - apply IH in Hf as (before & ext & after & -> & -> & Hp & Hb).
    exists (e :: before), ext, after. repeat split; [exact Hp |].
    constructor; assumption.
Qed.

Lemma first_file_none base : forall exts,
  first_file isfile base exts = None
  <-> Forall (fun e => isfile (String.append base e) = false) exts.
Proof.
  induction exts as [| e exts IH]; cbn [first_file]; [split; [constructor | reflexivity] |].
  destruct (isfile (String.append base e)) eqn:He; split.
  - discriminate.
  - intros Hall. inversion Hall; subst. congruence.
  - intros Hn. constructor; [exact He | apply IH, Hn].
  - intros Hall. inversion Hall; subst. apply IH. assumption.
Qed.

(** X20. [find_local_audio] tries [<root>/audio/<id>] with the
    extensions [.mp3], [.m4a], [.wav], [.mp4] in this order and
    returns the first that is a file: what it returns is a file, no
    earlier candidate is one, and it returns [None] exactly when none
    of the four is a file. *)
Theorem find_local_audio_first_match :
  forall root pres_id,
    let base := path_join (path_join root "audio") pres_id in
    (forall p,
        find_local_audio isfile root pres_id = Some p ->
        exists before ext after,
          [".mp3"; ".m4a"; ".wav"; ".mp4"] = before ++ ext :: after
          /\ p = String.append base ext
          /\ isfile p = true
          /\ Forall (fun e => isfile (String.append base e) = false) before)
    /\ (find_local_audio isfile root pres_id = None
        <-> Forall (fun e => isfile (String.append base e) = false)
                   [".mp3"; ".m4a"; ".wav"; ".mp4"]).
Proof.
  intros root pres_id base. split.
  - intros p Hp. apply (first_file_some _ _ _ Hp).
  - apply first_file_none.
Qed.

Lemma append_nonempty a b : nonempty b = true -> nonempty (String.append a b) = true.
Proof. destruct a; cbn; auto. Qed.

(** X21. Without an [mp3] entry in the script (absent or empty) the
    audio is the file that [find_local_audio] finds, and
    [FileNotFoundError] is raised exactly when it finds none.  An
    [mp3] entry that is not a URL is returned as it is: no file is
    looked for and nothing is fetched. *)
Theorem resolve_audio_local :
  forall (mp3 : option string) root pres_id,
    (mp3 = None \/ mp3 = Some EmptyString ->
     resolve_audio isfile http_fetch mp3 root pres_id
     = match find_local_audio isfile root pres_id with
       | Some p => Ret p
       | None => Raise (FileNotFoundError "No audio file found")
       end)
    /\ (forall m, mp3 = Some m -> nonempty m = true -> is_url m = false ->
          resolve_audio isfile http_fetch mp3 root pres_id = Ret m).
Proof.
  intros mp3 root pres_id. split.
  - intros Hm. unfold resolve_audio.
    assert (Hbranch : (match mp3 with
               | Some m =>
                   if nonempty m
                   then (f <- download_if_url http_fetch m ;; Ret (Some f))
                   else Ret (find_local_audio isfile root pres_id)
               | None => Ret (find_local_audio isfile root pres_id)
               end) = Ret (find_local_audio isfile root pres_id)).
    { destruct Hm as [-> | ->]; reflexivity. }
    rewrite Hbranch. cbn [bind].
    destruct (find_local_audio isfile root pres_id) as [p |] eqn:Hp;
      [| reflexivity].
    apply first_file_some in Hp as (before & ext & after & Hexts & -> & _ & _).
    rewrite append_nonempty; [reflexivity |].
    assert (Hin : In ext AUDIO_EXTS) by (rewrite Hexts; apply in_elt).
    destruct Hin as [<- | [<- | [<- | [<- | []]]]]; reflexivity.
  - intros m -> Hne Hurl. unfold resolve_audio, download_if_url.
    rewrite Hne, Hurl. cbn [bind]. rewrite Hne. reflexivity.
Qed.

End AudioFacts.

Lemma find_local_audio_first_match_witness :
  find_local_audio (fun p => String.eqb p "./audio/test4.wav"
                             || String.eqb p "./audio/test4.mp4") "." "test4"
  = Some "./audio/test4.wav".
Proof.
  destruct (find_local_audio_first_match
              (fun p => String.eqb p "./audio/test4.wav"
                        || String.eqb p "./audio/test4.mp4") "." "test4")
    as [Hsome _].
  destruct (Hsome "./audio/test4.wav" eq_refl)
    as (before & ext & after & _ & Hp & _).
  reflexivity.
Defined.

Lemma resolve_audio_local_witness :
  resolve_audio (fun _ => false) (fun _ => Raise (ValueError "offline"))
    (Some "audio/talk.mp3") "." "test4" = Ret "audio/talk.mp3".
Proof.
  apply (proj2 (resolve_audio_local (fun _ => false)
                  (fun _ => Raise (ValueError "offline"))
                  (Some "audio/talk.mp3") "." "test4") "audio/talk.mp3");
    reflexivity.
Defined.

(** ** The save-JSON route *)

Section SaveJsonFacts.
Import PyStr PyStrFacts PyStrSlices.

Variable write_error : string -> option string.

Lemma drop_append_len pre s k :
  drop (len pre + k) (String.append pre s) = drop k s.
Proof. induction pre as [| c pre IH]; cbn; [reflexivity | exact IH]. Qed.

Lemma len_append pre s : len (String.append pre s) = len pre + len s.
Proof. unfold len. induction pre as [| c pre IH]; cbn; [reflexivity | rewrite IH; reflexivity]. Qed.

(** In a name without [".."] put after ["html/json/"] there is no
    [".."] either. *)
Lemma no_dotdot_under_html_json name :
  find name ".." 0 = None ->
  find (String.append "html/json/" name) ".." 0 = None.
Proof.
  intros Hn. apply find_none_iff in Hn. apply find_none_iff. intros m _.
  do 10 (destruct m as [| m];
         [unfold startswith; cbn [drop String.append is_prefix];
          rewrite andb_false_r; reflexivity |]).
  specialize (Hn m (Nat.le_0_l _)). unfold startswith in *.
  change (S (S (S (S (S (S (S (S (S (S m))))))))))
    with (len "html/json/" + m).
  rewrite drop_append_len, len_append.
  destruct (is_prefix ".." (drop m name)); [| apply andb_false_r].
  rewrite andb_true_r in Hn. apply Nat.leb_gt in Hn.
  rewrite andb_true_r. apply Nat.leb_gt. lia.
Qed.

(** X22. Whatever the request, the route opens at most one file for
    writing, and a file it opens is [html/json/<fileName>] for a
    [fileName] that does not begin with ["/"] and holds no [".."], so
    that the path opened holds no [".."] either. *)
Theorem save_json_writes_under_html_json :
  forall fileName data_truthy actions resp,
    save_json write_error fileName data_truthy = (actions, resp) ->
    actions = []
    \/ (exists name,
           fileName = Some name
           /\ actions = [OpenForWriting (String.append "html/json/" name)]
           /\ startswith name "/" 0 = false
           /\ find name ".." 0 = None
           /\ find (String.append "html/json/" name) ".." 0 = None).
Proof.
  intros fileName data_truthy actions resp. unfold save_json.
  destruct (negb _ || negb _) eqn:Hmiss;
    [intros Hs; injection Hs as <- _; left; reflexivity |].
  destruct fileName as [name |]; [| discriminate Hmiss].
  destruct (find name ".." 0) as [j |] eqn:Hdd;
    [intros Hs; injection Hs as <- _; left; reflexivity |].
  cbn [orb].
  destruct (startswith name "/" 0) eqn:Habs;
    [intros Hs; injection Hs as <- _; left; reflexivity |].
  assert (Hpath : path_join (path_join "html" "json") name
                  = String.append "html/json/" name).
  { unfold path_join at 1. rewrite Habs. reflexivity. }
  rewrite Hpath.
  destruct (write_error _);
    intros Hs; injection Hs as <- <-; right;
    exists name; repeat split; try assumption;
    apply no_dotdot_under_html_json, Hdd.
Qed.

(** X23. The route answers 200, 400 or 500; it answers 400 exactly
    when the file name is absent or empty or the data are falsy, and
    then no file has been opened; it answers 200 only after it has
    opened the file and the writing has raised nothing. *)
Theorem save_json_status :
  forall fileName data_truthy actions resp,
    save_json write_error fileName data_truthy = (actions, resp) ->
    (status_code resp = 400%Z
     <-> (fileName = None \/ fileName = Some EmptyString \/ data_truthy = false))
    /\ (status_code resp = 400%Z -> actions = [])
    /\ (status_code resp = 200%Z ->
          exists path, actions = [OpenForWriting path] /\ write_error path = None)
    /\ (status_code resp = 200%Z \/ status_code resp = 400%Z
        \/ status_code resp = 500%Z).
Proof.
  intros fileName data_truthy actions resp. unfold save_json.
  destruct fileName as [[| c name] |]; destruct data_truthy; cbn [nonempty negb orb];
    try (intros Hs; injection Hs as <- <-; cbn [status_code];
         repeat split; auto; try discriminate; intuition discriminate).
  destruct ((match find (String c name) ".." 0 with
             | Some _ => true | None => false end)
            || startswith (String c name) "/" 0).
  - intros Hs; injection Hs as <- <-; cbn [status_code].
    repeat split; auto; try discriminate; intuition discriminate.
  - destruct (write_error _) eqn:Hw; intros Hs; injection Hs as <- <-;
      cbn [status_code].
    + repeat split; auto; try discriminate; intuition discriminate.
    + split; [intuition discriminate |]. split; [discriminate |].
      split; [| auto]. intros _. eexists. split; [reflexivity | exact Hw].
Qed.

End SaveJsonFacts.

Lemma save_json_writes_under_html_json_witness :
  save_json (fun _ => None) (Some "../secret.json") true
  = ([], {| status_code := 500; status_text := "error";
            message := Some "Invalid fileName" |})
  /\ ([] : list save_action) = []
  /\ save_json (fun _ => None) (Some "test4.json") true
     = ([OpenForWriting "html/json/test4.json"],
        {| status_code := 200; status_text := "success"; message := None |}).
Proof.
  split; [reflexivity |]. split; [| reflexivity].
  destruct (save_json_writes_under_html_json (fun _ => None)
              (Some "../secret.json") true [] _ eq_refl)
    as [Hnil | (name & _ & Hw & _)]; [exact Hnil | discriminate Hw].
Defined.

Lemma save_json_status_witness :
  status_code (snd (save_json (fun _ => None) None true)) = 400%Z.
Proof.
  apply (proj1 (save_json_status (fun _ => None) None true _ _ eq_refl)).
  left; reflexivity.
Defined.

(** ** Drawing the lines *)

Section DrawFacts.

Variable textlength : string -> font -> option Q.





End DrawFacts.


(** ** The static slide *)

Section StaticSlideFacts.

Variables FONT_REG FONT_BOLD FONT_ITAL : option string.
Variable load_default : font.
Variable textlength : string -> font -> option Q.

Local Abbreviation pass :=
  (layout_pass FONT_REG FONT_BOLD FONT_ITAL load_default textlength).
Local Abbreviation static_layout :=
  (render_slide_image_layout FONT_REG FONT_BOLD FONT_ITAL load_default textlength).
Local Abbreviation render :=
  (render_slide_image FONT_REG FONT_BOLD FONT_ITAL load_default textlength).










End StaticSlideFacts.



(** ** The two scripts from end to end *)

Section MainExtras.

Variables FONT_REG FONT_BOLD FONT_ITAL : option string.
Variable load_default : font.
Variable textlength : string -> font -> option Q.

Lemma mapM_length {A B : Type} (f : A -> outcome B) : forall xs ys,
  mapM f xs = Ret ys -> List.length ys = List.length xs.
Proof.
  induction xs as [| x xs IH]; intros ys Hr; cbn [mapM] in Hr.
  - injection Hr as <-. reflexivity.
  - apply bind_ret_inv in Hr as (y & _ & Hr).
    apply bind_ret_inv in Hr as (ys' & Hys & Hr). injection Hr as <-.
    cbn [List.length]. rewrite (IH _ Hys). reflexivity.
Qed.

Lemma insert_slide_length s l :
  List.length (insert_slide s l) = S (List.length l).
Proof.
  induction l as [| x l IH]; cbn [insert_slide List.length]; [reflexivity |].
  destruct (timestamp s <=? timestamp x)%Z; cbn [List.length]; [reflexivity |].
  rewrite IH. reflexivity.
Qed.

Lemma sort_slides_length l : List.length (sort_slides l) = List.length l.
Proof.
  induction l as [| x l IH]; cbn [sort_slides fold_right List.length]; [reflexivity |].
  fold (sort_slides l). rewrite insert_slide_length, IH. reflexivity.
Qed.

Lemma durations_length ts audio_len :
  List.length (durations_from_timestamps ts audio_len) = List.length ts.
Proof.
  rewrite durations_from_timestamps_map, length_map. apply length_enumerate.
Qed.

Lemma map_fst_combine_same {A B : Type} : forall (xs : list A) (ys : list B),
  List.length xs = List.length ys -> map fst (combine xs ys) = xs.
Proof.
  induction xs as [| x xs IH]; intros [| y ys] Hl; cbn in *; try discriminate;
    [reflexivity |]. rewrite IH; [reflexivity | lia].
Qed.

Lemma map_snd_combine_same {A B : Type} : forall (xs : list A) (ys : list B),
  List.length xs = List.length ys -> map snd (combine xs ys) = ys.
Proof.
  induction xs as [| x xs IH]; intros [| y ys] Hl; cbn in *; try discriminate;
    [reflexivity |]. rewrite IH; [reflexivity | lia].
Qed.

(** The slides paired with their durations: one pair per slide. *)
Lemma slides_with_durations (slides : list slide) audio_len :
  let durs := durations_from_timestamps
                (map (fun s => inject_Z (timestamp s)) slides) audio_len in
  map fst (combine slides durs) = slides
  /\ List.length (combine slides durs) = List.length slides.
Proof.
  cbv zeta. split.
  - apply map_fst_combine_same. rewrite durations_length, length_map. reflexivity.
  - rewrite length_combine, durations_length, length_map. apply Nat.min_id.
Qed.

Section Animated.

Variable image_exists : nat -> bool.

Local Abbreviation clips_of :=
  (build_clips FONT_REG FONT_BOLD FONT_ITAL load_default textlength image_exists).
Local Abbreviation animated :=
  (main FONT_REG FONT_BOLD FONT_ITAL load_default textlength image_exists).

Lemma build_clips_trace fuel b : forall sds trace clips trace' out,
  clips_of fuel b sds trace clips = (trace', out) ->
  exists k,
    k <= List.length sds
    /\ trace' = trace ++ map (fun sd => EvRender (index (fst sd))) (firstn k sds)
    /\ (forall clips', out = Ret clips' ->
          k = List.length sds
          /\ List.length clips' = List.length clips + List.length sds).
Proof.
  induction sds as [| [s dur] sds IH]; intros trace clips trace' out Hb;
    cbn [build_clips] in Hb.
  - injection Hb as <- <-. exists 0. cbn. rewrite app_nil_r.
    split; [lia |]. split; [reflexivity |].
    intros clips' Hout. injection Hout as <-. lia.
  - destruct (build_slide_clip _ _ _ _ _ _ _ s dur b) as [c | e |].
    + apply IH in Hb as (k & Hk & -> & Hret).
      exists (S k). cbn [List.length firstn map fst]. rewrite <- app_assoc.
      split; [lia |]. split; [reflexivity |].
      intros clips' Hout. destruct (Hret _ Hout) as [-> Hlen].
      rewrite length_app in Hlen. cbn [List.length] in Hlen. lia.
    + injection Hb as <- <-. exists 1. cbn [List.length firstn map fst].
      split; [lia |]. split; [reflexivity | discriminate].
    + injection Hb as <- <-. exists 1. cbn [List.length firstn map fst].
      split; [lia |]. split; [reflexivity | discriminate].
Qed.

(** X27. When the animated [main] succeeds, every entry of the
    script has been rendered exactly once, the slides in the order
    of their timestamps, and the video has then been written once,
    with one clip per entry. *)
Theorem main_success_trace :
  forall fuel json audio base_font_size trace,
    main FONT_REG FONT_BOLD FONT_ITAL load_default textlength image_exists
        fuel json audio base_font_size = (trace, Ret tt) ->
    exists entries slides,
      json = Some entries
      /\ mapM slide_of_entry (enumerate entries) = Ret slides
      /\ trace = map (fun s => EvRender (index s)) (sort_slides slides)
                   ++ [EvWrite (List.length entries)]
      /\ StronglySorted (fun a b => (timestamp a <= timestamp b)%Z)
                        (sort_slides slides)
      /\ (forall s, In s (sort_slides slides) <-> In s slides).
Proof.
  intros fuel json audio base_font_size trace Hm. unfold main in Hm.
  destruct json as [entries |]; [| discriminate Hm].
  destruct (is_nil entries); [discriminate Hm |].
  destruct audio as [alen |]; [| discriminate Hm].
  destruct (mapM slide_of_entry (enumerate entries)) as [slides | e |] eqn:Hs;
    try discriminate Hm.
  destruct (_ && _); [discriminate Hm |].
  destruct (clips_of fuel base_font_size _ [] []) as [tr out] eqn:Hb.
  destruct out as [clips | e |]; try discriminate Hm.
  injection Hm as <-.
  apply build_clips_trace in Hb as (k & _ & -> & Hret).
  destruct (Hret clips eq_refl) as [-> Hlen].
  destruct (slides_with_durations (sort_slides slides) alen) as [Hfst Hcl].
  exists entries, slides. split; [reflexivity |]. split; [exact Hs |].
  split; [| split; [apply sort_slides_sorted | apply sort_slides_in]].
  rewrite firstn_all, <- (map_map fst (fun s => EvRender (index s))), Hfst.
  cbn [app List.length] in *. rewrite Hlen, Hcl, sort_slides_length.
  rewrite (mapM_length _ _ _ Hs), length_enumerate. reflexivity.
Qed.

(** X28. The animated [main] renders nothing before every check
    has passed: when a slide has been rendered, the script was
    there with entries, the audio was found, every timestamp was
    read, and the first timestamp in order is within the audio. *)
Theorem main_renders_after_checks :
  forall fuel json audio base_font_size,
    fst (main FONT_REG FONT_BOLD FONT_ITAL load_default textlength image_exists
        fuel json audio base_font_size) <> [] ->
    exists entries alen slides,
      json = Some entries /\ entries <> []
      /\ audio = Some alen
      /\ mapM slide_of_entry (enumerate entries) = Ret slides
      /\ (forall s0 rest, sort_slides slides = s0 :: rest ->
            (inject_Z (timestamp s0) <= alen)%Q).
Proof.
  intros fuel json audio base_font_size Hne. unfold main in Hne.
  destruct json as [entries |]; [| elim Hne; reflexivity].
  destruct entries as [| e0 entries]; [elim Hne; reflexivity |].
  cbn [is_nil] in Hne.
  destruct audio as [alen |]; [| elim Hne; reflexivity].
  destruct (mapM slide_of_entry (enumerate (e0 :: entries)))
    as [slides | e |] eqn:Hs; try (elim Hne; reflexivity).
  exists (e0 :: entries), alen, slides.
  split; [reflexivity |]. split; [discriminate |]. split; [reflexivity |].
  split; [exact Hs |].
  intros s0 rest Hsort. rewrite Hsort in Hne.
  cbn [map is_nil negb nth andb] in Hne.
  destruct (Qle_bool (inject_Z (timestamp s0)) alen) eqn:Hle.
  - apply Qle_bool_iff, Hle.
  - elim Hne. reflexivity.
Qed.

End Animated.

Section Static.

Variable image_size : nat -> option (Z * Z).

Local Abbreviation frames_of :=
  (render_frames FONT_REG FONT_BOLD FONT_ITAL load_default textlength image_size).
Local Abbreviation static :=
  (main_static FONT_REG FONT_BOLD FONT_ITAL load_default textlength image_size).

Lemma render_frames_trace fuel b : forall slides trace frames trace' frames',
  frames_of fuel b slides trace frames = (trace', Ret frames') ->
  trace' = trace ++ map (fun s => EvRender (index s)) slides
  /\ List.length frames' = List.length frames + List.length slides.
Proof.
  induction slides as [| s slides IH]; intros trace frames trace' frames' Hr;
    cbn [render_frames] in Hr.
  - injection Hr as <- <-. cbn. rewrite app_nil_r. split; [reflexivity | lia].
  - destruct (render_slide_image _ _ _ _ _ _ _ _ _ _) as [f | e |];
      try discriminate Hr.
    apply IH in Hr as (-> & Hlen). rewrite <- app_assoc.
    split; [reflexivity |].
    rewrite length_app in Hlen. cbn [List.length] in *. lia.
Qed.

(** X29. The static [main] has no check of the first timestamp
    against the audio, and what it renders does not depend on the
    length of the audio: with any two audio lengths it renders the
    same slides in the same order, fails or goes on the same way,
    and the frames of the clips are the same; only the durations
    can differ. *)
Theorem main_static_renders_whatever_the_audio_length :
  forall fuel json (alen alen' : Q) base_font_size,
    fst (main_static
        FONT_REG FONT_BOLD FONT_ITAL load_default textlength image_size
        fuel json (Some alen) base_font_size)
    = fst (main_static
        FONT_REG FONT_BOLD FONT_ITAL load_default textlength image_size
        fuel json (Some alen') base_font_size)
    /\ match snd (main_static
        FONT_REG FONT_BOLD FONT_ITAL load_default textlength image_size
        fuel json (Some alen) base_font_size),
             snd (main_static
                 FONT_REG FONT_BOLD FONT_ITAL load_default textlength image_size
                 fuel json (Some alen') base_font_size) with
       | Ret clips, Ret clips' => map fst clips = map fst clips'
       | Raise e, Raise e' => e = e'
       | OutOfFuel, OutOfFuel => True
       | _, _ => False
       end.
Proof.
  intros fuel json alen alen' base_font_size. unfold main_static.
  destruct json as [entries |]; [| split; reflexivity].
  destruct (is_nil entries); [split; reflexivity |].
  destruct (mapM slide_of_entry (enumerate entries)) as [slides | e |];
    try (split; reflexivity).
  destruct (frames_of fuel base_font_size (sort_slides slides) [] [])
    as [tr out] eqn:Hf.
  destruct out as [frames | e |]; try (split; reflexivity).
  cbn [fst snd]. split; [reflexivity |].
  apply render_frames_trace in Hf as (_ & Hlen).
  cbn [List.length] in Hlen. rewrite sort_slides_length in Hlen.
  rewrite !map_fst_combine_same; [reflexivity | |];
    rewrite durations_length, length_map, sort_slides_length; exact Hlen.
Qed.

(** X30. When the static [main] gets as far as its list of clips,
    every entry has been rendered exactly once, the slides in the
    order of their timestamps; there is one clip per entry, the
    durations of the clips are those that
    [durations_from_timestamps] gives for the sorted timestamps,
    and no clip is shown for less than [MIN_SLIDE_SEC]. *)
Theorem main_static_clips :
  forall fuel json audio base_font_size trace clips,
    main_static FONT_REG FONT_BOLD FONT_ITAL load_default textlength image_size
        fuel json audio base_font_size = (trace, Ret clips) ->
    exists entries alen slides,
      json = Some entries /\ audio = Some alen
      /\ mapM slide_of_entry (enumerate entries) = Ret slides
      /\ trace = map (fun s => EvRender (index s)) (sort_slides slides)
      /\ StronglySorted (fun a b => (timestamp a <= timestamp b)%Z)
                        (sort_slides slides)
      /\ List.length clips = List.length entries
      /\ map snd clips
         = durations_from_timestamps
             (map (fun s => inject_Z (timestamp s)) (sort_slides slides)) alen
      /\ Forall (fun c => (MIN_SLIDE_SEC <= snd c)%Q) clips.
Proof.
  intros fuel json audio base_font_size trace clips Hm.
  unfold main_static in Hm.
  destruct json as [entries |]; [| discriminate Hm].
  destruct (is_nil entries); [discriminate Hm |].
  destruct audio as [alen |]; [| discriminate Hm].
  destruct (mapM slide_of_entry (enumerate entries)) as [slides | e |] eqn:Hs;
    try discriminate Hm.
  destruct (frames_of fuel base_font_size (sort_slides slides) [] [])
    as [tr out] eqn:Hf.
  destruct out as [frames | e |]; try discriminate Hm.
  injection Hm as <- <-.
  apply render_frames_trace in Hf as (-> & Hlen).
  cbn [app List.length] in Hlen.
  assert (Hfd : List.length frames
                = List.length (durations_from_timestamps
                    (map (fun s => inject_Z (timestamp s)) (sort_slides slides))
                    alen))
    by (rewrite durations_length, length_map; exact Hlen).
  assert (Hsnd : map snd (combine frames
                    (durations_from_timestamps
                       (map (fun s => inject_Z (timestamp s)) (sort_slides slides))
                       alen))
                 = durations_from_timestamps
                     (map (fun s => inject_Z (timestamp s)) (sort_slides slides))
                     alen)
    by (apply map_snd_combine_same; exact Hfd).
  exists entries, alen, slides.
  split; [reflexivity |]. split; [reflexivity |]. split; [exact Hs |].
  split; [reflexivity |]. split; [apply sort_slides_sorted |].
  split; [| split; [exact Hsnd |]].
  - rewrite length_combine, <- Hfd, Nat.min_id, Hlen, sort_slides_length.
    rewrite (mapM_length _ _ _ Hs), length_enumerate. reflexivity.
  - apply Forall_forall. intros c Hc.
    apply (durations_from_timestamps_floor
             (map (fun s => inject_Z (timestamp s)) (sort_slides slides)) alen).
    rewrite <- Hsnd. apply in_map. exact Hc.
Qed.

End Static.

End MainExtras.

Lemma main_success_trace_witness :
  exists slides,
    mapM slide_of_entry (enumerate sample_entries) = Ret slides
    /\ [EvRender 1; EvRender 0; EvWrite 2]
       = map (fun s => EvRender (index s)) (sort_slides slides)
           ++ [EvWrite (List.length sample_entries)].
Proof.
  destruct (main_success_trace sample_regular sample_bold sample_oblique
              sample_default sample_textlength (fun _ => true) 5
              (Some sample_entries) (Some 30%Q) 20
              [EvRender 1; EvRender 0; EvWrite 2])
    as (entries & slides & Hj & Hs & Ht & _).
  - vm_compute. reflexivity.
  - injection Hj as <-. exists slides. split; [exact Hs | exact Ht].
Defined.

Lemma main_renders_after_checks_witness :
  exists entries alen,
    Some sample_entries = Some entries /\ entries <> [] /\ Some 30%Q = Some alen.
Proof.
  destruct (main_renders_after_checks sample_regular sample_bold sample_oblique
              sample_default sample_textlength (fun _ => true) 5
              (Some sample_entries) (Some 30%Q) 20)
    as (entries & alen & slides & Hj & Hne & Ha & _).
  - vm_compute. discriminate.
  - exists entries, alen. repeat split; assumption.
Defined.

Lemma main_static_clips_witness :
  exists (clips : list (frame * Q)) slides,
    mapM slide_of_entry (enumerate sample_entries) = Ret slides
    /\ List.length clips = List.length sample_entries
    /\ Forall (fun c => (MIN_SLIDE_SEC <= snd c)%Q) clips.
Proof.
  destruct (main_static sample_regular sample_bold sample_oblique
              sample_default sample_textlength (fun _ => None) 5
              (Some sample_entries) (Some 3%Q) 20) as [trace out] eqn:Hm.
  destruct out as [clips | e |];
    [| vm_compute in Hm; discriminate Hm ..].
  destruct (main_static_clips _ _ _ _ _ _ _ _ _ _ _ _ Hm)
    as (entries & alen & slides & Hj & _ & Hs & _ & _ & Hl & _ & Hd).
  injection Hj as <-. exists clips, slides.
  split; [exact Hs |]. split; [exact Hl | exact Hd].
Defined.
